(** * seo_audit: a shallow embedding of the crawl-and-analyze core

    The development follows the Python sources module by module:
  - [Utils]      seo_audit/utils.py (URL normalisation, deduplication)
  - [Models]     seo_audit/models.py (PageResult, AuditConfig, AuditSummary)
  - [Headings]   seo_audit/analyzers.py (PageAnalyzer heading analysis)
  - [Redirects]  seo_audit/analyzers.py (RedirectAnalyzer)
  - [Crawler]    seo_audit/crawler.py (SEOCrawler frontier)
  - [LinkGraph]  seo_audit/advanced_analyzers.py (InternalLinkAnalyzer)
  - [Engine]     seo_audit/audit_engine.py (validate_config)

    Python [str] is modelled as [string] (a sequence of bytes, UTF-8 for the
  few non-ASCII characters of the French messages), [int] as [Z] or [nat]
  where the value is a count, [dict] as [gmap], [set] as [gset], [list] as
  [list], [Optional] as [option]. A [float] that is compared is a
  [PyFloat] (finite, infinite or NaN); the running mean of the summary is
  an exact rational [Q], so what is said of it is said of exact
  arithmetic. *)

From Stdlib Require Import Ascii String QArith Qabs DecimalString.
From stdpp Require Import gmap strings list sorting.

Open Scope string_scope.
Open Scope list_scope.

(** ** Python string primitives *)

Module PyStr.

(** [not s] for a string: true exactly for the empty string. *)
Definition is_empty (s : string) : bool :=
  match s with EmptyString => true | _ => false end.

(** [s.startswith(p)] *)
Fixpoint startswith (p s : string) : bool :=
  match p, s with
  | EmptyString, _ => true
  | String a p', String b s' => if Ascii.eqb a b then startswith p' s' else false
  | String _ _, EmptyString => false
  end.

(** [sub in s] *)
Fixpoint contains (sub s : string) : bool :=
  startswith sub s ||
  match s with
  | EmptyString => false
  | String _ s' => contains sub s'
  end.

(** [c in s] for a single character. *)
Fixpoint mem_char (c : ascii) (s : string) : bool :=
  match s with
  | EmptyString => false
  | String a s' => Ascii.eqb a c || mem_char c s'
  end.

Definition lower_char (c : ascii) : ascii :=
  let n := nat_of_ascii c in
  if (65 <=? n)%nat && (n <=? 90)%nat then ascii_of_nat (n + 32) else c.

(** [s.lower()]; bytes outside A-Z are left alone, which is what Python
    does on the characters that occur in this program's messages. *)
Fixpoint lower (s : string) : string :=
  match s with
  | EmptyString => EmptyString
  | String a s' => String (lower_char a) (lower s')
  end.

(** The text before the first occurrence of a character of [delims]. *)
Fixpoint take_until (delims : string) (s : string) : string :=
  match s with
  | EmptyString => EmptyString
  | String a s' => if mem_char a delims then EmptyString
                   else String a (take_until delims s')
  end.

(** The text after the first occurrence of [c], when there is one. *)
Fixpoint after_char (c : ascii) (s : string) : option string :=
  match s with
  | EmptyString => None
  | String a s' => if Ascii.eqb a c then Some s' else after_char c s'
  end.

Fixpoint drop (n : nat) (s : string) : string :=
  match n, s with
  | O, _ => s
  | S n', String _ s' => drop n' s'
  | S _, EmptyString => EmptyString
  end.

(** [s[:n]] *)
Fixpoint take (n : nat) (s : string) : string :=
  match n, s with
  | O, _ => EmptyString
  | S n', String a s' => String a (take n' s')
  | S _, EmptyString => EmptyString
  end.

Fixpoint forall_chars (f : ascii -> bool) (s : string) : bool :=
  match s with
  | EmptyString => true
  | String a s' => f a && forall_chars f s'
  end.

(** Whitespace, as [str.strip] and the pattern [\s] see it on ASCII text. *)
Definition is_space (c : ascii) : bool :=
  let n := nat_of_ascii c in
  ((9 <=? n)%nat && (n <=? 13)%nat) || ((28 <=? n)%nat && (n <=? 32)%nat).

Fixpoint lstrip (s : string) : string :=
  match s with
  | EmptyString => EmptyString
  | String a s' => if is_space a then lstrip s' else s
  end.

Fixpoint rstrip (s : string) : string :=
  match s with
  | EmptyString => EmptyString
  | String a s' =>
      let r := rstrip s' in
      if is_space a && is_empty r then EmptyString else String a r
  end.

(** [s.strip()] *)
Definition strip (s : string) : string := rstrip (lstrip s).

(** [re.sub(r'\s+', ' ', s)]; [in_run] tells that the previous character
    was whitespace, already replaced. *)
Fixpoint collapse_spaces (in_run : bool) (s : string) : string :=
  match s with
  | EmptyString => EmptyString
  | String a s' =>
      if is_space a
      then (if in_run then collapse_spaces true s'
            else String " " (collapse_spaces true s'))
      else String a (collapse_spaces false s')
  end.

Definition is_digit (c : ascii) : bool :=
  let n := nat_of_ascii c in (48 <=? n)%nat && (n <=? 57)%nat.

(** [str(n)] for a non-negative integer, as an f-string prints it. *)
Definition of_nat (n : nat) : string := NilZero.string_of_uint (Nat.to_uint n).

End PyStr.

(** ** The part of [urllib.parse] the program calls

    The standard library is not part of the repository: the program is
    embedded over an interface, and every general theorem holds for any
    implementation of it. *)

Class UrlLib := {
  (** [urllib.parse.urlparse(url).scheme] *)
  urlparse_scheme : string -> string;
  (** [urllib.parse.urlparse(url).netloc] *)
  urlparse_netloc : string -> string;
  (** [urllib.parse.urldefrag(url)[0]] *)
  urldefrag : string -> string;
  (** [urllib.parse.urljoin(base, url)] *)
  urljoin : string -> string -> string
}.

(** A concrete model of the interface, used to run the program on the
    concrete URLs of the examples. It follows [urlsplit] on URLs of the
    shape [scheme://host/path#fragment]: the scheme is the text before the
    first colon when it starts with a letter and consists of letters,
    digits, [+], [-] and [.]; the netloc is the text between a leading [//]
    and the first of [/], [?], [#]; removing the fragment cuts at the first
    [#]; joining returns an absolute reference as it is, resolves a
    reference that starts with [/] against the base's scheme and netloc and
    any other reference against the directory of the base's path (dot
    segments are not resolved). *)
Module PyUrl.
Import PyStr.

Definition is_alpha (c : ascii) : bool :=
  let n := nat_of_ascii c in
  ((65 <=? n)%nat && (n <=? 90)%nat) || ((97 <=? n)%nat && (n <=? 122)%nat).

Definition is_scheme_char (c : ascii) : bool :=
  let n := nat_of_ascii c in
  is_alpha c || ((48 <=? n)%nat && (n <=? 57)%nat) || mem_char c "+-.".

(** The pair (scheme, rest of the URL). *)
Definition split_scheme (url : string) : string * string :=
  let candidate := take_until ":" url in
  match after_char ":" url, candidate with
  | Some rest, String c _ =>
      if is_alpha c && forall_chars is_scheme_char candidate
      then (lower candidate, rest) else ("", url)
  | _, _ => ("", url)
  end.

Definition scheme (url : string) : string := fst (split_scheme url).

Definition netloc (url : string) : string :=
  let rest := snd (split_scheme url) in
  if startswith "//" rest then take_until "/?#" (drop 2 rest) else "".

Definition defrag (url : string) : string := take_until "#" url.

(** [scheme://netloc] of a URL. *)
Definition origin (url : string) : string := scheme url +:+ "://" +:+ netloc url.

(** The path of [url] up to and including its last [/]; [/] when the path
    has no slash. [acc] is the prefix read since the last slash. *)
Fixpoint dirname_from (path acc : string) : string :=
  match path with
  | EmptyString => EmptyString
  | String a rest =>
      if Ascii.eqb a "/"
      then acc +:+ "/" +:+ dirname_from rest EmptyString
      else dirname_from rest (acc +:+ String a EmptyString)
  end.

Definition dirname (path : string) : string :=
  if is_empty (dirname_from path EmptyString) then "/" else dirname_from path EmptyString.

Definition join (base url : string) : string :=
  if is_empty url then base
  else if negb (is_empty (scheme url)) then url
  else if startswith "/" url then origin base +:+ url
  else
    let path := take_until "?#" (drop (String.length (origin base)) base) in
    origin base +:+ dirname path +:+ url.

Definition model : UrlLib :=
  {| urlparse_scheme := scheme;
     urlparse_netloc := netloc;
     urldefrag := defrag;
     urljoin := join |}.

End PyUrl.

(** ** seo_audit/utils.py *)

Module Utils.
Section WithLib.
Context `{lib : UrlLib}.

(** [normalize_url]: remove the fragment, add [https://] when the URL has
    no scheme; the empty URL is returned as it is. *)
Definition normalize_url (url : string) : string :=
  if PyStr.is_empty url then url
  else
    let url := urldefrag url in
    if PyStr.is_empty (urlparse_scheme url) then "https://" +:+ url else url.

(** [is_same_domain] *)
Definition is_same_domain (url1 url2 : string) : bool :=
  bool_decide (PyStr.lower (urlparse_netloc url1) = PyStr.lower (urlparse_netloc url2)).

(** [is_valid_url] *)
Definition is_valid_url (url : string) : bool :=
  negb (PyStr.is_empty (urlparse_scheme url))
  && negb (PyStr.is_empty (urlparse_netloc url)).

(** [clean_text] *)
Definition clean_text (text : string) : string :=
  if PyStr.is_empty text then ""
  else PyStr.strip (PyStr.collapse_spaces false text).

(** [filter_urls_by_domain] *)
Definition filter_urls_by_domain (urls : list string) (allowed_domain : string)
  : list string :=
  List.filter (fun url => is_same_domain url allowed_domain) urls.

(** The loop of [deduplicate_urls], with its two accumulators. *)
Fixpoint dedup_loop (urls : list string) (seen : gset string) (result : list string)
  : list string :=
  match urls with
  | [] => result
  | url :: rest =>
      let normalized := normalize_url url in
      if negb (PyStr.is_empty normalized) && negb (bool_decide (normalized ∈ seen))
      then dedup_loop rest ({[normalized]} ∪ seen) (result ++ [normalized])
      else dedup_loop rest seen result
  end.

(** [deduplicate_urls] *)
Definition deduplicate_urls (urls : list string) : list string :=
  dedup_loop urls ∅ [].

(** The normalized URLs that deduplication considers, in input order: the
    non-empty values of [normalize_url]. *)
Definition candidates (urls : list string) : list string :=
  List.filter (fun u => negb (PyStr.is_empty u)) (List.map normalize_url urls).

(** [x not in seen] *)
Definition not_in (seen : gset string) (x : string) : bool :=
  negb (bool_decide (x ∈ seen)).

(** [y != x] *)
Definition differs (x y : string) : bool := negb (bool_decide (y = x)).

(** The specification's reading of deduplication: every element is kept
    at its first occurrence and dropped from the rest. *)
Fixpoint keep_first_seen (l : list string) : list string :=
  match l with
  | [] => []
  | x :: l' => x :: List.filter (differs x) (keep_first_seen l')
  end.

End WithLib.
End Utils.

(** ** seo_audit/models.py *)

Module Models.

(** [HeadingItem] *)
Record HeadingItem := {
  level : nat;       (* 1-6 for H1-H6 *)
  text : string;
  position : nat     (* position in the document (order of appearance) *)
}.

(** [PageResult], with the fields that the embedded functions read or
    write; the other fields of the dataclass are plain data carried to the
    exporters. *)
Record PageResult := {
  url : string;
  status : option Z;
  response_ms : option Z;
  issues : list string;
  headings_structure : list HeadingItem;
  headings_hierarchy_issues : list string;
  redirect_chain : list string
}.

(** [PageResult(url=url)]: every other field at its default. *)
Definition new_PageResult (u : string) : PageResult :=
  {| url := u; status := None; response_ms := None; issues := [];
     headings_structure := []; headings_hierarchy_issues := [];
     redirect_chain := [] |}.

Definition set_issues (r : PageResult) (l : list string) : PageResult :=
  {| url := url r; status := status r; response_ms := response_ms r; issues := l;
     headings_structure := headings_structure r;
     headings_hierarchy_issues := headings_hierarchy_issues r;
     redirect_chain := redirect_chain r |}.

Definition set_headings_structure (r : PageResult) (l : list HeadingItem) : PageResult :=
  {| url := url r; status := status r; response_ms := response_ms r; issues := issues r;
     headings_structure := l;
     headings_hierarchy_issues := headings_hierarchy_issues r;
     redirect_chain := redirect_chain r |}.

Definition set_headings_hierarchy_issues (r : PageResult) (l : list string) : PageResult :=
  {| url := url r; status := status r; response_ms := response_ms r; issues := issues r;
     headings_structure := headings_structure r;
     headings_hierarchy_issues := l;
     redirect_chain := redirect_chain r |}.

(** A Python [float] as far as comparisons see it: a finite value, given
    by the rational it stands for, an infinity, or NaN. *)
Inductive PyFloat :=
| Finite (q : Q)
| PosInf
| NegInf
| NaN.

(** [x < y] on floats: every comparison with NaN is false. *)
Definition float_ltb (x y : PyFloat) : bool :=
  match x, y with
  | NaN, _ | _, NaN => false
  | _, NegInf => false
  | NegInf, _ => true
  | PosInf, _ => false
  | Finite _, PosInf => true
  | Finite a, Finite b => if Qlt_le_dec a b then true else false
  end.

(** [AuditConfig], with the fields that validation and the crawler read. *)
Record AuditConfig := {
  domain : string;
  max_pages : Z;
  rate_limit : PyFloat;
  follow_redirects : bool
}.

(** [AuditSummary] *)
Record AuditSummary := {
  total_pages : nat;
  pages_with_issues : nat;
  avg_response_time : Q;
  total_issues : nat;
  common_issues : gmap string nat;
  status_codes : gmap Z nat
}.

(** [AuditSummary()] *)
Definition new_AuditSummary : AuditSummary :=
  {| total_pages := 0; pages_with_issues := 0; avg_response_time := 0%Q;
     total_issues := 0; common_issues := ∅; status_codes := ∅ |}.

(** Truth value of an [Optional[int]]: [None] and [0] are false. *)
Definition truthy (o : option Z) : bool :=
  match o with
  | Some z => negb (z =? 0)%Z
  | None => false
  end.

(** [d[k] = d.get(k, 0) + 1] *)
Definition bump `{Countable K} (d : gmap K nat) (k : K) : gmap K nat :=
  <[k := (default 0 (d !! k) + 1)%nat]> d.

(** [AuditSummary.add_result] *)
Definition add_result (self : AuditSummary) (result : PageResult) : AuditSummary :=
  let total_pages' := (total_pages self + 1)%nat in
  let has_issues := negb (bool_decide (issues result = [])) in
  let pages_with_issues' :=
    if has_issues then (pages_with_issues self + 1)%nat else pages_with_issues self in
  let total_issues' :=
    if has_issues then (total_issues self + length (issues result))%nat
    else total_issues self in
  let avg_response_time' :=
    match response_ms result with
    | Some ms =>
        if truthy (Some ms)
        then ((avg_response_time self * inject_Z (Z.of_nat (total_pages' - 1))
               + inject_Z ms) / inject_Z (Z.of_nat total_pages'))%Q
        else avg_response_time self
    | None => avg_response_time self
    end in
  let status_codes' :=
    match status result with
    | Some code => if truthy (Some code) then bump (status_codes self) code
                   else status_codes self
    | None => status_codes self
    end in
  let common_issues' := fold_left bump (issues result) (common_issues self) in
  {| total_pages := total_pages';
     pages_with_issues := pages_with_issues';
     avg_response_time := avg_response_time';
     total_issues := total_issues';
     common_issues := common_issues';
     status_codes := status_codes' |}.

(** The summary after a sequence of results has been added, one by one. *)
Definition add_results (self : AuditSummary) (results : list PageResult) : AuditSummary :=
  fold_left add_result results self.

(** The latencies that [get_performance_insights] of the engine averages:
    [[r.response_ms for r in results if r.response_ms]]. *)
Definition response_times (results : list PageResult) : list Z :=
  omap (fun r => if truthy (response_ms r) then response_ms r else None) results.

(** The latencies of the records whose latency is not [None]. *)
Definition non_null_latencies (results : list PageResult) : list Z :=
  omap response_ms results.

(** The number of results with a non-empty issue list. *)
Definition count_with_issues (rs : list PageResult) : nat :=
  length (List.filter (fun r => negb (bool_decide (issues r = []))) rs).

(** Arithmetic mean, [sum(l) / len(l)]. *)
Definition mean (l : list Z) : Q :=
  (inject_Z (fold_right Z.add 0%Z l) / inject_Z (Z.of_nat (length l)))%Q.

End Models.

(** ** seo_audit/analyzers.py: heading analysis of [PageAnalyzer] *)

Module Headings.
Import Models.

(** The parsed document, as far as heading analysis looks at it: its
    [h1] ... [h6] elements in document order, each with the text that
    [node.text()] returns. *)
Record HeadingElement := {
  tag_level : nat;
  node_text : string
}.

(** [tree.css(f'h{level}')]: the elements with that tag, in document order. *)
Definition css_h (tree : list HeadingElement) (lvl : nat) : list HeadingElement :=
  List.filter (fun e => (tag_level e =? lvl)%nat) tree.

(** The inner loop of [_analyze_heading_structure] for one level: the
    pairs (level, text[:100]) of the non-empty headings of that level. *)
Definition collect_level (tree : list HeadingElement) (lvl : nat) : list (nat * string) :=
  omap (fun heading =>
          let text := PyStr.strip (Utils.clean_text (node_text heading)) in
          if PyStr.is_empty text then None else Some (lvl, PyStr.take 100 text))
       (css_h tree lvl).

(** [all_headings_elements] after the loop [for level in range(1, 7)]. *)
Definition all_headings_elements (tree : list HeadingElement) : list (nat * string) :=
  concat (List.map (collect_level tree) [1; 2; 3; 4; 5; 6]%nat).

(** The loop over [enumerate(all_headings_elements)]. *)
Definition make_headings (elements : list (nat * string)) : list HeadingItem :=
  imap (fun pos e => {| level := fst e; text := snd e; position := pos |}) elements.

Definition msg_no_headings : string := "Aucun titre trouvé".

Definition msg_first_not_h1 (lvl : nat) : string :=
  "Le premier titre est H" +:+ PyStr.of_nat lvl +:+ ", devrait être H1".

Definition msg_no_h1 : string := "Aucun titre H1 trouvé".

Definition msg_multiple_h1 (n : nat) : string :=
  "Plusieurs titres H1 trouvés (" +:+ PyStr.of_nat n +:+ ")".

Definition msg_level_skip (prev_level current_level : nat) : string :=
  "Saut de niveau de titre: H" +:+ PyStr.of_nat prev_level +:+ " → H"
  +:+ PyStr.of_nat current_level +:+ " (H" +:+ PyStr.of_nat (prev_level + 1) +:+ " manquant)".

Definition msg_empty_headings (n : nat) : string :=
  PyStr.of_nat n +:+ " titres vides trouvés".

Definition msg_long_headings (n : nat) : string :=
  PyStr.of_nat n +:+ " titres trop longs (>70 caractères)".

(** One iteration of the loop that checks hierarchy skips; the state is
    [(prev_level, issues)]. *)
Definition skip_step (st : nat * list string) (heading : HeadingItem) : nat * list string :=
  let '(prev_level, issues) := st in
  let current_level := level heading in
  let issues :=
    if (0 <? prev_level)%nat && (prev_level + 1 <? current_level)%nat
    then issues ++ [msg_level_skip prev_level current_level]
    else issues in
  (current_level, issues).

(** The whole loop, started with [prev_level = 0]. *)
Definition check_hierarchy_skips (headings : list HeadingItem) (issues : list string)
  : list string :=
  snd (fold_left skip_step headings (0%nat, issues)).

(** The keyword gate of the last loop of [_validate_heading_hierarchy]. *)
Definition keywords : list string := ["no h1"; "multiple h1"; "skip"; "no headings"].

Definition is_significant (issue : string) : bool :=
  existsb (fun keyword => PyStr.contains keyword (PyStr.lower issue)) keywords.

(** The issues of a non-empty heading list, in the order the checks append
    them. *)
Definition hierarchy_issues (first : HeadingItem) (headings : list HeadingItem) : list string :=
  let issues := [] in
  let issues :=
    if negb (level first =? 1)%nat then issues ++ [msg_first_not_h1 (level first)]
    else issues in
  let h1_headings := List.filter (fun h => (level h =? 1)%nat) headings in
  let issues :=
    if bool_decide (h1_headings = []) then issues ++ [msg_no_h1]
    else if (1 <? length h1_headings)%nat
         then issues ++ [msg_multiple_h1 (length h1_headings)]
         else issues in
  let issues := check_hierarchy_skips headings issues in
  let empty_headings :=
    List.filter (fun h => PyStr.is_empty (PyStr.strip (text h))) headings in
  let issues :=
    if bool_decide (empty_headings = []) then issues
    else issues ++ [msg_empty_headings (length empty_headings)] in
  let long_headings :=
    List.filter (fun h => (70 <? String.length (text h))%nat) headings in
  let issues :=
    if bool_decide (long_headings = []) then issues
    else issues ++ [msg_long_headings (length long_headings)] in
  issues.

(** [PageAnalyzer._validate_heading_hierarchy] *)
Definition validate_heading_hierarchy (headings : list HeadingItem) (result : PageResult)
  : PageResult :=
  match headings with
  | [] =>
      let result :=
        set_headings_hierarchy_issues result
          (headings_hierarchy_issues result ++ [msg_no_headings]) in
      set_issues result (issues result ++ [msg_no_headings])
  | first :: _ =>
      let issues := hierarchy_issues first headings in
      let result := set_headings_hierarchy_issues result issues in
      set_issues result
        (Models.issues result
         ++ List.map (fun issue => "Structure des titres: " +:+ issue)
                     (List.filter is_significant issues))
  end.

(** [PageAnalyzer._analyze_heading_structure] *)
Definition analyze_heading_structure (tree : list HeadingElement) (result : PageResult)
  : PageResult :=
  let headings := make_headings (all_headings_elements tree) in
  let result := set_headings_structure result headings in
  validate_heading_hierarchy headings result.

(** *** Notions used to state and prove the properties of the checks *)

(** The specification's reading of the skip check: the pairs of a level
    and its successor in the list (0 before the first) with
    [prevLevel > 0] and [currentLevel > prevLevel + 1]. *)
Definition is_skip (pair : nat * nat) : bool :=
  (0 <? fst pair)%nat && (fst pair + 1 <? snd pair)%nat.

Definition skip_pairs (levels : list nat) : list (nat * nat) :=
  List.filter is_skip (combine (0%nat :: levels) levels).

Definition skip_messages (levels : list nat) : list string :=
  List.map (fun pair => msg_level_skip (fst pair) (snd pair)) (skip_pairs levels).

(** A message of the level-skip class. *)
Definition is_level_skip_message (issue : string) : bool :=
  PyStr.startswith "Saut de niveau de titre" issue.

(** The issues that [_validate_heading_hierarchy] records before and
    after the skip check. *)
Definition issues_before_skips (first : HeadingItem) (headings : list HeadingItem)
  : list string :=
  (if negb (level first =? 1)%nat then [msg_first_not_h1 (level first)] else [])
  ++ (let h1_headings := List.filter (fun h => (level h =? 1)%nat) headings in
      if bool_decide (h1_headings = []) then [msg_no_h1]
      else if (1 <? length h1_headings)%nat then [msg_multiple_h1 (length h1_headings)]
           else []).

Definition issues_after_skips (headings : list HeadingItem) : list string :=
  (let empty_headings :=
     List.filter (fun h => PyStr.is_empty (PyStr.strip (text h))) headings in
   if bool_decide (empty_headings = []) then []
   else [msg_empty_headings (length empty_headings)])
  ++ (let long_headings :=
        List.filter (fun h => (70 <? String.length (text h))%nat) headings in
      if bool_decide (long_headings = []) then []
      else [msg_long_headings (length long_headings)]).

(** Every keyword of the gate contains the letter k or one of the letter
    pairs no and mu. [free_of_keywords p s] tells that the text [s], read
    after the character [p], has none of the three. *)
Definition allowed (p c : ascii) : bool :=
  negb (Ascii.eqb c "k")
  && negb (Ascii.eqb p "n" && Ascii.eqb c "o")
  && negb (Ascii.eqb p "m" && Ascii.eqb c "u").

Fixpoint free_of_keywords (p : ascii) (s : string) : bool :=
  match s with
  | EmptyString => true
  | String c s' => allowed p c && free_of_keywords c s'
  end.

Fixpoint last_char (p : ascii) (s : string) : ascii :=
  match s with
  | EmptyString => p
  | String c s' => last_char c s'
  end.

End Headings.

(** ** seo_audit/analyzers.py: [RedirectAnalyzer] *)

Module Redirects.

(** What the analyzer reads of a response: the status code and the
    [Location] header ([headers.get('Location')]). *)
Record Response := {
  status_code : Z;
  location : option string
}.

Definition msg_no_location : string := "Redirection sans en-tête Location".
Definition msg_loop : string := "Boucle de redirection détectée".
Definition msg_broken : string := "Chaîne de redirection interrompue".
Definition msg_mixed : string := "HTTP/HTTPS mélangé dans la chaîne de redirection".

Definition msg_long (n : nat) : string :=
  "Chaîne de redirection longue (" +:+ PyStr.of_nat n +:+ " étapes)".

Definition msg_error (e : string) : string :=
  "Erreur d'analyse des redirections: " +:+ e.

(** [status_code in [301, 302, 303, 307, 308]] *)
Definition is_redirect (code : Z) : bool :=
  bool_decide (code ∈ [301; 302; 303; 307; 308]%Z).

(** How the [while] loop of [analyze_redirects] ends: by its condition or
    a [break], or by an exception that the outer [except] catches, with
    the chain and the issues at that point. *)
Inductive LoopEnd :=
| Ended (redirect_chain issues : list string)
| Raised (redirect_chain issues : list string) (e : string).

Definition chain_of (r : LoopEnd) : list string :=
  match r with Ended redirect_chain _ | Raised redirect_chain _ _ => redirect_chain end.

Definition issues_of (r : LoopEnd) : list string :=
  match r with Ended _ issues | Raised _ issues _ => issues end.

Section WithSession.
Context `{lib : UrlLib}.

(** [session.get(url, allow_redirects=False, ...)]: the answer to the
    [n]-th request of the analysis (counted from 0), a response or the
    text of the exception raised. The server is free to answer the same
    URL differently at different times. *)
Variable session_get : nat -> string -> Response + string.

(** The exceptions of [urllib.parse] inside the [try]: the text of the
    exception that [urljoin(base, url)] raises, and of the one that
    [urlparse(url)] raises, if they raise (on a URL such as [http://[x]).
    Where they return, they return what [UrlLib] gives. *)
Variable urljoin_error : string -> string -> option string.
Variable urlparse_error : string -> option string.

(** The [while] loop of [analyze_redirects]. [n] counts the requests sent
    so far; the state is the current response, [current_url],
    [redirect_chain] and [issues]. [None] means that the fuel ran out
    before the loop ended. *)
Fixpoint follow (fuel n : nat) (response : Response) (current_url : string)
  (redirect_chain issues : list string) : option LoopEnd :=
  if is_redirect (status_code response) && (length redirect_chain <? 10)%nat then
    match fuel with
    | O => None
    | S fuel' =>
        match location response with
        | None => Some (Ended redirect_chain (issues ++ [msg_no_location]))
        | Some loc =>
            if PyStr.is_empty loc
            then Some (Ended redirect_chain (issues ++ [msg_no_location]))
            else
              match urljoin_error current_url loc with
              | Some e => Some (Raised redirect_chain issues e)
              | None =>
                  let next_url := urljoin current_url loc in
                  if bool_decide (next_url ∈ redirect_chain)
                  then Some (Ended redirect_chain (issues ++ [msg_loop]))
                  else
                    let redirect_chain := redirect_chain ++ [next_url] in
                    let current_url := next_url in
                    match session_get n current_url with
                    | inr _ => Some (Ended redirect_chain (issues ++ [msg_broken]))
                    | inl response' =>
                        follow fuel' (S n) response' current_url redirect_chain issues
                    end
              end
        end
    end
  else Some (Ended redirect_chain issues).

(** [[urllib.parse.urlparse(u).scheme for u in redirect_chain]]: the
    schemes, or the text of the first exception. *)
Fixpoint schemes_of (redirect_chain : list string) : list string + string :=
  match redirect_chain with
  | [] => inl []
  | u :: rest =>
      match urlparse_error u with
      | Some e => inr e
      | None =>
          match schemes_of rest with
          | inl schemes => inl (urlparse_scheme u :: schemes)
          | inr e => inr e
          end
      end
  end.

(** The analysis of the chain after the loop: the issues afterwards, and
    the text of the exception if the scheme check raised. *)
Definition analyze_chain (redirect_chain issues : list string)
  : list string * option string :=
  if (1 <? length redirect_chain)%nat then
    let issues :=
      if (3 <? length redirect_chain)%nat
      then issues ++ [msg_long (length redirect_chain)] else issues in
    match schemes_of redirect_chain with
    | inr e => (issues, Some e)
    | inl schemes =>
        if (1 <? size (list_to_set schemes : gset string))%nat
        then (issues ++ [msg_mixed], None) else (issues, None)
    end
  else (issues, None).

(** The outer [except]: the error issue is added to the issues so far. *)
Definition caught (issues : list string) (e : option string) : list string :=
  match e with
  | Some e => issues ++ [msg_error e]
  | None => issues
  end.

(** [RedirectAnalyzer.analyze_redirects], with the fuel of its loop. *)
Definition analyze_redirects_fuel (fuel : nat) (url : string)
  : option (list string * list string) :=
  match session_get 0 url with
  | inr e => Some ([], caught [] (Some e))
  | inl response =>
      match follow fuel 1 response url [url] [] with
      | None => None
      | Some (Raised redirect_chain issues e) =>
          Some (redirect_chain, caught issues (Some e))
      | Some (Ended redirect_chain issues) =>
          let '(issues, e) := analyze_chain redirect_chain issues in
          Some (redirect_chain, caught issues e)
      end
  end.

(** Ten rounds are enough for the loop: see [RedirectsFacts.follow_total]. *)
Definition analyze_redirects (url : string) : option (list string * list string) :=
  analyze_redirects_fuel 10 url.

End WithSession.
End Redirects.

(** ** seo_audit/audit_engine.py: configuration validation *)

Module Engine.
Import Models.

(** [SEOAuditEngine.validate_config]; the printed messages are left out. *)
Definition validate_config (config : AuditConfig) : bool :=
  if PyStr.is_empty (domain config) then false
  else if negb (PyStr.startswith "http://" (domain config)
                || PyStr.startswith "https://" (domain config)) then false
  else if (max_pages config <=? 0)%Z then false
  else if float_ltb (rate_limit config) (Finite 0) then false
  else true.

(** A float that is greater than or equal to 0; NaN is not. *)
Definition non_negative (x : PyFloat) : Prop :=
  match x with
  | Finite q => (0 <= q)%Q
  | PosInf => True
  | NegInf | NaN => False
  end.

(** What the specification asks of the domain and of the page budget. *)
Definition domain_and_budget_ok (config : AuditConfig) : Prop :=
  domain config <> "" /\
  ((exists rest, domain config = "http://" +:+ rest) \/
   (exists rest, domain config = "https://" +:+ rest)) /\
  (0 < max_pages config)%Z.

(** What the specification asks of a configuration. *)
Definition well_formed (config : AuditConfig) : Prop :=
  domain config <> "" /\
  ((exists rest, domain config = "http://" +:+ rest) \/
   (exists rest, domain config = "https://" +:+ rest)) /\
  (0 < max_pages config)%Z /\
  non_negative (rate_limit config).

(** The ['avg_response_time'] entry of [get_performance_insights]: the
    mean over [[r.response_ms for r in self.results if r.response_ms]]. *)
Definition insights_avg_response_time (results : list PageResult) : Q :=
  if bool_decide (response_times results = []) then 0%Q
  else mean (response_times results).

(** What the entry points do with the verdict (seo_audit/cli.py [main],
    run_audit.py, web_interface/app.py): the audit runs only after
    validation has succeeded. *)
Inductive Outcome (A : Type) :=
| Rejected
| Ran (results : A).
Arguments Rejected {A}.
Arguments Ran {A} results.

Definition main {A : Type} (run_audit : AuditConfig -> A) (config : AuditConfig) : Outcome A :=
  if negb (validate_config config) then Rejected
  else Ran (run_audit config).

End Engine.

(** ** seo_audit/crawler.py: the frontier of [SEOCrawler] *)

Module Crawler.
Import Models.

(** The mutable fields of [SEOCrawler] that the crawl loop uses. *)
Record State := {
  discovered_urls : gset string;
  crawled_urls : gset string;
  url_queue : list string
}.

(** The fields as [__init__] leaves them. *)
Definition init : State :=
  {| discovered_urls := ∅; crawled_urls := ∅; url_queue := [] |}.

(** [l[:n]] for a Python list: a negative [n] counts from the end. *)
Definition slice_to {A : Type} (n : Z) (l : list A) : list A :=
  if (0 <=? n)%Z then take (Z.to_nat n) l
  else take (Z.to_nat (Z.of_nat (length l) + n)) l.

Section WithEnvironment.
Context `{lib : UrlLib}.

Variable config : AuditConfig.

(** [is_allowed_by_robots(url, user_agent, robots_parser)] for the parser
    and the user agent of this crawler. *)
Variable robots_allows : string -> bool.

(** [self.discovery.discover_from_sitemap(domain)]: what the network
    returned at initialisation. *)
Variable sitemap_urls : list string.

(** [self.discovery.discover_from_page(url)] at the [i]-th iteration of
    the crawl loop: what the network returns then. *)
Variable discover_from_page : nat -> string -> list string.

(** [SEOCrawler._add_url_to_queue] *)
Definition add_url_to_queue (st : State) (url : string) : State :=
  if negb (bool_decide (url ∈ discovered_urls st)) && Utils.is_valid_url url then
    if robots_allows url then
      {| discovered_urls := {[url]} ∪ discovered_urls st;
         crawled_urls := crawled_urls st;
         url_queue := url_queue st ++ [url] |}
    else st
  else st.

(** [SEOCrawler.initialize_urls] *)
Definition initialize_urls (st : State) : State :=
  if negb (bool_decide (sitemap_urls = [])) then
    let filtered_urls := Utils.filter_urls_by_domain sitemap_urls (domain config) in
    fold_left add_url_to_queue (slice_to (max_pages config) filtered_urls) st
  else
    let homepage := Utils.normalize_url (domain config) in
    add_url_to_queue st homepage.

(** [SEOCrawler.get_next_url]: the URL returned, if any, and the state
    after the call. *)
Definition get_next_url (st : State) : option string * State :=
  match url_queue st with
  | [] => (None, st)
  | url :: rest =>
      if (max_pages config <=? Z.of_nat (size (crawled_urls st)))%Z then (None, st)
      else (Some url,
            {| discovered_urls := discovered_urls st;
               crawled_urls := crawled_urls st;
               url_queue := rest |})
  end.

(** [SEOCrawler.mark_url_crawled] *)
Definition mark_url_crawled (st : State) (url : string) : State :=
  {| discovered_urls := discovered_urls st;
     crawled_urls := {[url]} ∪ crawled_urls st;
     url_queue := url_queue st |}.

(** The [for] loop of [discover_more_urls], which stops at the first URL
    that finds the discovered set full. *)
Fixpoint discover_loop (st : State) (page_urls : list string) : State :=
  match page_urls with
  | [] => st
  | page_url :: rest =>
      if (Z.of_nat (size (discovered_urls st)) <? max_pages config)%Z
      then discover_loop (add_url_to_queue st page_url) rest
      else st
  end.

(** [SEOCrawler.discover_more_urls] at iteration [i]. *)
Definition discover_more_urls (i : nat) (st : State) (url : string) : State :=
  if (max_pages config <=? Z.of_nat (size (discovered_urls st)))%Z then st
  else discover_loop st (discover_from_page i url).

(** The body of the loop of [crawl_urls] after the [yield]: what runs
    when the consumer asks for the next URL. *)
Definition resume (i : nat) (st : State) (url : string) : State :=
  let st := mark_url_crawled st url in
  if (Z.of_nat (size (crawled_urls st)) <? max_pages config)%Z
  then discover_more_urls i st url
  else st.

(** The loop of [crawl_urls] run to its end: the URLs yielded, in order,
    and the final state. [_respect_rate_limit] only sleeps and is left
    out. [None] means that the fuel ran out. *)
Fixpoint crawl_loop (fuel i : nat) (st : State) : option (list string * State) :=
  match get_next_url st with
  | (None, st) => Some ([], st)
  | (Some url, st) =>
      if PyStr.is_empty url then Some ([], st)
      else
        match fuel with
        | O => None
        | S fuel' =>
            match crawl_loop fuel' (S i) (resume i st url) with
            | Some (urls, st') => Some (url :: urls, st')
            | None => None
            end
        end
  end.

(** [SEOCrawler.crawl_urls], consumed to the end. *)
Definition crawl_urls (fuel : nat) : option (list string * State) :=
  crawl_loop fuel 0 (initialize_urls init).

End WithEnvironment.

(** The invariant of the frontier: the queue holds no URL twice, every
    queued or crawled URL has been discovered, and no queued URL has been
    crawled. *)
Definition frontier_ok (st : State) : Prop :=
  NoDup (url_queue st) /\
  (forall u, u ∈ url_queue st -> u ∈ discovered_urls st) /\
  (forall u, u ∈ crawled_urls st -> u ∈ discovered_urls st) /\
  (forall u, u ∈ url_queue st -> u ∉ crawled_urls st).

End Crawler.

(** ** seo_audit/advanced_analyzers.py: [InternalLinkAnalyzer] *)

Module LinkGraph.

(** The fields of [InternalLinkAnalyzer]. The two graphs are
    [defaultdict(set)]. *)
Record Analyzer := {
  link_graph : gmap string (gset string);
  reverse_link_graph : gmap string (gset string);
  all_urls : gset string
}.

(** [InternalLinkAnalyzer()] *)
Definition new : Analyzer :=
  {| link_graph := ∅; reverse_link_graph := ∅; all_urls := ∅ |}.

(** [d[k]] on a [defaultdict(set)]: a missing key is inserted with the
    empty set. The value read and the dictionary afterwards. *)
Definition dd_get (d : gmap string (gset string)) (k : string)
  : gset string * gmap string (gset string) :=
  match d !! k with
  | Some v => (v, d)
  | None => (∅, <[k := ∅]> d)
  end.

(** [d[k].add(x)] *)
Definition dd_add (d : gmap string (gset string)) (k x : string)
  : gmap string (gset string) :=
  let '(v, d) := dd_get d k in <[k := {[x]} ∪ v]> d.

Section WithLib.
Context `{lib : UrlLib}.

(** The body of the loop of [add_page_links] for one link. *)
Definition add_link (page_url : string) (self : Analyzer) (link : string) : Analyzer :=
  let normalized_link := Utils.normalize_url link in
  if negb (PyStr.is_empty normalized_link)
     && Utils.is_same_domain normalized_link page_url
  then {| link_graph := dd_add (link_graph self) page_url normalized_link;
          reverse_link_graph := dd_add (reverse_link_graph self) normalized_link page_url;
          all_urls := {[normalized_link]} ∪ all_urls self |}
  else self.

(** [InternalLinkAnalyzer.add_page_links] *)
Definition add_page_links (self : Analyzer) (page_url : string) (outbound_links : list string)
  : Analyzer :=
  let self := {| link_graph := link_graph self;
                 reverse_link_graph := reverse_link_graph self;
                 all_urls := {[page_url]} ∪ all_urls self |} in
  fold_left (add_link page_url) outbound_links self.

(** The analyzer after [add_page_links(home, [p1])] and
    [add_page_links(p1, [p2])]: the graph with the forward edges
    home -> p1 and p1 -> p2. *)
Definition with_two_edges (home p1 p2 : string) : Analyzer :=
  add_page_links (add_page_links new home [p1]) p1 [p2].

End WithLib.

(** The test of [find_orphaned_pages] on one URL. The second disjunct is
    evaluated only when the key is there, so nothing is inserted. *)
Definition is_orphan (self : Analyzer) (url : string) : bool :=
  match reverse_link_graph self !! url with
  | None => true
  | Some sources => (size sources =? 0)%nat
  end.

(** [InternalLinkAnalyzer.find_orphaned_pages] *)
Definition find_orphaned_pages (self : Analyzer) (sitemap_urls : gset string) : gset string :=
  filter (fun url => is_orphan self url = true) sitemap_urls.

(** The body of the inner loop of [find_link_depth]; the state is
    [(depths, queue)]. *)
Definition visit (current_depth : nat) (st : gmap string nat * list string)
  (linked_url : string) : gmap string nat * list string :=
  let '(depths, queue) := st in
  match depths !! linked_url with
  | Some _ => st
  | None => (<[linked_url := (current_depth + 1)%nat]> depths, queue ++ [linked_url])
  end.

(** The [while queue] loop of [find_link_depth]: the depths and the link
    graph afterwards (reading [link_graph[current_url]] inserts missing
    keys). A set is iterated in the order of [elements]; Python leaves the
    order open. [None] means that the fuel ran out, or that
    [depths[current_url]] raised [KeyError]. *)
Fixpoint bfs (fuel : nat) (graph : gmap string (gset string)) (depths : gmap string nat)
  (queue : list string) : option (gmap string nat * gmap string (gset string)) :=
  match queue with
  | [] => Some (depths, graph)
  | current_url :: queue =>
      match fuel with
      | O => None
      | S fuel' =>
          match depths !! current_url with
          | None => None
          | Some current_depth =>
              let '(links, graph) := dd_get graph current_url in
              let '(depths, queue) :=
                fold_left (visit current_depth) (elements links) (depths, queue) in
              bfs fuel' graph depths queue
          end
      end
  end.

(** [InternalLinkAnalyzer.find_link_depth]: the dictionary returned and
    the analyzer afterwards. *)
Definition find_link_depth (fuel : nat) (self : Analyzer) (start_url : string)
  : option (gmap string nat * Analyzer) :=
  match bfs fuel (link_graph self) {[start_url := 0%nat]} [start_url] with
  | Some (depths, graph) =>
      Some (depths, {| link_graph := graph;
                       reverse_link_graph := reverse_link_graph self;
                       all_urls := all_urls self |})
  | None => None
  end.

End LinkGraph.

(** ** Concrete inputs used by the examples *)

Module Examples.
Import Models.

(** A page whose request timed out: [analyze_page] leaves [response_ms]
    and [status] at [None] and records the timeout. *)
Definition timed_out_page : PageResult :=
  set_issues (new_PageResult "https://example.com/slow") ["Timeout de la requête"].

(** A page answered in [ms] milliseconds with status 200 and the given
    issues. *)
Definition page (u : string) (ms : Z) (l : list string) : PageResult :=
  {| url := u; status := Some 200%Z; response_ms := Some ms; issues := l;
     headings_structure := []; headings_hierarchy_issues := [];
     redirect_chain := [] |}.

(** The three records of tests/test_models.py (the second has status 404
    there; the status plays no role in the mean). *)
Definition result1 : PageResult :=
  page "https://example.com/page1" 500 ["Missing meta description"; "Title too short"].
Definition result2 : PageResult := page "https://example.com/page2" 300 ["HTTP 404"].
Definition result3 : PageResult := page "https://example.com/page3" 200 [].

(** A page answered so fast that the measured latency is 0 ms, with
    status 0. *)
Definition zero_page : PageResult :=
  {| url := "https://example.com/fast"; status := Some 0%Z; response_ms := Some 0%Z;
     issues := []; headings_structure := []; headings_hierarchy_issues := [];
     redirect_chain := [] |}.

(** The configuration of example.py. *)
Definition polite_config : AuditConfig :=
  {| domain := "https://example.com"; max_pages := 10; rate_limit := Finite (1 # 2);
     follow_redirects := true |}.

(** The configuration that [--rate-limit nan] gives. *)
Definition nan_config : AuditConfig :=
  {| domain := "https://example.com"; max_pages := 10; rate_limit := NaN;
     follow_redirects := true |}.

(** A configuration whose domain lacks the protocol. *)
Definition bare_domain_config : AuditConfig :=
  {| domain := "example.com"; max_pages := 10; rate_limit := Finite 1;
     follow_redirects := true |}.

(** The headings of [<h3>Details</h3><h1>Title</h1>], in document order. *)
Definition h3_then_h1 : list Headings.HeadingElement :=
  [ {| Headings.tag_level := 3; Headings.node_text := "Details" |};
    {| Headings.tag_level := 1; Headings.node_text := "Title" |} ].

Definition heading (lvl : nat) (t : string) (pos : nat) : HeadingItem :=
  {| level := lvl; text := t; position := pos |}.

(** The heading lists [H1, H3] and [H1, H2, H3]. *)
Definition h1_h3 : list HeadingItem :=
  [heading 1 "Title" 0; heading 3 "Details" 1].

Definition h1_h2_h3 : list HeadingItem :=
  [heading 1 "Title" 0; heading 2 "Section" 1; heading 3 "Details" 2].



(** A small crawl: budget 2, no sitemap, robots.txt allows everything,
    and every page links to the same three pages of the site. *)
Definition small_config : AuditConfig :=
  {| domain := "https://example.com"; max_pages := 2; rate_limit := Finite 1;
     follow_redirects := true |}.

Definition three_links (i : nat) (u : string) : list string :=
  ["https://example.com/a"; "https://example.com/b"; "https://example.com/c"].

(** Four pages of one site, and the analyzer after the homepage was added
    with its link to page 1 and page 1 with its link to page 2. *)
Definition home : string := "https://example.com/".
Definition page1 : string := "https://example.com/p1".
Definition page2 : string := "https://example.com/p2".
Definition page3 : string := "https://example.com/p3".

Definition two_edges : LinkGraph.Analyzer :=
  LinkGraph.with_two_edges (lib := PyUrl.model) home page1 page2.

Definition sitemap : gset string := {[home; page1; page2; page3]}.

(** [urllib.parse] raising nowhere. *)
Definition urljoin_returns (base u : string) : option string := None.
Definition urlparse_returns (u : string) : option string := None.

(** A ring of ten URLs: each answers with a redirect to the next, the
    last one to the first. *)
Definition ring_urls : list string :=
  ["https://example.com/r0"; "https://example.com/r1"; "https://example.com/r2";
   "https://example.com/r3"; "https://example.com/r4"; "https://example.com/r5";
   "https://example.com/r6"; "https://example.com/r7"; "https://example.com/r8";
   "https://example.com/r9"].

Fixpoint next_in (first : string) (urls : list string) (u : string) : option string :=
  match urls with
  | [] => None
  | v :: rest =>
      if bool_decide (v = u) then Some (List.hd first rest) else next_in first rest u
  end.

Definition ring (n : nat) (u : string) : Redirects.Response + string :=
  match next_in "https://example.com/r0" ring_urls u with
  | Some v => inl {| Redirects.status_code := 301; Redirects.location := Some v |}
  | None => inl {| Redirects.status_code := 200; Redirects.location := None |}
  end.

(** A server that answers the plain-HTTP URL with a redirect to the HTTPS
    one, which it serves. *)
Definition http_url : string := "http://a.example.com/".
Definition https_url : string := "https://a.example.com/".

Definition upgrade (n : nat) (u : string) : Redirects.Response + string :=
  if bool_decide (u = http_url)
  then inl {| Redirects.status_code := 301; Redirects.location := Some https_url |}
  else inl {| Redirects.status_code := 200; Redirects.location := None |}.

End Examples.

(** ** seo_audit/utils.py: [is_same_domain] with its [except] *)

Module SameDomain.
Section WithLib.
Context `{lib : UrlLib}.

(** Whether [urllib.parse.urlparse(url)] raises, as it does on a URL such
    as [http://[::1]. *)
Variable urlparse_raises : string -> bool.

(** [is_same_domain] with the bare [except] around its body: when
    [urlparse] raises on one of the two URLs the function returns [False];
    otherwise it compares the network locations, as [Utils.is_same_domain]
    does. *)
Definition is_same_domain (url1 url2 : string) : bool :=
  if urlparse_raises url1 then false
  else if urlparse_raises url2 then false
  else Utils.is_same_domain url1 url2.

End WithLib.
End SameDomain.

(** ** Counting, for the statements about the summary *)

Module Counting.
Import Models.

(** The number of occurrences of [x] in [l]. *)
Definition occurrences `{EqDecision A} (x : A) (l : list A) : nat :=
  length (List.filter (fun y => bool_decide (y = x)) l).

(** All the issues of a sequence of results, in order, with repetitions. *)
Definition all_issues (results : list PageResult) : list string :=
  concat (List.map issues results).

(** The status codes that [add_result] counts: those that Python takes
    for true. *)
Definition counted_statuses (results : list PageResult) : list Z :=
  omap (fun r => if truthy (status r) then status r else None) results.

(** What a counter dictionary holds for a key that was bumped [n] times
    from empty: nothing when [n] is 0. *)
Definition counter_entry (n : nat) : option nat :=
  if (n =? 0)%nat then None else Some n.

End Counting.

(** ** seo_audit/utils.py: word counting *)

Module Text.

(** Whether [s] starts with a character that is not whitespace. *)
Definition starts_word (s : string) : bool :=
  match s with
  | EmptyString => false
  | String c _ => negb (PyStr.is_space c)
  end.

(** The words of [String c s] for a [c] that is not whitespace, from the
    words of [s]: [c] joins the first word when [s] goes on with it, and
    is a word of its own otherwise. *)
Definition attach (c : ascii) (s : string) (ws : list string) : list string :=
  if starts_word s then
    match ws with
    | w :: ws' => String c w :: ws'
    | [] => [String c EmptyString]
    end
  else String c EmptyString :: ws.

(** [s.split()]: the maximal runs of characters that are not whitespace. *)
Fixpoint split (s : string) : list string :=
  match s with
  | EmptyString => []
  | String c s' => if PyStr.is_space c then split s' else attach c s' (split s')
  end.

(** [count_words] *)
Definition count_words (text : string) : nat :=
  if PyStr.is_empty text then 0%nat
  else
    let words := split text in
    let meaningful_words := List.filter (fun w => (2 <=? String.length w)%nat) words in
    length meaningful_words.

(** No whitespace other than single blanks between characters:
    [after_space] tells that the previous character was a blank. *)
Fixpoint single_spaced (after_space : bool) (s : string) : bool :=
  match s with
  | EmptyString => true
  | String c s' =>
      if PyStr.is_space c
      then Ascii.eqb c " " && negb after_space && single_spaced true s'
      else single_spaced false s'
  end.

End Text.

(** ** Notions for the statements about the crawl *)

Module CrawlSpec.
Import Models Crawler.

(** Every queued URL passed the two tests of [_add_url_to_queue]. *)
Definition queue_admissible `{lib : UrlLib} (robots_allows : string -> bool) (st : State)
  : Prop :=
  forall u, u ∈ url_queue st -> Utils.is_valid_url u = true /\ robots_allows u = true.

(** The discovered set is within the page budget. *)
Definition within_budget (config : AuditConfig) (st : State) : Prop :=
  (Z.of_nat (size (discovered_urls st)) <= max_pages config)%Z.

End CrawlSpec.

(** ** Notions for the statements about redirect chains *)

Module RedirectSpec.
Import Redirects.

(** The long-chain message, whatever the number in it. *)
Definition is_long_message (issue : string) : bool :=
  PyStr.startswith "Chaîne de redirection longue" issue.

(** The issues with which the loop of [analyze_redirects] can stop. *)
Definition stop_reasons : list string := [msg_no_location; msg_loop; msg_broken].

End RedirectSpec.

(** ** seo_audit/advanced_analyzers.py: authority metrics *)

Module LinkMetrics.
Import LinkGraph.

(** The dictionary that [get_page_authority_metrics] builds for one URL. *)
Record Metrics := {
  inbound_links : nat;
  outbound_links : nat;
  authority_score : nat
}.

(** [InternalLinkAnalyzer._calculate_authority_score]: the score and the
    analyzer afterwards (the read of the [defaultdict] may insert the
    key). *)
Definition calculate_authority_score (self : Analyzer) (url : string) : nat * Analyzer :=
  let '(sources, reverse) := dd_get (reverse_link_graph self) url in
  (size sources,
   {| link_graph := link_graph self;
      reverse_link_graph := reverse;
      all_urls := all_urls self |}).

(** The body of the loop of [get_page_authority_metrics]; the entries of
    the dictionary literal are evaluated in order. *)
Definition metrics_for (st : gmap string Metrics * Analyzer) (url : string)
  : gmap string Metrics * Analyzer :=
  let '(metrics, self) := st in
  let '(sources, reverse) := dd_get (reverse_link_graph self) url in
  let '(targets, graph) := dd_get (link_graph self) url in
  let self := {| link_graph := graph;
                 reverse_link_graph := reverse;
                 all_urls := all_urls self |} in
  let '(score, self) := calculate_authority_score self url in
  (<[url := {| inbound_links := size sources;
               outbound_links := size targets;
               authority_score := score |}]> metrics, self).

(** [InternalLinkAnalyzer.get_page_authority_metrics]: the metrics and the
    analyzer afterwards. *)
Definition get_page_authority_metrics (self : Analyzer) : gmap string Metrics * Analyzer :=
  fold_left metrics_for (elements (all_urls self)) (∅, self).

(** [sum(m[field] for m in authority_metrics.values())], as in
    [get_link_analysis_report]. *)
Definition total (field : Metrics -> nat) (metrics : gmap string Metrics) : nat :=
  map_fold (fun _ m acc => (field m + acc)%nat) 0%nat metrics.

End LinkMetrics.

(** ** Notions for the statements about the link graph *)

Module GraphSpec.
Import LinkGraph.

(** The set that a [defaultdict(set)] gives for a key, without the
    insertion. *)
Definition adj (d : gmap string (gset string)) (k : string) : gset string :=
  default ∅ (d !! k).

(** A walk of [n] edges from [start] along the graph. *)
Inductive path (g : gmap string (gset string)) (start : string) : string -> nat -> Prop :=
| path_start : path g start start 0
| path_step u v n : path g start u n -> v ∈ adj g u -> path g start v (S n).

(** [d] is the least number of edges of a walk from [start] to [u]. *)
Definition shortest (g : gmap string (gset string)) (start u : string) (d : nat) : Prop :=
  path g start u d /\ forall n, path g start u n -> (d <= n)%nat.

(** The URLs that some key of the graph links to. *)
Definition targets (g : gmap string (gset string)) : gset string :=
  ⋃ (map_to_list g).*2.

(** [x] was given a depth no greater than that of [y]. *)
Definition no_deeper (depths : gmap string nat) (x y : string) : Prop :=
  forall dx dy, depths !! x = Some dx -> depths !! y = Some dy -> (dx <= dy)%nat.

(** What the loop of [find_link_depth] keeps true of its dictionary and
    its queue: the start has depth 0; a URL with depth [d] is reached by
    a walk of [d] edges; the queued URLs have a depth, in ascending order;
    the URLs linked from a URL that has left the queue have a depth, at
    most one more than its own; and no depth exceeds that of a queued URL
    by more than one. *)
Record bfs_invariant (g : gmap string (gset string)) (start : string)
    (depths : gmap string nat) (queue : list string) : Prop := {
  inv_start : depths !! start = Some 0%nat;
  inv_sound : forall u d, depths !! u = Some d -> path g start u d;
  inv_queue : forall q, q ∈ queue -> is_Some (depths !! q);
  inv_closed : forall u d w, depths !! u = Some d -> u ∉ queue -> w ∈ adj g u ->
    exists d', depths !! w = Some d' /\ (d' <= S d)%nat;
  inv_sorted : StronglySorted (no_deeper depths) queue;
  inv_bound : forall u d q dq,
    depths !! u = Some d -> q ∈ queue -> depths !! q = Some dq -> (d <= S dq)%nat
}.

(** The metrics of [url] read off the two graphs. *)
Definition metrics_of (self : Analyzer) (url : string) : LinkMetrics.Metrics :=
  {| LinkMetrics.inbound_links := size (adj (reverse_link_graph self) url);
     LinkMetrics.outbound_links := size (adj (link_graph self) url);
     LinkMetrics.authority_score := size (adj (reverse_link_graph self) url) |}.

(** Two analyzers with the same edges in both graphs and the same URLs:
    they differ at most in keys that hold the empty set. *)
Definition same_edges (self self' : Analyzer) : Prop :=
  (forall k, adj (link_graph self') k = adj (link_graph self) k)
  /\ (forall k, adj (reverse_link_graph self') k = adj (reverse_link_graph self) k)
  /\ all_urls self' = all_urls self.

(** The analyzer after [add_page_links(page_url, links)] for each pair of
    [pages] in turn, from a fresh one. *)
Definition build `{lib : UrlLib} (pages : list (string * list string)) : Analyzer :=
  fold_left (fun self p => add_page_links self p.1 p.2) pages new.

(** [link], found on [page_url], counts as an edge to [target]: the test
    of the loop of [add_page_links]. *)
Definition links_to `{lib : UrlLib} (page_url link target : string) : Prop :=
  target = Utils.normalize_url link /\ target <> ""
  /\ Utils.is_same_domain target page_url = true.

(** Some call [add_page_links(u, links)] of [pages] had a link that counts
    as an edge from [u] to [v]. *)
Definition edge_in `{lib : UrlLib} (pages : list (string * list string)) (u v : string)
  : Prop :=
  exists links link, (u, links) ∈ pages /\ link ∈ links /\ links_to u link v.

End GraphSpec.

(** ** seo_audit/audit_engine.py: [SEOAuditEngine.run_audit] *)

Module Audit.
Import Models Crawler.

(** The fields of [SEOAuditEngine] that [run_audit] changes. *)
Record Engine := {
  results : list PageResult;
  summary : AuditSummary;
  crawler : State
}.

Definition set_redirect_chain (r : PageResult) (l : list string) : PageResult :=
  {| url := url r; status := status r; response_ms := response_ms r; issues := issues r;
     headings_structure := headings_structure r;
     headings_hierarchy_issues := headings_hierarchy_issues r;
     redirect_chain := l |}.

Section WithEnvironment.
Context `{lib : UrlLib}.

Variable config : AuditConfig.
Variable robots_allows : string -> bool.
Variable sitemap_urls : list string.
Variable discover_from_page : nat -> string -> list string.

(** [self.page_analyzer.analyze_page(url)] at the [i]-th iteration of the
    loop: it catches the exceptions of its request and of its analysis,
    and always returns a result. *)
Variable analyze_page : nat -> string -> PageResult.

(** [self.redirect_analyzer.analyze_redirects(url)] at the [i]-th
    iteration. *)
Variable analyze_redirects : nat -> string -> list string * list string.

(** The body of the loop of [run_audit] up to the result that it appends. *)
Definition analyze (i : nat) (url : string) : PageResult :=
  let result := analyze_page i url in
  if follow_redirects config then
    let '(redirect_chain, redirect_issues) := analyze_redirects i url in
    let result := set_redirect_chain result redirect_chain in
    set_issues result (issues result ++ redirect_issues)
  else result.

(** The [for url in self.crawler.crawl_urls()] loop of [run_audit]. Each
    round asks the generator for its next URL, which first runs what
    follows the [yield] of the round before ([resume]); at the [break] the
    generator is left where it yielded. Printing and the progress callback
    are left out; [KeyboardInterrupt] is outside the model. [None] means
    that the fuel ran out. *)
Fixpoint audit_loop (fuel i : nat) (self : Engine) : option Engine :=
  match get_next_url config (crawler self) with
  | (None, st) =>
      Some {| results := results self; summary := summary self; crawler := st |}
  | (Some url, st) =>
      if PyStr.is_empty url
      then Some {| results := results self; summary := summary self; crawler := st |}
      else
        let result := analyze i url in
        let results := results self ++ [result] in
        let summary := add_result (summary self) result in
        if (max_pages config <=? Z.of_nat (length results))%Z
        then Some {| results := results; summary := summary; crawler := st |}
        else
          match fuel with
          | O => None
          | S fuel' =>
              audit_loop fuel' (S i)
                {| results := results; summary := summary;
                   crawler := resume config robots_allows discover_from_page i st url |}
          end
  end.

(** [SEOAuditEngine.run_audit] on a new engine: the engine afterwards,
    whose [results] are returned. The advanced analyses at the end only
    print. *)
Definition run_audit (fuel : nat) : option Engine :=
  audit_loop fuel 0
    {| results := []; summary := new_AuditSummary;
       crawler := initialize_urls config robots_allows sitemap_urls init |}.

End WithEnvironment.

(** What holds of the engine each time the loop of [run_audit] asks for
    the next URL: the frontier is in order, as many URLs are marked
    crawled as there are results, the budget is not used up, the summary
    is that of the results and, when [analyze_page] returns results for
    the URL it was given, the results are those of the crawled URLs, one
    for each. *)
Definition audit_invariant (config : AuditConfig) (analyze_page : nat -> string -> PageResult)
    (self : Engine) : Prop :=
  frontier_ok (crawler self)
  /\ size (crawled_urls (crawler self)) = length (results self)
  /\ (results self = [] \/ (Z.of_nat (length (results self)) < max_pages config)%Z)
  /\ summary self = add_results new_AuditSummary (results self)
  /\ ((forall i u, url (analyze_page i u) = u) ->
      (forall r, r ∈ results self -> url r ∈ crawled_urls (crawler self))
      /\ NoDup (List.map url (results self))).

(** What holds of the engine when the loop of [run_audit] has ended: the
    results are within the budget and the summary is that of the results;
    when [analyze_page] returns results for the URL it was given, the
    URLs of the results are distinct, and the crawler has marked all of
    them as crawled, or all but the last when the budget ended the loop. *)
Definition audit_outcome (config : AuditConfig) (analyze_page : nat -> string -> PageResult)
    (self : Engine) : Prop :=
  (Z.of_nat (length (results self)) <= Z.max 0 (max_pages config))%Z
  /\ summary self = add_results new_AuditSummary (results self)
  /\ ((forall i u, url (analyze_page i u) = u) ->
      NoDup (List.map url (results self))
      /\ (results self = [] \/ (Z.of_nat (length (results self)) < max_pages config)%Z ->
          size (crawled_urls (crawler self)) = length (results self))
      /\ (results self <> [] ->
          Z.of_nat (length (results self)) = max_pages config ->
          length (results self) = S (size (crawled_urls (crawler self))))).

End Audit.

(** ** seo_audit/advanced_analyzers.py: [IndexabilityAnalyzer] *)

Module Indexability.
Import Models.

(** A [PageResult] with the further fields that the indexability check
    reads. *)
Record Page := {
  result : PageResult;
  noindex : bool;
  canonical : option string;
  canonical_ok : bool
}.

(** [str(n)] for an [int]. *)
Definition str_int (n : Z) : string :=
  if (n <? 0)%Z then "-" +:+ PyStr.of_nat (Z.to_nat (- n)) else PyStr.of_nat (Z.to_nat n).

(** [f'http_status_{status}'] for an [Optional[int]]. *)
Definition http_status_issue (status : option Z) : string :=
  "http_status_" +:+ match status with
                     | Some code => str_int code
                     | None => "None"
                     end.

(** [not result.canonical]: [None] and the empty string are false. *)
Definition no_canonical (p : Page) : bool :=
  match canonical p with
  | None => true
  | Some c => PyStr.is_empty c
  end.

(** [IndexabilityAnalyzer._check_indexability_signals]; a [PageResult]
    always has the attribute [redirect_chain]. *)
Definition check_indexability_signals (p : Page) : list string :=
  let issues := [] in
  let issues := if noindex p then issues ++ ["meta_robots_noindex"] else issues in
  let issues :=
    if negb (bool_decide (status (result p) = Some 200%Z))
    then issues ++ [http_status_issue (status (result p))] else issues in
  let issues :=
    if no_canonical p then issues ++ ["missing_canonical"]
    else if negb (canonical_ok p) then issues ++ ["canonical_not_accessible"]
    else issues in
  let issues :=
    if (1 <? length (redirect_chain (result p)))%nat
    then issues ++ ["redirect_chain"] else issues in
  issues.

(** The dictionary that [analyze_indexability] returns. *)
Record Report := {
  total_pages : nat;
  indexable_pages : nat;
  non_indexable_pages : nat;
  conflicting_signals : list (string * list string);
  indexability_issues : gmap string nat
}.

(** The body of the loop of [analyze_indexability]. On the
    [defaultdict(int)], [d[issue] += 1] leaves what
    [d[issue] = d.get(issue, 0) + 1] leaves. *)
Definition analyze_result (report : Report) (p : Page) : Report :=
  let issues := check_indexability_signals p in
  if negb (bool_decide (issues = [])) then
    {| total_pages := total_pages report;
       indexable_pages := indexable_pages report;
       non_indexable_pages := (non_indexable_pages report + 1)%nat;
       conflicting_signals :=
         if (1 <? length issues)%nat
         then conflicting_signals report ++ [(url (result p), issues)]
         else conflicting_signals report;
       indexability_issues := fold_left bump issues (indexability_issues report) |}
  else
    {| total_pages := total_pages report;
       indexable_pages := (indexable_pages report + 1)%nat;
       non_indexable_pages := non_indexable_pages report;
       conflicting_signals := conflicting_signals report;
       indexability_issues := indexability_issues report |}.

(** [IndexabilityAnalyzer.analyze_indexability] *)
Definition analyze_indexability (results : list Page) : Report :=
  fold_left analyze_result results
    {| total_pages := length results;
       indexable_pages := 0;
       non_indexable_pages := 0;
       conflicting_signals := [];
       indexability_issues := ∅ |}.

(** A page that shows no signal against indexing: no [noindex], status
    200, a canonical URL that answered 200, and no redirect. *)
Definition is_indexable (p : Page) : bool :=
  negb (noindex p)
  && bool_decide (status (result p) = Some 200%Z)
  && negb (no_canonical p)
  && canonical_ok p
  && (length (redirect_chain (result p)) <=? 1)%nat.

(** The pages for which [issue] is among the signals. *)
Definition pages_with (issue : string) (results : list Page) : list Page :=
  List.filter (fun p => bool_decide (issue ∈ check_indexability_signals p)) results.

End Indexability.

(** ** seo_audit/advanced_analyzers.py: [HreflangAnalyzer] *)

Module Hreflang.

(** A Python [dict] with string keys, as the list of its items in
    insertion order. A [dict] holds each key once: [dict_ok]. *)
Definition Dict (V : Type) : Type := list (string * V).

Definition keys {V : Type} (d : Dict V) : list string := List.map fst d.

Definition dict_ok {V : Type} (d : Dict V) : Prop := NoDup (keys d).

(** [d.get(k)] *)
Fixpoint dict_get {V : Type} (d : Dict V) (k : string) : option V :=
  match d with
  | [] => None
  | (k', v) :: d' => if bool_decide (k' = k) then Some v else dict_get d' k
  end.

(** [d[k] = v]: a key that is there keeps its place. *)
Fixpoint dict_set {V : Type} (d : Dict V) (k : string) (v : V) : Dict V :=
  match d with
  | [] => [(k, v)]
  | (k', v') :: d' =>
      if bool_decide (k' = k) then (k, v) :: d' else (k', v') :: dict_set d' k v
  end.

(** The dictionary that [analyze_hreflang_consistency] returns; the
    entries of its lists are the values of the dictionaries appended.
    Nothing is ever appended to [invalid_language_codes]. *)
Record Analysis := {
  total_pages_with_hreflang : nat;
  reciprocal_issues : list (string * string * string);  (* url, target_url, issue *)
  missing_x_default : list string;
  duplicate_languages : list (string * string);         (* url, language *)
  invalid_language_codes : list string
}.

(** [HreflangAnalyzer.add_hreflang_data] *)
Definition add_hreflang_data (hreflang_data : Dict (Dict string)) (url : string)
    (hreflang_links : Dict string) : Dict (Dict string) :=
  dict_set hreflang_data url hreflang_links.

Definition common_lang_patterns : Dict string :=
  [("/en/", "en"); ("/fr/", "fr"); ("/de/", "de"); ("/es/", "es"); ("/it/", "it")].

Section WithPath.

(** [urllib.parse.urlparse(url).path] *)
Variable urlparse_path : string -> string.

(** The loop of [_detect_url_language] over the patterns that are left. *)
Fixpoint detect_in (path : string) (patterns : Dict string) : option string :=
  match patterns with
  | [] => None
  | (pattern, lang) :: rest =>
      if PyStr.contains pattern path then Some lang else detect_in path rest
  end.

(** [HreflangAnalyzer._detect_url_language] *)
Definition detect_url_language (url : string) : option string :=
  let path := PyStr.lower (urlparse_path url) in
  detect_in path common_lang_patterns.

(** The body of the loop over [hreflang_links.items()]: the reciprocal
    issues afterwards. The languages detected are non-empty strings, so
    [original_lang and ...] tests for [None] only. *)
Definition check_reciprocal (hreflang_data : Dict (Dict string)) (url : string)
    (issues : list (string * string * string)) (item : string * string)
  : list (string * string * string) :=
  let '(lang_code, target_url) := item in
  match dict_get hreflang_data target_url with
  | Some target_hreflang =>
      match detect_url_language url with
      | Some original_lang =>
          match dict_get target_hreflang original_lang with
          | Some back =>
              if negb (bool_decide (back = url))
              then issues ++ [(url, target_url, "non_reciprocal_hreflang")]
              else issues
          | None => issues
          end
      | None => issues
      end
  | None => issues
  end.

(** The body of the loop over [hreflang_links.keys()]; the state is
    [(seen_languages, duplicate_languages)]. *)
Definition check_duplicate (url : string) (st : gset string * list (string * string))
    (lang_code : string) : gset string * list (string * string) :=
  let '(seen_languages, duplicates) := st in
  let duplicates :=
    if bool_decide (lang_code ∈ seen_languages)
    then duplicates ++ [(url, lang_code)] else duplicates in
  ({[lang_code]} ∪ seen_languages, duplicates).

(** The body of the loop over [self.hreflang_data.items()]. *)
Definition analyze_item (hreflang_data : Dict (Dict string)) (analysis : Analysis)
    (item : string * Dict string) : Analysis :=
  let '(url, hreflang_links) := item in
  let reciprocal :=
    fold_left (check_reciprocal hreflang_data url) hreflang_links
      (reciprocal_issues analysis) in
  let missing :=
    match dict_get hreflang_links "x-default" with
    | None => missing_x_default analysis ++ [url]
    | Some _ => missing_x_default analysis
    end in
  let '(_, duplicates) :=
    fold_left (check_duplicate url) (keys hreflang_links)
      (∅, duplicate_languages analysis) in
  {| total_pages_with_hreflang := total_pages_with_hreflang analysis;
     reciprocal_issues := reciprocal;
     missing_x_default := missing;
     duplicate_languages := duplicates;
     invalid_language_codes := invalid_language_codes analysis |}.

(** [HreflangAnalyzer.analyze_hreflang_consistency] *)
Definition analyze_hreflang_consistency (hreflang_data : Dict (Dict string)) : Analysis :=
  fold_left (analyze_item hreflang_data) hreflang_data
    {| total_pages_with_hreflang := length hreflang_data;
       reciprocal_issues := [];
       missing_x_default := [];
       duplicate_languages := [];
       invalid_language_codes := [] |}.

End WithPath.

(** The analyzer's dictionary after [add_hreflang_data(url, links)] for
    each pair of [calls] in turn, from an empty one. *)
Definition collect (calls : list (string * Dict string)) : Dict (Dict string) :=
  fold_left (fun data call => add_hreflang_data data call.1 call.2) calls [].

(** The URLs whose links have no [x-default] entry, in the order of the
    dictionary. *)
Definition without_x_default (hreflang_data : Dict (Dict string)) : list string :=
  keys (List.filter (fun item => negb (bool_decide (is_Some (dict_get item.2 "x-default"))))
          hreflang_data).

End Hreflang.

(** ** The links of a page: seo_audit/crawler.py [URLDiscovery] and
    seo_audit/analyzers.py [PageAnalyzer._analyze_links]

    The HTML parser is not part of the repository. A page is given by what
    the program reads off the parsed tree: for each node of
    [tree.css('a[href]')], in document order, the value of
    [link.attributes.get('href', '')], which is [None] for an attribute
    written without a value. *)

Module Links.
Import Models.

Section WithLib.
Context `{lib : UrlLib}.

(** [href and not href.startswith(('javascript:', 'mailto:', 'tel:', '#'))] *)
Definition followable (href : string) : bool :=
  negb (PyStr.is_empty href)
  && negb (PyStr.startswith "javascript:" href
           || PyStr.startswith "mailto:" href
           || PyStr.startswith "tel:" href
           || PyStr.startswith "#" href).

(** [utils.is_internal_link] *)
Definition is_internal_link (href base_url : string) : bool :=
  let absolute_url := urljoin base_url href in
  Utils.is_same_domain absolute_url base_url.

(** The loop of [_extract_links_from_html]. On an [href] that is [None],
    [.strip()] raises [AttributeError]: the result is [None]. The
    functions of [urllib.parse] are those of [UrlLib], which return for
    every URL; where [urljoin] or [normalize_url] raise, the program
    raises here as well, and what is said of the list returned does not
    apply. *)
Fixpoint extract_loop (config : AuditConfig) (base_url : string)
    (hrefs : list (option string)) (urls : list string) : option (list string) :=
  match hrefs with
  | [] => Some urls
  | None :: _ => None
  | Some href :: rest =>
      let href := PyStr.strip href in
      if followable href then
        let absolute_url := urljoin base_url href in
        if Utils.is_same_domain absolute_url (domain config)
        then extract_loop config base_url rest (urls ++ [Utils.normalize_url absolute_url])
        else extract_loop config base_url rest urls
      else extract_loop config base_url rest urls
  end.

(** [URLDiscovery._extract_links_from_html] *)
Definition extract_links_from_html (config : AuditConfig) (hrefs : list (option string))
    (base_url : string) : option (list string) :=
  match extract_loop config base_url hrefs [] with
  | Some urls => Some (Utils.deduplicate_urls urls)
  | None => None
  end.

(** What [discover_from_page] reads off the response to its request. *)
Record Fetched := {
  status_code : Z;
  content_type : string;          (* [response.headers.get('Content-Type', '')] *)
  hrefs : list (option string)    (* of the links of [response.text] *)
}.

(** [URLDiscovery.discover_from_page]; [response] is [None] when the
    request raised. Every exception leaves the empty list. *)
Definition discover_from_page (config : AuditConfig) (response : option Fetched)
    (url : string) : list string :=
  match response with
  | None => []
  | Some r =>
      if (status_code r =? 200)%Z && PyStr.contains "text/html" (content_type r)
      then match extract_links_from_html config (hrefs r) url with
           | Some urls => urls
           | None => []
           end
      else []
  end.

(** [PageAnalyzer._analyze_links] on the two counters of the result: the
    counters afterwards, and whether [.strip()] raised. *)
Fixpoint analyze_links (hrefs : list (option string)) (url : string)
    (links_internal links_external : nat) : nat * nat * bool :=
  match hrefs with
  | [] => (links_internal, links_external, false)
  | None :: _ => (links_internal, links_external, true)
  | Some href :: rest =>
      let href := PyStr.strip href in
      if negb (followable href) then analyze_links rest url links_internal links_external
      else if is_internal_link href url
           then analyze_links rest url (links_internal + 1) links_external
           else analyze_links rest url links_internal (links_external + 1)
  end.

(** The values of the [href]s that come before the first [None]. *)
Fixpoint before_none (hrefs : list (option string)) : list string :=
  match hrefs with
  | Some href :: rest => href :: before_none rest
  | _ => []
  end.

(** The links that both loops go on with: the stripped values that are
    not empty and not a script, mail, phone or fragment link. *)
Definition followed (values : list string) : list string :=
  List.filter followable (List.map PyStr.strip values).

End WithLib.
End Links.

(** ** seo_audit/crawler.py: [SEOCrawler.get_stats] *)

Module CrawlStats.
Import Models Crawler.

(** The counts of the dictionary that [get_stats] returns. *)
Record Stats := {
  discovered : nat;   (* ['discovered_urls'] *)
  crawled : nat;      (* ['crawled_urls'] *)
  remaining : nat     (* ['remaining_urls'] *)
}.

(** [SEOCrawler.get_stats], without the constant ['crawl_delay']. *)
Definition get_stats (st : State) : Stats :=
  {| discovered := size (discovered_urls st);
     crawled := size (crawled_urls st);
     remaining := length (url_queue st) |}.

End CrawlStats.

(** * Properties *)

(** ** [AuditSummary.add_result] *)

Module ModelsFacts.
Import Models Examples.

Lemma add_result_total_pages self r :
  total_pages (add_result self r) = (total_pages self + 1)%nat.
Proof. reflexivity. Qed.

Lemma add_results_cons self r rs :
  add_results self (r :: rs) = add_results (add_result self r) rs.
Proof. reflexivity. Qed.

Lemma add_results_total_pages rs : forall self,
  total_pages (add_results self rs) = (total_pages self + length rs)%nat.
Proof.
  induction rs as [|r rs IH]; intros self.
  - simpl. lia.
  - rewrite add_results_cons, IH, add_result_total_pages. simpl. lia.
Qed.

(** [pages_with_issues] counts exactly the records with a non-empty issue
    list. *)
Lemma add_results_pages_with_issues rs : forall self,
  pages_with_issues (add_results self rs)
  = (pages_with_issues self + count_with_issues rs)%nat.
Proof.
  induction rs as [|r rs IH]; intros self.
  - unfold count_with_issues; simpl; lia.
  - rewrite add_results_cons, IH. unfold count_with_issues. simpl.
    destruct (negb (bool_decide (issues r = []))); simpl; lia.
Qed.

Lemma truthy_Some ms : truthy (Some ms) = true <-> ms <> 0%Z.
Proof. simpl. rewrite negb_true_iff, Z.eqb_neq. reflexivity. Qed.

Lemma add_result_avg_truthy self r ms :
  response_ms r = Some ms -> ms <> 0%Z ->
  avg_response_time (add_result self r)
  = ((avg_response_time self * inject_Z (Z.of_nat (total_pages self)) + inject_Z ms)
     / inject_Z (Z.of_nat (total_pages self + 1)))%Q.
Proof.
  intros Hms Hnz. unfold add_result. simpl. rewrite Hms.
  apply Z.eqb_neq in Hnz. rewrite Hnz. simpl.
  replace (total_pages self + 1 - 1)%nat with (total_pages self) by lia.
  reflexivity.
Qed.

Lemma response_times_cons_truthy r rs ms :
  response_ms r = Some ms -> ms <> 0%Z ->
  response_times (r :: rs) = ms :: response_times rs.
Proof.
  intros Hms Hnz. unfold response_times. simpl. rewrite Hms. simpl.
  apply Z.eqb_neq in Hnz. rewrite Hnz. reflexivity.
Qed.

(** When every record carries a latency that Python takes for true (not
    [None], not 0), the running mean is the arithmetic mean: the product
    of the mean and the number of pages is the sum of the latencies. *)
Lemma add_results_mean_invariant rs : forall self,
  Forall (fun r => truthy (response_ms r) = true) rs ->
  (avg_response_time (add_results self rs)
   * inject_Z (Z.of_nat (total_pages self + length rs))
   == avg_response_time self * inject_Z (Z.of_nat (total_pages self))
      + inject_Z (fold_right Z.add 0%Z (response_times rs)))%Q.
Proof.
  induction rs as [|r rs IH]; intros self Hall.
  - simpl. rewrite Nat.add_0_r. ring.
  - inversion Hall as [|? ? Hr Hrs]; subst.
    destruct (response_ms r) as [ms|] eqn:Hms; [|discriminate].
    apply truthy_Some in Hr.
    rewrite add_results_cons.
    replace (total_pages self + length (r :: rs))%nat
      with (total_pages (add_result self r) + length rs)%nat
      by (rewrite add_result_total_pages; simpl; lia).
    rewrite (IH _ Hrs).
    rewrite (response_times_cons_truthy r rs ms Hms Hr).
    rewrite (add_result_avg_truthy self r ms Hms Hr), add_result_total_pages.
    cbn [fold_right]. rewrite inject_Z_plus.
    assert (Hnz : ~ (inject_Z (Z.of_nat (total_pages self + 1)) == 0)%Q).
    { intros Heq. unfold Qeq in Heq. simpl in Heq. lia. }
    field. exact Hnz.
Qed.

Lemma add_results_mean rs :
  rs <> [] ->
  Forall (fun r => truthy (response_ms r) = true) rs ->
  (avg_response_time (add_results new_AuditSummary rs) == mean (response_times rs))%Q.
Proof.
  intros Hne Hall.
  pose proof (add_results_mean_invariant rs new_AuditSummary Hall) as Hinv.
  simpl in Hinv.
  assert (Hlen : length (response_times rs) = length rs).
  { clear Hne Hinv. induction Hall as [|r rs Hr _ IH]; [reflexivity|].
    unfold response_times; simpl. rewrite Hr.
    destruct (response_ms r); [|discriminate]. simpl. f_equal. exact IH. }
  unfold mean. rewrite Hlen.
  assert (Hnz : ~ (inject_Z (Z.of_nat (length rs)) == 0)%Q).
  { intros Heq. unfold Qeq in Heq. simpl in Heq.
    destruct rs; [congruence|simpl in Heq; lia]. }
  apply (Qmult_inj_r _ _ _ Hnz).
  rewrite Hinv. field. exact Hnz.
Qed.

(** The running means of the three records of the unit test: 500, 400 and
    1000/3, which is within 0.01 of 333.33. *)
Lemma add_result_running_means :
  (avg_response_time (add_results new_AuditSummary [result1]) == 500)%Q /\
  (avg_response_time (add_results new_AuditSummary [result1; result2]) == 400)%Q /\
  (Qabs (avg_response_time (add_results new_AuditSummary [result1; result2; result3])
         - (33333 # 100)) <= 1 # 100)%Q /\
  pages_with_issues (add_results new_AuditSummary [result1; result2; result3]) = 2%nat.
Proof. vm_compute. repeat split; intros; discriminate. Qed.

(** No key of [status_codes] is 0, whatever was added. *)
Lemma add_result_status_zero self r :
  status_codes self !! 0%Z = None -> status_codes (add_result self r) !! 0%Z = None.
Proof.
  intros Hself. unfold add_result; simpl.
  destruct (status r) as [code|]; [|exact Hself].
  destruct (code =? 0)%Z eqn:Hcode; simpl; [exact Hself|].
  apply Z.eqb_neq in Hcode. unfold bump.
  rewrite lookup_insert_ne; [exact Hself | exact Hcode].
Qed.

Lemma add_results_status_zero rs : forall self,
  status_codes self !! 0%Z = None -> status_codes (add_results self rs) !! 0%Z = None.
Proof.
  induction rs as [|r rs IH]; intros self Hself; [exact Hself|].
  rewrite add_results_cons. apply IH, add_result_status_zero, Hself.
Qed.

(** C1 (the code departs from the claim): the running mean divides by the
    number of all pages added so far, also those without a latency. After
    a page that timed out (latency [None]) and a page answered in 500 ms,
    [avg_response_time] is 250, while the arithmetic mean of the non-null
    latencies, which [get_performance_insights] computes for the same
    results, is 500. *)
Theorem add_result_mean_after_missing_latency :
  (avg_response_time (add_results new_AuditSummary [timed_out_page; result1]) == 250)%Q /\
  non_null_latencies [timed_out_page; result1] = [500%Z] /\
  (mean (non_null_latencies [timed_out_page; result1]) == 500)%Q /\
  (Engine.insights_avg_response_time [timed_out_page; result1] == 500)%Q.
Proof. vm_compute. repeat split. Qed.

(** C10: a latency of exactly 0 leaves [avg_response_time] unchanged while
    [total_pages] still grows by one, and the summary is the one that the
    same record without a latency gives; a status of 0 leaves
    [status_codes] unchanged, and no sequence of additions ever creates
    the key 0 in [status_codes]. *)
Theorem add_result_zero_is_absent (self : AuditSummary) (r : PageResult) :
  (response_ms r = Some 0%Z ->
     avg_response_time (add_result self r) = avg_response_time self /\
     total_pages (add_result self r) = (total_pages self + 1)%nat /\
     forall r', response_ms r' = None -> issues r' = issues r -> status r' = status r ->
                add_result self r = add_result self r') /\
  (status r = Some 0%Z -> status_codes (add_result self r) = status_codes self) /\
  (forall rs, status_codes (add_results new_AuditSummary rs) !! 0%Z = None).
Proof.
  split; [|split].
  - intros Hms. unfold add_result. rewrite Hms. simpl. repeat split.
    intros r' Hms' Hissues Hstatus. rewrite Hms', Hissues, Hstatus. reflexivity.
  - intros Hst. unfold add_result. rewrite Hst. reflexivity.
  - intros rs. apply add_results_status_zero. reflexivity.
Qed.

(** The theorem at a record with latency 0 and status 0. *)
Lemma add_result_zero_is_absent_witness :
  avg_response_time (add_result (add_result new_AuditSummary result1) zero_page)
  = avg_response_time (add_result new_AuditSummary result1) /\
  status_codes (add_result (add_result new_AuditSummary result1) zero_page)
  = status_codes (add_result new_AuditSummary result1).
Proof.
  destruct (add_result_zero_is_absent (add_result new_AuditSummary result1) zero_page)
    as [Hlat [Hstat _]].
  split.
  - apply Hlat. reflexivity.
  - apply Hstat. reflexivity.
Defined.

End ModelsFacts.

(** ** Python string primitives *)

Module PyStrFacts.
Import PyStr.

Lemma is_empty_true s : is_empty s = true <-> s = "".
Proof. destruct s; simpl; split; congruence. Qed.

Lemma is_empty_false s : is_empty s = false <-> s <> "".
Proof. destruct s; simpl; split; congruence. Qed.

(** [startswith] decides that [p] is a prefix of [s]. *)
Lemma startswith_spec p : forall s,
  startswith p s = true <-> exists rest, s = p +:+ rest.
Proof.
  induction p as [|a p IH]; intros s; simpl.
  - split; [intros _; exists s; reflexivity | reflexivity].
  - destruct s as [|b s].
    + split; [discriminate | intros [rest Hrest]; discriminate].
    + destruct (Ascii.eqb_spec a b) as [->|Hab].
      * rewrite IH. split; intros [rest Hrest]; exists rest.
        -- rewrite Hrest. reflexivity.
        -- change (String b p +:+ rest) with (String b (p +:+ rest)) in Hrest.
           injection Hrest as Hrest. exact Hrest.
      * split; [discriminate|]. intros [rest Hrest].
        change (String a p +:+ rest) with (String a (p +:+ rest)) in Hrest.
        injection Hrest as Hb _. congruence.
Qed.

End PyStrFacts.

(** ** seo_audit/utils.py *)

Module UtilsFacts.
Import Utils.

Section WithLib.
Context `{lib : UrlLib}.

Lemma filter_not_in_seen n seen l :
  n ∈ seen ->
  List.filter (not_in seen) (List.filter (differs n) l) = List.filter (not_in seen) l.
Proof.
  intros Hn. induction l as [|y l IH]; simpl; [reflexivity|].
  unfold differs at 1. destruct (bool_decide_reflect (y = n)) as [->|Hy]; simpl.
  - unfold not_in at 2. rewrite bool_decide_eq_true_2 by exact Hn. simpl. exact IH.
  - rewrite IH. reflexivity.
Qed.

Lemma filter_not_in_insert n seen l :
  List.filter (not_in ({[n]} ∪ seen)) l
  = List.filter (not_in seen) (List.filter (differs n) l).
Proof.
  induction l as [|y l IH]; simpl; [reflexivity|].
  unfold differs at 1, not_in at 1.
  destruct (bool_decide_reflect (y = n)) as [->|Hy]; simpl.
  - rewrite bool_decide_eq_true_2
      by (apply elem_of_union_l, elem_of_singleton; reflexivity).
    simpl. exact IH.
  - destruct (bool_decide_reflect (y ∈ seen)) as [Hin|Hnin].
    + rewrite bool_decide_eq_true_2 by (apply elem_of_union_r, Hin). simpl.
      unfold not_in at 2. rewrite bool_decide_eq_true_2 by exact Hin. simpl. exact IH.
    + rewrite bool_decide_eq_false_2
        by (rewrite elem_of_union, elem_of_singleton; tauto).
      simpl.
      unfold not_in at 2. rewrite bool_decide_eq_false_2 by exact Hnin. simpl.
      f_equal. exact IH.
Qed.

Lemma filter_not_in_empty l : List.filter (not_in ∅) l = l.
Proof.
  induction l as [|y l IH]; simpl; [reflexivity|].
  unfold not_in at 1. rewrite bool_decide_eq_false_2 by apply not_elem_of_empty.
  simpl. f_equal. exact IH.
Qed.

(** The loop refines the specification's reading, for any accumulators. *)
Lemma dedup_loop_spec urls : forall seen result,
  dedup_loop urls seen result
  = result ++ List.filter (not_in seen) (keep_first_seen (candidates urls)).
Proof.
  induction urls as [|url rest IH]; intros seen result; simpl.
  - rewrite app_nil_r. reflexivity.
  - unfold candidates. simpl. fold (candidates rest).
    destruct (PyStr.is_empty (normalize_url url)) eqn:Hempty; simpl.
    + apply IH.
    + fold (differs (normalize_url url)). fold (not_in seen (normalize_url url)).
      unfold not_in at 1 2.
      destruct (bool_decide_reflect (normalize_url url ∈ seen)) as [Hin|Hnin]; simpl.
      * rewrite IH, filter_not_in_seen by exact Hin. reflexivity.
      * rewrite IH, filter_not_in_insert, <- app_assoc. reflexivity.
Qed.

(** [deduplicate_urls] normalizes each URL, drops the empty ones and keeps
    the first occurrence of each value, in first-seen order. *)
Lemma deduplicate_urls_spec urls :
  deduplicate_urls urls = keep_first_seen (candidates urls).
Proof.
  unfold deduplicate_urls. rewrite dedup_loop_spec. simpl. apply filter_not_in_empty.
Qed.

Lemma keep_first_seen_elem x l : x ∈ keep_first_seen l <-> x ∈ l.
Proof.
  induction l as [|y l IH]; simpl; [reflexivity|].
  rewrite !elem_of_cons, <- IH, !list_elem_of_In, filter_In. unfold differs.
  destruct (decide (x = y)) as [->|Hxy].
  - split; intros _; left; reflexivity.
  - rewrite bool_decide_eq_false_2 by exact Hxy. simpl. tauto.
Qed.

Lemma keep_first_seen_NoDup l : NoDup (keep_first_seen l).
Proof.
  induction l as [|y l IH]; simpl; [constructor|].
  constructor.
  - rewrite list_elem_of_In, filter_In. unfold differs.
    rewrite bool_decide_eq_true_2 by reflexivity. simpl. intros [_ ?]; discriminate.
  - apply NoDup_ListNoDup, List.NoDup_filter, NoDup_ListNoDup, IH.
Qed.

End WithLib.

(** C6 (the code departs from the claim): on the list of the claim the
    function returns three entries, not two. Normalization removes the
    fragment of the third URL, which then duplicates the first, but it
    leaves the trailing slash of the second, which stays distinct. The unit
    test of the repository expects two entries on the same pattern. *)
Theorem deduplicate_urls_keeps_trailing_slash :
  deduplicate_urls (lib := PyUrl.model)
    ["https://x.com"; "https://x.com/"; "https://x.com#f"; "https://x.com/p"]
  = ["https://x.com"; "https://x.com/"; "https://x.com/p"].
Proof. vm_compute. reflexivity. Qed.

End UtilsFacts.

(** ** seo_audit/audit_engine.py *)

Module EngineFacts.
Import Models Engine Examples.

(** What validation accepts: the domain and the page budget are as the
    specification asks, and the rate limit is not less than 0, which holds
    of the floats that are at least 0 and of NaN. *)
Lemma validate_config_accepts (config : AuditConfig) :
  validate_config config = true
  <-> domain_and_budget_ok config
      /\ (non_negative (rate_limit config) \/ rate_limit config = NaN).
Proof.
  unfold validate_config, domain_and_budget_ok.
  destruct (PyStr.is_empty (domain config)) eqn:Hdom.
  { apply PyStrFacts.is_empty_true in Hdom. split; [discriminate|]. tauto. }
  apply PyStrFacts.is_empty_false in Hdom.
  rewrite <- !PyStrFacts.startswith_spec.
  destruct (PyStr.startswith "http://" (domain config)) eqn:Hhttp;
    destruct (PyStr.startswith "https://" (domain config)) eqn:Hhttps; simpl;
    try (split; [discriminate | intros ((_ & [?|?] & _) & _); discriminate]);
    (destruct (Z.leb_spec (max_pages config) 0) as [Hmax|Hmax];
     [ split; [discriminate | intros ((_ & _ & ?) & _); lia] |]);
    (destruct (rate_limit config) as [q| | |]; cbn [float_ltb non_negative];
     [ destruct (Qlt_le_dec q 0) as [Hrate|Hrate];
       [ split; [discriminate|];
         intros (_ & [Hge|?]); [|discriminate];
         exfalso; exact (Qlt_not_le _ _ Hrate Hge)
       | split; [intros _; tauto | reflexivity] ]
     | split; [intros _; tauto | reflexivity]
     | split; [discriminate | intros (_ & [[]|?]); discriminate]
     | split; [intros _; tauto | reflexivity] ]).
Qed.

(** C9 (the code departs from the claim): validation accepts every
    configuration that the claim calls valid, and besides these exactly
    the configurations whose domain and page budget are valid and whose
    rate limit is NaN. [nan < 0] is false, so the test that is to reject
    a rate limit that is not non-negative lets NaN through, and the entry
    point runs the audit on it. *)
Theorem validate_config_accepts_nan :
  (forall config,
     validate_config config = true
     <-> well_formed config
         \/ (domain_and_budget_ok config /\ rate_limit config = NaN))
  /\ validate_config nan_config = true
  /\ ~ well_formed nan_config
  /\ (forall (A : Type) (run_audit : AuditConfig -> A),
        main run_audit nan_config = Ran (run_audit nan_config)).
Proof.
  split; [|split; [reflexivity|split]].
  - intros config. rewrite validate_config_accepts.
    unfold well_formed, domain_and_budget_ok. tauto.
  - intros (_ & _ & _ & Hrate). exact Hrate.
  - intros A run_audit. reflexivity.
Qed.

(** Validation at a valid configuration and at one whose domain lacks
    the protocol. *)
Lemma validate_config_examples :
  validate_config polite_config = true /\
  main (fun _ => tt) bare_domain_config = Rejected.
Proof. split; reflexivity. Qed.

End EngineFacts.

(** ** Heading analysis *)

Module HeadingsFacts.
Import PyStr Models Headings Examples.

(** *** Decimal numerals *)

Lemma string_of_uint_digits d :
  forall_chars is_digit (NilEmpty.string_of_uint d) = true.
Proof. induction d; simpl; try reflexivity; exact IHd. Qed.

Lemma of_nat_digits n : forall_chars is_digit (of_nat n) = true.
Proof.
  unfold of_nat, NilZero.string_of_uint.
  destruct (Nat.to_uint n) eqn:Hd; try reflexivity;
    rewrite <- Hd; apply string_of_uint_digits.
Qed.

Lemma of_nat_nonempty n : exists c rest, of_nat n = String c rest.
Proof.
  unfold of_nat, NilZero.string_of_uint.
  destruct (Nat.to_uint n); simpl; eauto.
Qed.

Lemma of_nat_first_digit n :
  exists c rest, of_nat n = String c rest /\ is_digit c = true.
Proof.
  destruct (of_nat_nonempty n) as (c & rest & Heq).
  exists c, rest. split; [exact Heq|].
  pose proof (of_nat_digits n) as Hd. rewrite Heq in Hd. simpl in Hd.
  apply andb_true_iff in Hd. tauto.
Qed.

Lemma lower_char_digit c : is_digit c = true -> lower_char c = c.
Proof.
  unfold is_digit, lower_char. intros Hc.
  apply andb_true_iff in Hc as [_ Hle]. apply Nat.leb_le in Hle.
  destruct (65 <=? nat_of_ascii c)%nat eqn:Hge; [|reflexivity].
  apply Nat.leb_le in Hge. lia.
Qed.

Lemma lower_digits s : forall_chars is_digit s = true -> lower s = s.
Proof.
  induction s as [|c s IH]; simpl; [reflexivity|].
  intros Hs. apply andb_true_iff in Hs as [Hc Hs].
  rewrite lower_char_digit, IH by assumption. reflexivity.
Qed.

Lemma lower_app s1 s2 : lower (s1 +:+ s2) = lower s1 +:+ lower s2.
Proof.
  induction s1 as [|c s1 IH]; [reflexivity|].
  change (String c s1 +:+ s2) with (String c (s1 +:+ s2)).
  simpl. rewrite IH. reflexivity.
Qed.

(** *** The keyword gate *)

Lemma allowed_after_digit d c : is_digit d = true -> allowed d c = allowed "0" c.
Proof.
  intros Hd. unfold allowed.
  destruct (Ascii.eqb_spec d "n") as [->|_]; [discriminate|].
  destruct (Ascii.eqb_spec d "m") as [->|_]; [discriminate|].
  reflexivity.
Qed.

Lemma allowed_digit p c : is_digit c = true -> allowed p c = true.
Proof.
  intros Hc. unfold allowed.
  destruct (Ascii.eqb_spec c "k") as [->|_]; [discriminate|].
  destruct (Ascii.eqb_spec c "o") as [->|_]; [discriminate|].
  destruct (Ascii.eqb_spec c "u") as [->|_]; [discriminate|].
  rewrite !andb_false_r. reflexivity.
Qed.

Lemma free_after_digit d s :
  is_digit d = true -> free_of_keywords d s = free_of_keywords "0" s.
Proof.
  intros Hd. destruct s as [|c s]; [reflexivity|].
  simpl. rewrite (allowed_after_digit d c Hd). reflexivity.
Qed.

Lemma free_app s1 s2 : forall p,
  free_of_keywords p (s1 +:+ s2)
  = free_of_keywords p s1 && free_of_keywords (last_char p s1) s2.
Proof.
  induction s1 as [|c s1 IH]; intros p; [reflexivity|].
  change (String c s1 +:+ s2) with (String c (s1 +:+ s2)).
  simpl. rewrite IH, andb_assoc. reflexivity.
Qed.

Lemma free_digits s : forall p,
  forall_chars is_digit s = true -> free_of_keywords p s = true.
Proof.
  induction s as [|c s IH]; intros p Hs; [reflexivity|].
  simpl in *. apply andb_true_iff in Hs as [Hc Hs].
  rewrite (allowed_digit p c Hc), (IH c Hs). reflexivity.
Qed.

Lemma last_char_digits s : forall p,
  is_digit p = true -> forall_chars is_digit s = true -> is_digit (last_char p s) = true.
Proof.
  induction s as [|c s IH]; intros p Hp Hs; [exact Hp|].
  simpl in *. apply andb_true_iff in Hs as [Hc Hs]. apply IH; assumption.
Qed.

(** A text, a number and a text: no keyword can arise at the seams. *)
Lemma free_text_number p t n rest :
  free_of_keywords p t = true ->
  free_of_keywords "0" rest = true ->
  free_of_keywords p (t +:+ of_nat n +:+ rest) = true.
Proof.
  intros Ht Hrest. rewrite !free_app, Ht. simpl.
  rewrite (free_digits _ _ (of_nat_digits n)). simpl.
  destruct (of_nat_first_digit n) as (c & ds & Heq & Hc).
  pose proof (of_nat_digits n) as Hds. rewrite Heq in Hds |- *. simpl in Hds |- *.
  apply andb_true_iff in Hds as [_ Hds].
  rewrite free_after_digit by (apply last_char_digits; assumption).
  exact Hrest.
Qed.

Lemma free_no_prefix keyword p s :
  In keyword keywords -> free_of_keywords p s = true -> startswith keyword s = false.
Proof.
  intros Hin Hfree.
  destruct (startswith keyword s) eqn:Hprefix; [exfalso|reflexivity].
  apply PyStrFacts.startswith_spec in Hprefix as [rest ->].
  simpl in Hin.
  destruct Hin as [<-|[<-|[<-|[<-|[]]]]];
    cbv [String.append] in Hfree; cbn [free_of_keywords] in Hfree;
    apply andb_true_iff in Hfree as [_ Hfree];
    apply andb_true_iff in Hfree as [Hbad _];
    vm_compute in Hbad; discriminate.
Qed.

Lemma free_no_contains keyword s : forall p,
  In keyword keywords -> free_of_keywords p s = true -> contains keyword s = false.
Proof.
  induction s as [|c s IH]; intros p Hin Hfree.
  - cbn [contains]. rewrite (free_no_prefix keyword p "" Hin Hfree). reflexivity.
  - cbn [contains]. rewrite (free_no_prefix keyword p _ Hin Hfree).
    cbn [free_of_keywords] in Hfree. apply andb_true_iff in Hfree as [_ Hfree].
    exact (IH c Hin Hfree).
Qed.

Lemma free_not_significant issue :
  free_of_keywords "0" (lower issue) = true -> is_significant issue = false.
Proof.
  intros Hfree. unfold is_significant.
  destruct (existsb _ keywords) eqn:Hex; [|reflexivity].
  apply existsb_exists in Hex as (keyword & Hin & Hcontains).
  rewrite (free_no_contains keyword _ "0" Hin Hfree) in Hcontains. discriminate.
Qed.

Ltac free_of_keywords_tac :=
  apply free_not_significant;
  rewrite ?lower_app, ?(lower_digits _ (of_nat_digits _));
  repeat (apply free_text_number; [vm_compute; reflexivity|]);
  vm_compute; reflexivity.

Lemma msg_first_not_h1_local lvl : is_significant (msg_first_not_h1 lvl) = false.
Proof. unfold msg_first_not_h1. free_of_keywords_tac. Qed.

Lemma msg_no_h1_local : is_significant msg_no_h1 = false.
Proof. vm_compute. reflexivity. Qed.

Lemma msg_multiple_h1_local n : is_significant (msg_multiple_h1 n) = false.
Proof. unfold msg_multiple_h1. free_of_keywords_tac. Qed.

Lemma msg_level_skip_local prev cur : is_significant (msg_level_skip prev cur) = false.
Proof. unfold msg_level_skip. free_of_keywords_tac. Qed.

Lemma msg_empty_headings_local n : is_significant (msg_empty_headings n) = false.
Proof.
  unfold msg_empty_headings.
  change (of_nat n +:+ ?t) with ("" +:+ of_nat n +:+ t). free_of_keywords_tac.
Qed.

Lemma msg_long_headings_local n : is_significant (msg_long_headings n) = false.
Proof.
  unfold msg_long_headings.
  change (of_nat n +:+ ?t) with ("" +:+ of_nat n +:+ t). free_of_keywords_tac.
Qed.

(** *** The skip check *)

Lemma fold_skip_step hs : forall prev issues,
  snd (fold_left skip_step hs (prev, issues))
  = issues ++ List.map (fun pair => msg_level_skip (fst pair) (snd pair))
                (List.filter is_skip (combine (prev :: List.map level hs) (List.map level hs))).
Proof.
  induction hs as [|h hs IH]; intros prev issues.
  - simpl. rewrite app_nil_r. reflexivity.
  - cbn [fold_left List.map combine List.filter]. unfold skip_step at 2.
    rewrite IH. unfold is_skip at 2. cbn [fst snd].
    destruct ((0 <? prev)%nat && (prev + 1 <? level h)%nat); cbn [List.map fst snd].
    + rewrite <- app_assoc. reflexivity.
    + reflexivity.
Qed.

Lemma check_hierarchy_skips_spec hs issues :
  check_hierarchy_skips hs issues = issues ++ skip_messages (List.map level hs).
Proof. unfold check_hierarchy_skips, skip_messages, skip_pairs. apply fold_skip_step. Qed.

Lemma hierarchy_issues_shape first hs :
  hierarchy_issues first hs
  = issues_before_skips first hs ++ skip_messages (List.map level hs)
    ++ issues_after_skips hs.
Proof.
  unfold hierarchy_issues, issues_before_skips, issues_after_skips.
  rewrite check_hierarchy_skips_spec.
  destruct (negb (level first =? 1)%nat);
    destruct (bool_decide (List.filter (fun h => (level h =? 1)%nat) hs = []));
    destruct (1 <? length (List.filter (fun h => (level h =? 1)%nat) hs))%nat;
    destruct (bool_decide
                (List.filter (fun h => is_empty (strip (text h))) hs = []));
    destruct (bool_decide
                (List.filter (fun h => (70 <? String.length (text h))%nat) hs = []));
    cbn [app]; rewrite <- ?app_assoc, ?app_nil_r; reflexivity.
Qed.

Lemma filter_none {A} (f : A -> bool) l :
  Forall (fun x => f x = false) l -> List.filter f l = [].
Proof.
  induction 1 as [|x l Hx _ IH]; simpl; [reflexivity|]. rewrite Hx. exact IH.
Qed.

Lemma filter_all {A} (f : A -> bool) l :
  Forall (fun x => f x = true) l -> List.filter f l = l.
Proof.
  induction 1 as [|x l Hx _ IH]; simpl; [reflexivity|]. rewrite Hx, IH. reflexivity.
Qed.

Lemma before_skips_local first hs :
  Forall (fun m => is_significant m = false) (issues_before_skips first hs).
Proof.
  unfold issues_before_skips. apply Forall_app. split.
  - destruct (negb _); repeat constructor. apply msg_first_not_h1_local.
  - cbv zeta. destruct (bool_decide _); [repeat constructor; apply msg_no_h1_local|].
    destruct (1 <? _)%nat; repeat constructor. apply msg_multiple_h1_local.
Qed.

Lemma after_skips_local hs :
  Forall (fun m => is_significant m = false) (issues_after_skips hs).
Proof.
  unfold issues_after_skips. cbv zeta. apply Forall_app. split.
  - destruct (bool_decide _); repeat constructor. apply msg_empty_headings_local.
  - destruct (bool_decide _); repeat constructor. apply msg_long_headings_local.
Qed.

Lemma skip_messages_local levels :
  Forall (fun m => is_significant m = false) (skip_messages levels).
Proof.
  unfold skip_messages. apply Forall_map, Forall_forall. intros pair _.
  apply msg_level_skip_local.
Qed.

(** No issue of a non-empty heading list passes the keyword gate. *)
Lemma hierarchy_issues_local first hs :
  List.filter is_significant (hierarchy_issues first hs) = [].
Proof.
  apply filter_none. rewrite hierarchy_issues_shape.
  rewrite !Forall_app.
  split; [apply before_skips_local | split].
  - apply skip_messages_local.
  - apply after_skips_local.
Qed.

(** *** Telling level-skip messages from the others *)

Lemma msg_level_skip_is_skip prev cur :
  is_level_skip_message (msg_level_skip prev cur) = true.
Proof.
  apply PyStrFacts.startswith_spec. unfold msg_level_skip.
  eexists (": H" +:+ _). reflexivity.
Qed.

Lemma numeral_first_is_not_skip n t :
  is_level_skip_message (of_nat n +:+ t) = false.
Proof.
  destruct (of_nat_first_digit n) as (c & ds & -> & Hc).
  unfold is_level_skip_message.
  change (String c ds +:+ t) with (String c (ds +:+ t)).
  cbn [startswith].
  destruct (Ascii.eqb_spec "S" c) as [<-|_]; [discriminate|reflexivity].
Qed.

Lemma before_skips_not_skip first hs :
  Forall (fun m => is_level_skip_message m = false) (issues_before_skips first hs).
Proof.
  unfold issues_before_skips. cbv zeta. apply Forall_app. split.
  - destruct (negb _); repeat constructor.
  - destruct (bool_decide _); [repeat constructor|].
    destruct (1 <? _)%nat; repeat constructor.
Qed.

Lemma after_skips_not_skip hs :
  Forall (fun m => is_level_skip_message m = false) (issues_after_skips hs).
Proof.
  unfold issues_after_skips. cbv zeta. apply Forall_app. split.
  - destruct (bool_decide _); repeat constructor. apply numeral_first_is_not_skip.
  - destruct (bool_decide _); repeat constructor. apply numeral_first_is_not_skip.
Qed.

(** The level-skip messages among the hierarchy issues are those of the
    skip check, in order. *)
Lemma hierarchy_issues_skips first hs :
  List.filter is_level_skip_message (hierarchy_issues first hs)
  = skip_messages (List.map level hs).
Proof.
  rewrite hierarchy_issues_shape, !List.filter_app.
  rewrite (filter_none _ _ (before_skips_not_skip first hs)).
  rewrite (filter_none _ _ (after_skips_not_skip hs)).
  rewrite app_nil_r. cbn [app]. apply filter_all.
  unfold skip_messages. apply Forall_map, Forall_forall. intros pair _.
  apply msg_level_skip_is_skip.
Qed.

(** *** The heading list *)

Lemma validate_keeps_headings_structure hs r :
  headings_structure (validate_heading_hierarchy hs r) = headings_structure r.
Proof. destruct hs; reflexivity. Qed.

(** [position] is the index in the list: dense and 0-based. *)
Lemma headings_structure_positions tree r i h :
  headings_structure (analyze_heading_structure tree r) !! i = Some h -> position h = i.
Proof.
  unfold analyze_heading_structure. rewrite validate_keeps_headings_structure.
  cbn [headings_structure set_headings_structure]. unfold make_headings.
  rewrite list_lookup_imap.
  destruct (all_headings_elements tree !! i) as [e|]; simpl; [|discriminate].
  intros [= <-]. reflexivity.
Qed.

(** No heading of the list has an empty text. *)
Lemma headings_structure_nonempty tree r h :
  h ∈ headings_structure (analyze_heading_structure tree r) -> text h <> "".
Proof.
  unfold analyze_heading_structure. rewrite validate_keeps_headings_structure.
  cbn [headings_structure set_headings_structure]. unfold make_headings.
  intros Hin. apply list_elem_of_lookup in Hin as [i Hi].
  rewrite list_lookup_imap in Hi.
  destruct (all_headings_elements tree !! i) as [e|] eqn:He; simpl in Hi; [|discriminate].
  injection Hi as <-. cbn [text].
  apply list_elem_of_lookup_2 in He. unfold all_headings_elements in He.
  apply list_elem_of_In, in_concat in He as (l & Hl & He).
  apply in_map_iff in Hl as (lvl & <- & _).
  unfold collect_level in He. apply list_elem_of_In, list_elem_of_omap in He.
  destruct He as (node & _ & Hnode).
  destruct (strip (Utils.clean_text (node_text node))) as [|c t] eqn:Htext;
    [discriminate|].
  injection Hnode as <-. discriminate.
Qed.

Lemma collect_level_levels tree lvl e : e ∈ collect_level tree lvl -> fst e = lvl.
Proof.
  unfold collect_level. intros He. apply list_elem_of_omap in He as (node & _ & Hnode).
  destruct (is_empty (strip (Utils.clean_text (node_text node)))); [discriminate|].
  injection Hnode as <-. reflexivity.
Qed.

Lemma constant_levels_sorted lvl (l : list nat) :
  Forall (fun x => x = lvl) l -> StronglySorted le l.
Proof.
  induction 1 as [|x l -> Hl IH]; constructor; [exact IH|].
  eapply Forall_impl; [exact Hl|]. intros y ->. reflexivity.
Qed.

Lemma collected_levels_sorted tree lvls :
  StronglySorted lt lvls ->
  StronglySorted le (List.map fst (concat (List.map (collect_level tree) lvls))) /\
  (forall x, x ∈ List.map fst (concat (List.map (collect_level tree) lvls)) -> x ∈ lvls).
Proof.
  induction 1 as [|lvl lvls Hsorted [IHsorted IHin] Hlt]; cbn [List.map concat].
  - split; [constructor|]. intros x Hx. exact Hx.
  - rewrite List.map_app.
    assert (Hhere : forall x, x ∈ List.map fst (collect_level tree lvl) -> x = lvl).
    { intros x Hx. apply list_elem_of_In, in_map_iff in Hx as (e & <- & He).
      apply (collect_level_levels tree), list_elem_of_In, He. }
    split.
    + apply sorting.StronglySorted_app_2.
      * intros x1 x2 Hx1 Hx2. rewrite (Hhere _ Hx1).
        apply Nat.lt_le_incl. rewrite Forall_forall in Hlt. apply Hlt, IHin, Hx2.
      * apply (constant_levels_sorted lvl), Forall_forall. exact Hhere.
      * exact IHsorted.
    + intros x Hx. apply elem_of_app in Hx as [Hx|Hx].
      * rewrite (Hhere _ Hx). apply list_elem_of_here.
      * apply list_elem_of_further, IHin, Hx.
Qed.

Lemma make_headings_levels es : List.map level (make_headings es) = List.map fst es.
Proof.
  unfold make_headings. apply list_eq. intros i.
  change (List.map level) with (fmap (M := list) level).
  change (List.map (@fst nat string)) with (fmap (M := list) (@fst nat string)).
  rewrite !list_lookup_fmap, list_lookup_imap.
  destruct (es !! i); reflexivity.
Qed.

(** Whatever the document, the list is ordered by level. *)
Lemma headings_structure_sorted_by_level tree r :
  StronglySorted le (List.map level (headings_structure (analyze_heading_structure tree r))).
Proof.
  unfold analyze_heading_structure. rewrite validate_keeps_headings_structure.
  cbn [headings_structure set_headings_structure].
  rewrite make_headings_levels. unfold all_headings_elements.
  apply collected_levels_sorted.
  repeat (constructor; [|repeat constructor; lia]). constructor.
Qed.

(** C3 (the code departs from the claim): the headings are collected level
    by level, all H1 first, then all H2 and so on, not in document order.
    For a document whose headings are an H3 followed by an H1 the list is
    [H1, H3]; the positions 0 and 1 number this list, not the document.
    For every document the levels of the list are in ascending order. *)
Theorem headings_structure_is_level_major :
  headings_structure
    (analyze_heading_structure h3_then_h1 (new_PageResult "https://example.com/"))
  = [heading 1 "Title" 0; heading 3 "Details" 1] /\
  (forall tree r,
     StronglySorted le
       (List.map level (headings_structure (analyze_heading_structure tree r)))).
Proof.
  split; [vm_compute; reflexivity|].
  intros tree r. apply headings_structure_sorted_by_level.
Qed.

(** C4 (the code departs from the claim): the gate looks for the English
    keywords no h1, multiple h1, skip and no headings in messages that are
    written in French, so that for a non-empty heading list no hierarchy
    issue is ever promoted: the general issue list is left as it was. The
    list [H1, H3] gets its level-skip issue in the hierarchy list only. An
    empty heading list does get the no-headings issue in both lists, by a
    direct append that does not go through the gate. *)
Theorem hierarchy_issues_are_never_promoted :
  (forall first rest r,
     issues (validate_heading_hierarchy (first :: rest) r) = issues r) /\
  headings_hierarchy_issues
    (validate_heading_hierarchy h1_h3 (new_PageResult "https://example.com/"))
  = ["Saut de niveau de titre: H1 → H3 (H2 manquant)"] /\
  issues (validate_heading_hierarchy h1_h3 (new_PageResult "https://example.com/")) = [] /\
  (forall r,
     headings_hierarchy_issues (validate_heading_hierarchy [] r)
     = headings_hierarchy_issues r ++ [msg_no_headings] /\
     issues (validate_heading_hierarchy [] r) = issues r ++ [msg_no_headings]).
Proof.
  split; [|split; [|split]].
  - intros first rest r. cbn [validate_heading_hierarchy set_issues issues].
    rewrite hierarchy_issues_local. cbn [List.map]. apply app_nil_r.
  - vm_compute. reflexivity.
  - vm_compute. reflexivity.
  - intros r. split; reflexivity.
Qed.

(** C8: the skip check walks the headings in order with [prev_level]
    started at 0, and records a level-skip issue, which names level
    [prev_level + 1] as missing, exactly at the headings where
    [prev_level > 0] and the level exceeds [prev_level + 1]; these are all
    the level-skip issues of the hierarchy list. [H1, H3] yields the one
    issue that names H2, [H1, H2, H3] yields none. *)
Theorem level_skip_recorded_exactly_at_skips :
  (forall prev issues h,
     skip_step (prev, issues) h
     = (level h,
        if (0 <? prev)%nat && (prev + 1 <? level h)%nat
        then issues ++ [msg_level_skip prev (level h)] else issues)) /\
  (forall headings issues,
     check_hierarchy_skips headings issues
     = issues ++ skip_messages (List.map level headings)) /\
  (forall first rest r,
     List.filter is_level_skip_message
       (headings_hierarchy_issues (validate_heading_hierarchy (first :: rest) r))
     = skip_messages (List.map level (first :: rest))) /\
  List.filter is_level_skip_message
    (headings_hierarchy_issues
       (validate_heading_hierarchy h1_h3 (new_PageResult "https://example.com/")))
  = ["Saut de niveau de titre: H1 → H3 (H2 manquant)"] /\
  List.filter is_level_skip_message
    (headings_hierarchy_issues
       (validate_heading_hierarchy h1_h2_h3 (new_PageResult "https://example.com/")))
  = [].
Proof.
  split; [|split; [|split; [|split]]].
  - intros prev issues h. reflexivity.
  - intros headings issues. apply check_hierarchy_skips_spec.
  - intros first rest r.
    cbn [validate_heading_hierarchy set_issues set_headings_hierarchy_issues
         headings_hierarchy_issues].
    apply hierarchy_issues_skips.
  - vm_compute. reflexivity.
  - vm_compute. reflexivity.
Qed.

End HeadingsFacts.

(** ** Redirect chains *)

Module RedirectsFacts.
Import Redirects Examples.

Section WithSession.
Context `{lib : UrlLib}.
Variable session_get : nat -> string -> Response + string.
Variable urljoin_error : string -> string -> option string.
Variable urlparse_error : string -> option string.

(** The loop ends within [10 - len(redirect_chain)] rounds. *)
Lemma follow_total fuel : forall n response current_url chain issues,
  (10 <= fuel + length chain)%nat ->
  exists result,
    follow session_get urljoin_error fuel n response current_url chain issues = Some result.
Proof.
  induction fuel as [|fuel IH]; intros n response current_url chain issues Hfuel.
  - cbn [follow].
    replace (length chain <? 10)%nat with false by (symmetry; apply Nat.ltb_ge; lia).
    rewrite andb_false_r. eauto.
  - cbn [follow].
    destruct (is_redirect (status_code response) && (length chain <? 10)%nat); [|eauto].
    destruct (location response) as [loc|]; [|eauto].
    destruct (PyStr.is_empty loc); [eauto|].
    destruct (urljoin_error current_url loc); [eauto|].
    destruct (bool_decide (urljoin current_url loc ∈ chain)); [eauto|].
    destruct (session_get n (urljoin current_url loc)) as [response'|e]; [|eauto].
    apply IH. rewrite length_app. simpl. lia.
Qed.

(** The chain only grows at its end, never beyond ten entries, and never
    by a URL that it already holds. *)
Lemma follow_chain fuel : forall n response current_url chain issues result,
  follow session_get urljoin_error fuel n response current_url chain issues = Some result ->
  (length chain <= 10)%nat -> NoDup chain ->
  (length (chain_of result) <= 10)%nat /\ NoDup (chain_of result)
  /\ chain `prefix_of` chain_of result.
Proof.
  induction fuel as [|fuel IH];
    intros n response current_url chain issues result Hrun Hlen Hnodup.
  - cbn [follow] in Hrun.
    destruct (is_redirect (status_code response) && (length chain <? 10)%nat);
      [discriminate|].
    injection Hrun as <-. cbn [chain_of]. auto.
  - cbn [follow] in Hrun.
    destruct (is_redirect (status_code response) && (length chain <? 10)%nat) eqn:Hcond;
      [|injection Hrun as <-; cbn [chain_of]; auto].
    apply andb_true_iff in Hcond as [_ Hlt]. apply Nat.ltb_lt in Hlt.
    destruct (location response) as [loc|]; [|injection Hrun as <-; cbn [chain_of]; auto].
    destruct (PyStr.is_empty loc); [injection Hrun as <-; cbn [chain_of]; auto|].
    destruct (urljoin_error current_url loc); [injection Hrun as <-; cbn [chain_of]; auto|].
    destruct (bool_decide_reflect (urljoin current_url loc ∈ chain)) as [Hin|Hnin];
      [injection Hrun as <-; cbn [chain_of]; auto|].
    assert (Hlen' : (length (chain ++ [urljoin current_url loc]) <= 10)%nat)
      by (rewrite length_app; simpl; lia).
    assert (Hnodup' : NoDup (chain ++ [urljoin current_url loc])).
    { apply NoDup_app. split; [exact Hnodup|]. split; [|apply NoDup_singleton].
      intros x Hx Hx'. apply list_elem_of_singleton in Hx'. subst x. exact (Hnin Hx). }
    destruct (session_get n (urljoin current_url loc)) as [response'|e].
    + destruct (IH _ _ _ _ _ _ Hrun Hlen' Hnodup') as (Hten & Hnd & Hpre).
      split; [exact Hten|]. split; [exact Hnd|].
      etransitivity; [|exact Hpre]. apply prefix_app_r. reflexivity.
    + injection Hrun as <-. cbn [chain_of]. split; [exact Hlen'|]. split; [exact Hnodup'|].
      apply prefix_app_r. reflexivity.
Qed.


(** Once the chain holds ten entries the loop ends without a look at the
    response. *)
Lemma follow_stops_at_cap fuel n response current_url chain issues :
  (10 <= length chain)%nat ->
  follow session_get urljoin_error fuel n response current_url chain issues
  = Some (Ended chain issues).
Proof.
  intros Hlen.
  assert (Hcap : (length chain <? 10)%nat = false) by (apply Nat.ltb_ge; exact Hlen).
  destruct fuel; cbn [follow]; rewrite Hcap, andb_false_r; reflexivity.
Qed.


(** [analyze_redirects] always returns, with a chain of at most ten
    distinct URLs. *)
Lemma analyze_redirects_total url :
  exists chain issues,
    analyze_redirects session_get urljoin_error urlparse_error url = Some (chain, issues) /\
    (length chain <= 10)%nat /\ NoDup chain.
Proof.
  unfold analyze_redirects, analyze_redirects_fuel.
  destruct (session_get 0 url) as [response|e].
  - destruct (follow_total 10 1 response url [url] []) as [result Hrun];
      [simpl; lia|].
    rewrite Hrun.
    destruct (follow_chain _ _ _ _ _ _ _ Hrun) as (Hlen & Hnodup & _);
      [simpl; lia | apply NoDup_singleton |].
    destruct result as [chain issues|chain issues e]; cbn [chain_of] in Hlen, Hnodup.
    + destruct (analyze_chain urlparse_error chain issues) as [issues' e]. eauto.
    + eauto.
  - exists [], (caught [] (Some e)). split; [reflexivity|]. split; [simpl; lia|constructor].
Qed.

End WithSession.




End RedirectsFacts.

(** ** The crawl loop *)

Module CrawlerFacts.
Import Models Crawler Examples.

Section WithEnvironment.
Context `{lib : UrlLib}.
Variable config : AuditConfig.
Variable robots_allows : string -> bool.
Variable sitemap_urls : list string.
Variable discover_from_page : nat -> string -> list string.

Lemma frontier_ok_init : frontier_ok init.
Proof.
  unfold frontier_ok, init; simpl. split; [constructor|].
  split; [intros u Hu; inversion Hu|]. split; [intros u Hu|intros u Hu; inversion Hu].
  exfalso. exact (not_elem_of_empty (C := gset string) u Hu).
Qed.

Lemma add_url_to_queue_crawled st url :
  crawled_urls (add_url_to_queue robots_allows st url) = crawled_urls st.
Proof.
  unfold add_url_to_queue.
  destruct (negb _ && _); [|reflexivity]. destruct (robots_allows url); reflexivity.
Qed.

Lemma add_url_to_queue_ok st url : frontier_ok st -> frontier_ok (add_url_to_queue robots_allows st url).
Proof.
  intros (Hnodup & Hqueue & Hcrawled & Hfresh). unfold add_url_to_queue.
  destruct (bool_decide_reflect (url ∈ discovered_urls st)) as [Hin|Hnew];
    cbn [negb andb]; [repeat split; assumption|].
  destruct (Utils.is_valid_url url); [|repeat split; assumption].
  destruct (robots_allows url); [|repeat split; assumption].
  unfold frontier_ok; cbn [url_queue discovered_urls crawled_urls].
  split; [|split; [|split]].
  - apply NoDup_app. split; [exact Hnodup|]. split; [|apply NoDup_singleton].
    intros u Hu Hu'. apply list_elem_of_singleton in Hu'. subst u.
    exact (Hnew (Hqueue _ Hu)).
  - intros u Hu. apply elem_of_app in Hu as [Hu|Hu].
    + apply elem_of_union_r, Hqueue, Hu.
    + apply list_elem_of_singleton in Hu. subst u.
      apply elem_of_union_l, elem_of_singleton. reflexivity.
  - intros u Hu. apply elem_of_union_r, Hcrawled, Hu.
  - intros u Hu. apply elem_of_app in Hu as [Hu|Hu]; [exact (Hfresh _ Hu)|].
    apply list_elem_of_singleton in Hu. subst u.
    intros Hc. exact (Hnew (Hcrawled _ Hc)).
Qed.

Lemma fold_add_url_to_queue_crawled urls : forall st,
  crawled_urls (fold_left (add_url_to_queue robots_allows) urls st) = crawled_urls st.
Proof.
  induction urls as [|u urls IH]; intros st; [reflexivity|].
  cbn [fold_left]. rewrite IH. apply add_url_to_queue_crawled.
Qed.

Lemma fold_add_url_to_queue_ok urls : forall st,
  frontier_ok st -> frontier_ok (fold_left (add_url_to_queue robots_allows) urls st).
Proof.
  induction urls as [|u urls IH]; intros st Hok; [exact Hok|].
  cbn [fold_left]. apply IH, add_url_to_queue_ok, Hok.
Qed.

Lemma discover_loop_crawled urls : forall st,
  crawled_urls (discover_loop config robots_allows st urls) = crawled_urls st.
Proof.
  induction urls as [|u urls IH]; intros st; [reflexivity|].
  cbn [discover_loop]. destruct (_ <? _)%Z; [|reflexivity].
  rewrite IH. apply add_url_to_queue_crawled.
Qed.

Lemma discover_loop_ok urls : forall st,
  frontier_ok st -> frontier_ok (discover_loop config robots_allows st urls).
Proof.
  induction urls as [|u urls IH]; intros st Hok; [exact Hok|].
  cbn [discover_loop]. destruct (_ <? _)%Z; [|exact Hok].
  apply IH, add_url_to_queue_ok, Hok.
Qed.

Lemma initialize_urls_ok :
  frontier_ok (initialize_urls config robots_allows sitemap_urls init) /\
  crawled_urls (initialize_urls config robots_allows sitemap_urls init) = ∅.
Proof.
  unfold initialize_urls. destruct (negb _).
  - split; [apply fold_add_url_to_queue_ok, frontier_ok_init|].
    apply fold_add_url_to_queue_crawled.
  - split; [apply add_url_to_queue_ok, frontier_ok_init|].
    apply add_url_to_queue_crawled.
Qed.

(** [get_next_url] returns nothing exactly when the queue is empty or the
    crawled set has reached the budget. *)
Lemma get_next_url_None st :
  fst (get_next_url config st) = None <->
  url_queue st = [] \/ (max_pages config <= Z.of_nat (size (crawled_urls st)))%Z.
Proof.
  unfold get_next_url. destruct (url_queue st) as [|url rest].
  - simpl. tauto.
  - destruct (Z.leb_spec (max_pages config) (Z.of_nat (size (crawled_urls st))));
      simpl; split; try tauto; try discriminate.
    intros [?|?]; [discriminate|lia].
Qed.

Lemma get_next_url_Some st url st' :
  get_next_url config st = (Some url, st') ->
  url_queue st = url :: url_queue st' /\
  crawled_urls st' = crawled_urls st /\
  discovered_urls st' = discovered_urls st /\
  (Z.of_nat (size (crawled_urls st)) < max_pages config)%Z.
Proof.
  unfold get_next_url. destruct (url_queue st) as [|u rest]; [discriminate|].
  destruct (Z.leb_spec (max_pages config) (Z.of_nat (size (crawled_urls st))));
    [discriminate|].
  intros [= <- <-]. simpl. auto.
Qed.

(** After the [yield] the URL is in the crawled set. *)
Lemma resume_crawled i st url :
  crawled_urls (resume config robots_allows discover_from_page i st url)
  = {[url]} ∪ crawled_urls st.
Proof.
  unfold resume, discover_more_urls.
  destruct (_ <? _)%Z; [|reflexivity].
  destruct (_ <=? _)%Z; [reflexivity|].
  apply discover_loop_crawled.
Qed.

Lemma mark_url_crawled_ok st url :
  frontier_ok st -> url ∉ url_queue st -> url ∈ discovered_urls st ->
  frontier_ok (mark_url_crawled st url).
Proof.
  intros (Hnodup & Hqueue & Hcrawled & Hfresh) Hurl Hdisc.
  unfold frontier_ok, mark_url_crawled; cbn [url_queue discovered_urls crawled_urls].
  split; [exact Hnodup|]. split; [exact Hqueue|]. split.
  - intros u Hu. apply elem_of_union in Hu as [Hu|Hu]; [|exact (Hcrawled _ Hu)].
    apply elem_of_singleton in Hu. subst u. exact Hdisc.
  - intros u Hu Hc. apply elem_of_union in Hc as [Hc|Hc]; [|exact (Hfresh _ Hu Hc)].
    apply elem_of_singleton in Hc. subst u. exact (Hurl Hu).
Qed.

Lemma resume_ok i st url :
  frontier_ok st -> url ∉ url_queue st -> url ∈ discovered_urls st ->
  frontier_ok (resume config robots_allows discover_from_page i st url).
Proof.
  intros Hok Hurl Hdisc. pose proof (mark_url_crawled_ok st url Hok Hurl Hdisc) as Hok'.
  unfold resume, discover_more_urls.
  destruct (_ <? _)%Z; [|exact Hok'].
  destruct (_ <=? _)%Z; [exact Hok'|].
  apply discover_loop_ok, Hok'.
Qed.

(** A dequeued URL is new to the crawled set, and the state after the
    dequeue satisfies the invariant again. *)
Lemma get_next_url_ok st url st' :
  frontier_ok st -> get_next_url config st = (Some url, st') ->
  frontier_ok st' /\ (url ∉ url_queue st') /\ (url ∈ discovered_urls st') /\
  (url ∉ crawled_urls st').
Proof.
  intros (Hnodup & Hqueue & Hcrawled & Hfresh) Hnext.
  apply get_next_url_Some in Hnext as (Hq & Hc & Hd & _).
  rewrite Hq in Hnodup, Hqueue, Hfresh. apply NoDup_cons in Hnodup as [Hnotin Hnodup].
  unfold frontier_ok. rewrite Hc, Hd.
  split; [|split; [exact Hnotin|split]].
  - split; [exact Hnodup|]. split; [|split; [exact Hcrawled|]].
    + intros u Hu. apply Hqueue, elem_of_cons. right. exact Hu.
    + intros u Hu. apply Hfresh, elem_of_cons. right. exact Hu.
  - apply Hqueue, elem_of_cons. left. reflexivity.
  - apply Hfresh, elem_of_cons. left. reflexivity.
Qed.

(** The loop ends within [max_pages - len(crawled_urls)] rounds and
    yields at most that many URLs, each of which is in the crawled set at
    the end. *)
Lemma crawl_loop_bound fuel : forall i st,
  frontier_ok st ->
  (Z.to_nat (max_pages config) - size (crawled_urls st) <= fuel)%nat ->
  exists urls st',
    crawl_loop config robots_allows discover_from_page fuel i st = Some (urls, st') /\
    (length urls <= Z.to_nat (max_pages config) - size (crawled_urls st))%nat /\
    size (crawled_urls st') = (size (crawled_urls st) + length urls)%nat /\
    (forall u, u ∈ crawled_urls st -> u ∈ crawled_urls st') /\
    (forall u, u ∈ urls -> u ∈ crawled_urls st').
Proof.
  induction fuel as [|fuel IH]; intros i st Hok Hfuel.
  - destruct (get_next_url config st) as [[url|] st'] eqn:Hnext.
    + pose proof (get_next_url_Some _ _ _ Hnext) as (_ & _ & _ & Hlt). lia.
    + exists [], st'. cbn [crawl_loop]. rewrite Hnext.
      assert (st' = st) as ->.
      { unfold get_next_url in Hnext. destruct (url_queue st); [congruence|].
        destruct (_ <=? _)%Z; congruence. }
      repeat split; [simpl; lia | simpl; lia | auto | intros u Hu; inversion Hu].
  - cbn [crawl_loop]. destruct (get_next_url config st) as [[url|] st'] eqn:Hnext.
    + pose proof (get_next_url_Some _ _ _ Hnext) as (_ & Hc & _ & Hlt).
      destruct (get_next_url_ok _ _ _ Hok Hnext) as (Hok' & Hnq & Hdisc & Hnc).
      destruct (PyStr.is_empty url).
      { exists [], st'. rewrite Hc.
        repeat split; [simpl; lia | simpl; lia | auto | intros u Hu; inversion Hu]. }
      assert (Hsize : size (crawled_urls
                (resume config robots_allows discover_from_page i st' url))
              = S (size (crawled_urls st))).
      { rewrite resume_crawled, size_union, size_singleton, Hc; [reflexivity|].
        apply disjoint_singleton_l. exact Hnc. }
      destruct (IH (S i) (resume config robots_allows discover_from_page i st' url))
        as (urls & st'' & Hrun & Hlen & Hsz & Hmono & Hin).
      { apply resume_ok; assumption. }
      { rewrite Hsize. lia. }
      exists (url :: urls), st''. rewrite Hrun. rewrite Hsize in Hlen, Hsz.
      rewrite resume_crawled, Hc in Hmono.
      repeat split; [simpl; lia | simpl; lia | |].
      * intros u Hu. apply Hmono, elem_of_union_r, Hu.
      * intros u Hu. apply elem_of_cons in Hu as [->|Hu]; [|exact (Hin _ Hu)].
        apply Hmono, elem_of_union_l, elem_of_singleton. reflexivity.
    + exists [], st'.
      assert (st' = st) as ->.
      { unfold get_next_url in Hnext. destruct (url_queue st); [congruence|].
        destruct (_ <=? _)%Z; congruence. }
      repeat split; [simpl; lia | simpl; lia | auto | intros u Hu; inversion Hu].
Qed.

(** [crawl_urls] run to the end yields at most [max_pages] URLs. *)
Lemma crawl_urls_bound fuel :
  (Z.to_nat (max_pages config) <= fuel)%nat ->
  exists urls st',
    crawl_urls config robots_allows sitemap_urls discover_from_page fuel
    = Some (urls, st') /\
    (length urls <= Z.to_nat (max_pages config))%nat /\
    (forall u, u ∈ urls -> u ∈ crawled_urls st').
Proof.
  intros Hfuel. destruct initialize_urls_ok as [Hok Hempty].
  destruct (crawl_loop_bound fuel 0 _ Hok) as (urls & st' & Hrun & Hlen & _ & _ & Hin).
  { lia. }
  exists urls, st'. split; [exact Hrun|]. split; [lia|exact Hin].
Qed.

End WithEnvironment.

(** C5: with a page budget [max_pages > 0], [get_next_url] returns nothing
    exactly when the queue is empty or the crawled set has reached the
    budget; the URL yielded is in the crawled set when the loop resumes,
    before the next dequeue; and the loop, run to its end, terminates
    after yielding at most [max_pages] URLs, all of them crawled. *)
Theorem crawl_yields_at_most_max_pages
    (lib : UrlLib) (config : AuditConfig) (robots_allows : string -> bool)
    (sitemap_urls : list string) (discover_from_page : nat -> string -> list string) :
  (0 < max_pages config)%Z ->
  (forall st,
     fst (get_next_url config st) = None <->
     url_queue st = [] \/ (max_pages config <= Z.of_nat (size (crawled_urls st)))%Z) /\
  (forall i st url,
     url ∈ crawled_urls (resume config robots_allows discover_from_page i st url)) /\
  (forall fuel, (Z.to_nat (max_pages config) <= fuel)%nat ->
     exists urls st',
       crawl_urls config robots_allows sitemap_urls discover_from_page fuel
       = Some (urls, st') /\
       (Z.of_nat (length urls) <= max_pages config)%Z /\
       (forall u, u ∈ urls -> u ∈ crawled_urls st')).
Proof.
  intros Hbudget. split; [|split].
  - intros st. exact (get_next_url_None config robots_allows st).
  - intros i st url. rewrite resume_crawled.
    apply elem_of_union_l, elem_of_singleton. reflexivity.
  - intros fuel Hfuel.
    destruct (crawl_urls_bound config robots_allows sitemap_urls discover_from_page
                fuel Hfuel) as (urls & st' & Hrun & Hlen & Hin).
    exists urls, st'. split; [exact Hrun|]. split; [lia|exact Hin].
Qed.

(** The theorem at a crawl with budget 2 of a site whose pages link to
    three more pages. *)
Lemma crawl_yields_at_most_max_pages_witness :
  exists urls st',
    crawl_urls (lib := PyUrl.model) small_config (fun _ => true) [] three_links 2
    = Some (urls, st') /\
    (Z.of_nat (length urls) <= 2)%Z.
Proof.
  assert (Hbudget : (0 < max_pages small_config)%Z) by reflexivity.
  destruct (crawl_yields_at_most_max_pages PyUrl.model small_config (fun _ => true)
              [] three_links Hbudget) as (_ & _ & Hrun).
  assert (Hfuel : (Z.to_nat (max_pages small_config) <= 2)%nat) by (simpl; lia).
  destruct (Hrun 2%nat Hfuel) as (urls & st' & Heq & Hlen & _).
  exists urls, st'. split; [exact Heq | exact Hlen].
Defined.

End CrawlerFacts.

(** ** The link graph *)

Module LinkGraphFacts.
Import LinkGraph Examples.

Lemma dd_add_new d k x : d !! k = None -> dd_add d k x = <[k := {[x]}]> d.
Proof.
  intros Hk. unfold dd_add, dd_get. rewrite Hk, insert_insert_eq.
  f_equal. apply (right_id_L ∅ (∪)).
Qed.

Lemma dd_get_present d k v : d !! k = Some v -> dd_get d k = (v, d).
Proof. intros Hk. unfold dd_get. rewrite Hk. reflexivity. Qed.

Lemma dd_get_missing d k : d !! k = None -> dd_get d k = (∅, <[k := ∅]> d).
Proof. intros Hk. unfold dd_get. rewrite Hk. reflexivity. Qed.

Lemma bfs_done fuel graph depths : bfs fuel graph depths [] = Some (depths, graph).
Proof. destruct fuel; reflexivity. Qed.

Section TwoEdges.
Context `{lib : UrlLib}.
Variables home p1 p2 p3 : string.
Hypothesis distinct : NoDup [home; p1; p2; p3].
Hypothesis p1_nonempty : p1 <> "".
Hypothesis p2_nonempty : p2 <> "".
Hypothesis p1_normal : Utils.normalize_url p1 = p1.
Hypothesis p2_normal : Utils.normalize_url p2 = p2.
Hypothesis p1_internal : Utils.is_same_domain p1 home = true.
Hypothesis p2_internal : Utils.is_same_domain p2 p1 = true.

Lemma distinct_urls :
  home <> p1 /\ home <> p2 /\ home <> p3 /\ p1 <> p2 /\ p1 <> p3 /\ p2 <> p3.
Proof.
  pose proof distinct as Hd.
  apply NoDup_cons in Hd as [H1 Hd]. apply NoDup_cons in Hd as [H2 Hd].
  apply NoDup_cons in Hd as [H3 _].
  rewrite !elem_of_cons in H1, H2, H3.
  repeat split; intros Heq; subst;
    [apply H1 | apply H1 | apply H1 | apply H2 | apply H2 | apply H3];
    rewrite ?elem_of_cons; auto.
Qed.

Lemma analyzer_graphs :
  link_graph (with_two_edges home p1 p2) = <[p1 := {[p2]}]> (<[home := {[p1]}]> ∅) /\
  reverse_link_graph (with_two_edges home p1 p2)
  = <[p2 := {[p1]}]> (<[p1 := {[home]}]> ∅).
Proof.
  destruct distinct_urls as (H01 & H02 & H03 & H12 & H13 & H23).
  unfold with_two_edges, add_page_links. cbn [fold_left]. unfold add_link.
  rewrite p1_normal, p2_normal, p1_internal, p2_internal.
  apply PyStrFacts.is_empty_false in p1_nonempty as ->.
  apply PyStrFacts.is_empty_false in p2_nonempty as ->.
  cbn [negb andb link_graph reverse_link_graph new].
  rewrite (dd_add_new ∅ home p1) by apply lookup_empty.
  rewrite (dd_add_new ∅ p1 home) by apply lookup_empty.
  rewrite dd_add_new by (rewrite lookup_insert_ne by exact H01; apply lookup_empty).
  rewrite dd_add_new
    by (rewrite lookup_insert_ne by exact H12; apply lookup_empty).
  split; reflexivity.
Qed.

(** The homepage has no inbound link either: it is reported along with
    the page that nothing links to. *)
Lemma two_edges_orphans :
  find_orphaned_pages (with_two_edges home p1 p2) {[home; p1; p2; p3]} = {[home; p3]}.
Proof.
  destruct distinct_urls as (H01 & H02 & H03 & H12 & H13 & H23).
  destruct analyzer_graphs as [_ Hreverse].
  apply set_eq. intros x. unfold find_orphaned_pages.
  rewrite elem_of_filter. unfold is_orphan. rewrite Hreverse.
  rewrite !elem_of_union, !elem_of_singleton.
  split.
  - intros [Horphan [[[->| ->]| ->]| ->]]; auto.
    + rewrite lookup_insert_ne, lookup_insert_eq in Horphan by congruence.
      rewrite size_singleton in Horphan. discriminate.
    + rewrite lookup_insert_eq in Horphan.
      rewrite size_singleton in Horphan. discriminate.
  - intros [->| ->].
    + rewrite !lookup_insert_ne, lookup_empty by congruence. auto.
    + rewrite !lookup_insert_ne, lookup_empty by congruence. auto.
Qed.

(** Breadth-first search from the homepage ends within three rounds. *)
Lemma two_edges_depths fuel :
  (3 <= fuel)%nat ->
  exists analyzer',
    find_link_depth fuel (with_two_edges home p1 p2) home
    = Some (<[p2 := 2%nat]> (<[p1 := 1%nat]> {[home := 0%nat]}), analyzer').
Proof.
  destruct distinct_urls as (H01 & H02 & H03 & H12 & H13 & H23).
  destruct analyzer_graphs as [Hforward _].
  intros Hfuel. destruct fuel as [|[|[|fuel]]]; try lia.
  unfold find_link_depth. rewrite Hforward.
  cbn [bfs]. rewrite lookup_singleton_eq.
  rewrite (dd_get_present _ home {[p1]})
    by (rewrite lookup_insert_ne by congruence; apply lookup_insert_eq).
  rewrite elements_singleton. cbn [fold_left visit].
  rewrite lookup_singleton_ne by congruence.
  cbn [app bfs]. rewrite lookup_insert_eq.
  rewrite (dd_get_present _ p1 {[p2]}) by apply lookup_insert_eq.
  rewrite elements_singleton. cbn [fold_left visit].
  rewrite lookup_insert_ne, lookup_singleton_ne by congruence.
  cbn [app bfs]. rewrite lookup_insert_eq.
  rewrite dd_get_missing
    by (rewrite !lookup_insert_ne, lookup_empty by congruence; reflexivity).
  rewrite elements_empty. cbn [fold_left]. rewrite bfs_done.
  eexists. reflexivity.
Qed.

Lemma two_edges_unreachable :
  (<[p2 := 2%nat]> (<[p1 := 1%nat]> ({[home := 0%nat]} : gmap string nat))) !! p3 = None.
Proof.
  destruct distinct_urls as (H01 & H02 & H03 & H12 & H13 & H23).
  rewrite !lookup_insert_ne, lookup_singleton_ne by congruence. reflexivity.
Qed.

End TwoEdges.

(** C2, as the code has it: for four distinct internal URLs and the graph
    with the forward edges home -> p1 and p1 -> p2, the orphaned pages of
    the sitemap [{home, p1, p2, p3}] are [home] and [p3] (no link points to
    the homepage either), and breadth-first search from [home] returns
    exactly the depths [{home: 0, p1: 1, p2: 2}], without [p3]. *)
Theorem two_edge_graph_orphans_and_depths (lib : UrlLib) (home p1 p2 p3 : string) :
  NoDup [home; p1; p2; p3] ->
  p1 <> "" -> p2 <> "" ->
  Utils.normalize_url p1 = p1 -> Utils.normalize_url p2 = p2 ->
  Utils.is_same_domain p1 home = true -> Utils.is_same_domain p2 p1 = true ->
  link_graph (with_two_edges home p1 p2) = <[p1 := {[p2]}]> (<[home := {[p1]}]> ∅) /\
  find_orphaned_pages (with_two_edges home p1 p2) {[home; p1; p2; p3]} = {[home; p3]} /\
  (forall fuel, (3 <= fuel)%nat ->
     exists analyzer',
       find_link_depth fuel (with_two_edges home p1 p2) home
       = Some (<[p2 := 2%nat]> (<[p1 := 1%nat]> {[home := 0%nat]}), analyzer')) /\
  (<[p2 := 2%nat]> (<[p1 := 1%nat]> ({[home := 0%nat]} : gmap string nat))) !! p3 = None.
Proof.
  intros Hdistinct Hp1 Hp2 Hn1 Hn2 Hd1 Hd2.
  split; [|split; [|split]].
  - exact (proj1 (analyzer_graphs home p1 p2 p3 Hdistinct Hp1 Hp2 Hn1 Hn2 Hd1 Hd2)).
  - exact (two_edges_orphans home p1 p2 p3 Hdistinct Hp1 Hp2 Hn1 Hn2 Hd1 Hd2).
  - intros fuel Hfuel.
    exact (two_edges_depths home p1 p2 p3 Hdistinct Hp1 Hp2 Hn1 Hn2 Hd1 Hd2 fuel Hfuel).
  - exact (two_edges_unreachable home p1 p2 p3 Hdistinct Hp1 Hp2 Hn1 Hn2 Hd1 Hd2).
Qed.

(** The theorem at four pages of example.com. *)
Lemma two_edge_graph_orphans_and_depths_witness :
  find_orphaned_pages two_edges sitemap = {[home; page3]} /\
  exists analyzer',
    find_link_depth 3 two_edges home
    = Some (<[page2 := 2%nat]> (<[page1 := 1%nat]> {[home := 0%nat]}), analyzer').
Proof.
  assert (Hdistinct : NoDup [home; page1; page2; page3]).
  { apply (bool_decide_eq_true_1 (NoDup [home; page1; page2; page3])).
    vm_compute. reflexivity. }
  assert (Hp1 : page1 <> "") by discriminate.
  assert (Hp2 : page2 <> "") by discriminate.
  destruct (two_edge_graph_orphans_and_depths PyUrl.model home page1 page2 page3
              Hdistinct Hp1 Hp2 eq_refl eq_refl eq_refl eq_refl)
    as (_ & Horphans & Hdepths & _).
  split; [exact Horphans|]. apply Hdepths. apply le_n.
Defined.

(** C2 as stated fails: on the graph of the claim the orphaned pages are
    not just [p3]. *)
Lemma two_edge_graph_orphans_not_only_p3 :
  find_orphaned_pages two_edges sitemap <> {[page3]}.
Proof.
  intros Heq.
  assert (Hhome : home ∈ find_orphaned_pages two_edges sitemap).
  { apply (bool_decide_eq_true_1 (home ∈ find_orphaned_pages two_edges sitemap)).
    vm_compute. reflexivity. }
  rewrite Heq in Hhome. apply elem_of_singleton in Hhome. discriminate.
Qed.

End LinkGraphFacts.

(** * Further properties of the code *)

(** ** The summary counters *)

Module SummaryFacts.
Import Models Counting Examples.

Lemma occurrences_app `{EqDecision A} (x : A) l1 l2 :
  occurrences x (l1 ++ l2) = (occurrences x l1 + occurrences x l2)%nat.
Proof. unfold occurrences. rewrite List.filter_app, length_app. reflexivity. Qed.

Lemma bump_lookup `{Countable K} (d : gmap K nat) k k' :
  bump d k !! k' = if decide (k = k') then Some (default 0%nat (d !! k) + 1)%nat else d !! k'.
Proof. unfold bump. apply lookup_insert. Qed.

(** A counter dictionary after a sequence of bumps. *)
Lemma fold_bump_lookup `{Countable K} (l : list K) : forall (d : gmap K nat) k,
  fold_left bump l d !! k
  = if (occurrences k l =? 0)%nat then d !! k
    else Some (default 0%nat (d !! k) + occurrences k l)%nat.
Proof.
  induction l as [|x l IH]; intros d k; [reflexivity|].
  cbn [fold_left]. rewrite IH, bump_lookup.
  unfold occurrences. cbn [List.filter].
  destruct (decide (x = k)) as [->|Hne].
  - rewrite bool_decide_eq_true_2 by reflexivity. cbn [length default].
    destruct (Nat.eqb_spec (length (List.filter (fun y => bool_decide (y = k)) l)) 0)
      as [->|_]; cbn [Nat.eqb]; unfold id; f_equal; lia.
  - rewrite bool_decide_eq_false_2 by exact Hne. reflexivity.
Qed.

Lemma add_results_common_issues rs : forall self,
  common_issues (add_results self rs) = fold_left bump (all_issues rs) (common_issues self).
Proof.
  induction rs as [|r rs IH]; intros self; [reflexivity|].
  rewrite ModelsFacts.add_results_cons, IH. unfold all_issues.
  cbn [List.map concat]. rewrite fold_left_app. reflexivity.
Qed.

Lemma add_results_status_codes rs : forall self,
  status_codes (add_results self rs)
  = fold_left bump (counted_statuses rs) (status_codes self).
Proof.
  induction rs as [|r rs IH]; intros self; [reflexivity|].
  rewrite ModelsFacts.add_results_cons, IH. unfold counted_statuses.
  cbn [omap list_omap]. unfold add_result at 1. cbn [status_codes].
  destruct (status r) as [code|]; [|reflexivity].
  destruct (truthy (Some code)); reflexivity.
Qed.

Lemma add_results_total_issues rs : forall self,
  total_issues (add_results self rs) = (total_issues self + length (all_issues rs))%nat.
Proof.
  induction rs as [|r rs IH]; intros self.
  - unfold all_issues. simpl. lia.
  - rewrite ModelsFacts.add_results_cons, IH. unfold all_issues.
    cbn [List.map concat]. rewrite length_app. unfold add_result. cbn [total_issues].
    destruct (issues r) as [|i l]; simpl; lia.
Qed.

Lemma count_with_issues_le rs :
  (count_with_issues rs <= length rs)%nat /\
  (count_with_issues rs <= length (all_issues rs))%nat.
Proof.
  unfold count_with_issues, all_issues.
  induction rs as [|r rs [IH1 IH2]]; [simpl; lia|].
  cbn [List.filter List.map concat]. rewrite length_app.
  destruct (issues r) as [|i l]; simpl in *; lia.
Qed.

(** X1: after any sequence of additions to a fresh summary, [total_pages]
    is the number of results added, [pages_with_issues] the number of
    results with a non-empty issue list, [total_issues] the total length of
    their issue lists; so [pages_with_issues] exceeds neither
    [total_pages] nor [total_issues]. *)
Theorem summary_counters_consistent (rs : list PageResult) :
  total_pages (add_results new_AuditSummary rs) = length rs /\
  pages_with_issues (add_results new_AuditSummary rs) = count_with_issues rs /\
  total_issues (add_results new_AuditSummary rs) = length (all_issues rs) /\
  (pages_with_issues (add_results new_AuditSummary rs)
   <= total_pages (add_results new_AuditSummary rs))%nat /\
  (pages_with_issues (add_results new_AuditSummary rs)
   <= total_issues (add_results new_AuditSummary rs))%nat.
Proof.
  rewrite ModelsFacts.add_results_total_pages, ModelsFacts.add_results_pages_with_issues,
    add_results_total_issues.
  cbn [total_pages pages_with_issues total_issues new_AuditSummary].
  destruct (count_with_issues_le rs) as [H1 H2].
  repeat split; lia.
Qed.

(** X2: [common_issues] maps every issue text to the number of times it
    occurs in the issue lists of the results added, repetitions within one
    result included, and has no entry for a text that never occurred. *)
Theorem common_issues_counts_occurrences (rs : list PageResult) (issue : string) :
  common_issues (add_results new_AuditSummary rs) !! issue
  = counter_entry (occurrences issue (all_issues rs)).
Proof.
  rewrite add_results_common_issues, fold_bump_lookup.
  cbn [common_issues new_AuditSummary]. rewrite lookup_empty. reflexivity.
Qed.

(** X3: [status_codes] maps every status code to the number of results
    added with that status; results without a status, or with status 0,
    are not counted anywhere. *)
Theorem status_codes_count_results (rs : list PageResult) (code : Z) :
  status_codes (add_results new_AuditSummary rs) !! code
  = counter_entry
      (if (code =? 0)%Z then 0%nat
       else length (List.filter (fun r => bool_decide (status r = Some code)) rs)).
Proof.
  rewrite add_results_status_codes, fold_bump_lookup.
  cbn [status_codes new_AuditSummary]. rewrite lookup_empty. cbn [default].
  unfold counter_entry.
  assert (Hocc : occurrences code (counted_statuses rs)
                 = if (code =? 0)%Z then 0%nat
                   else length (List.filter (fun r => bool_decide (status r = Some code)) rs)).
  { unfold occurrences, counted_statuses.
    induction rs as [|r rs IH]; [destruct (code =? 0)%Z; reflexivity|].
    cbn [omap list_omap List.filter].
    destruct (status r) as [c|] eqn:Hst; cbn [truthy].
    - destruct (Z.eqb_spec c 0) as [Hc|Hc]; cbn [negb].
      + rewrite IH. destruct (Z.eqb_spec code 0) as [Hcode|Hcode]; [reflexivity|].
        rewrite bool_decide_eq_false_2 by congruence. reflexivity.
      + cbn [List.filter].
        destruct (decide (c = code)) as [Heq|Hne].
        * rewrite !bool_decide_eq_true_2 by congruence. cbn [length]. rewrite IH.
          destruct (Z.eqb_spec code 0) as [Hcode|Hcode]; [congruence|reflexivity].
        * rewrite !bool_decide_eq_false_2 by congruence. exact IH.
    - rewrite IH. rewrite bool_decide_eq_false_2 by congruence. reflexivity. }
  rewrite Hocc. destruct (_ =? 0)%nat; reflexivity.
Qed.

End SummaryFacts.

(** ** URL and text helpers *)

Module UtilsMoreFacts.
Import PyStr Utils Text.

Section WithLib.
Context `{lib : UrlLib}.

Lemma keep_first_seen_app a : forall b,
  keep_first_seen (a ++ b)
  = keep_first_seen a
    ++ List.filter (fun u => negb (bool_decide (u ∈ a))) (keep_first_seen b).
Proof.
  induction a as [|x a IH]; intros b.
  - cbn [app keep_first_seen]. symmetry. apply HeadingsFacts.filter_all.
    apply Forall_forall. intros u _.
    rewrite bool_decide_eq_false_2 by apply not_elem_of_nil. reflexivity.
  - cbn [app keep_first_seen]. rewrite IH, List.filter_app. cbn [app]. do 2 f_equal.
    generalize (keep_first_seen b) as l. intros l.
    induction l as [|y l IHl]; [reflexivity|]. cbn [List.filter].
    destruct (bool_decide_reflect (y ∈ a)) as [Hin|Hnin]; cbn [negb].
    + rewrite bool_decide_eq_true_2 by (apply elem_of_cons; right; exact Hin).
      cbn [negb]. exact IHl.
    + cbn [List.filter]. unfold differs at 1.
      destruct (bool_decide_reflect (y = x)) as [->|Hne]; cbn [negb].
      * rewrite bool_decide_eq_true_2 by (apply elem_of_cons; left; reflexivity).
        cbn [negb]. exact IHl.
      * rewrite bool_decide_eq_false_2
          by (rewrite elem_of_cons; intros [?|?]; [exact (Hne H)|exact (Hnin H)]).
        cbn [negb]. f_equal. exact IHl.
Qed.

Lemma candidates_app l1 l2 : candidates (l1 ++ l2) = candidates l1 ++ candidates l2.
Proof. unfold candidates. rewrite List.map_app, List.filter_app. reflexivity. Qed.

Lemma candidates_elem x urls :
  x ∈ candidates urls <-> x <> "" /\ exists u, u ∈ urls /\ normalize_url u = x.
Proof.
  unfold candidates. rewrite list_elem_of_In, filter_In, in_map_iff.
  rewrite negb_true_iff, PyStrFacts.is_empty_false.
  split.
  - intros [(u & Hu & Hin) Hne]. split; [exact Hne|].
    exists u. split; [apply list_elem_of_In, Hin | exact Hu].
  - intros [Hne (u & Hin & Hu)]. split; [|exact Hne].
    exists u. split; [exact Hu | apply list_elem_of_In, Hin].
Qed.

Lemma keep_first_seen_length l : (length (keep_first_seen l) <= length l)%nat.
Proof.
  induction l as [|x l IH]; [reflexivity|]. cbn [keep_first_seen length].
  pose proof (List.filter_length_le (differs x) (keep_first_seen l)). lia.
Qed.

End WithLib.

(** X5: [is_same_domain], with its [except], is symmetric and
    transitive, and it is reflexive exactly on the URLs that [urlparse]
    accepts: for a URL on which [urlparse] raises, [is_same_domain(u, u)]
    is [False]. Two URLs that [urlparse] accepts and in which it finds no
    network location, such as two bare host names without a scheme, are
    of the same domain. Where [urlparse] raises on neither URL the
    function is [Utils.is_same_domain]. *)
Theorem is_same_domain_equivalence (lib : UrlLib) (urlparse_raises : string -> bool) :
  (forall u, SameDomain.is_same_domain urlparse_raises u u = negb (urlparse_raises u)) /\
  (forall u v, SameDomain.is_same_domain urlparse_raises u v
               = SameDomain.is_same_domain urlparse_raises v u) /\
  (forall u v w,
     SameDomain.is_same_domain urlparse_raises u v = true ->
     SameDomain.is_same_domain urlparse_raises v w = true ->
     SameDomain.is_same_domain urlparse_raises u w = true) /\
  (forall u v,
     urlparse_raises u = false -> urlparse_raises v = false ->
     SameDomain.is_same_domain urlparse_raises u v = is_same_domain u v
     /\ (urlparse_netloc u = "" -> urlparse_netloc v = "" ->
         SameDomain.is_same_domain urlparse_raises u v = true)).
Proof.
  unfold SameDomain.is_same_domain, is_same_domain.
  split; [|split; [|split; [|intros u v Hu Hv; split]]].
  - intros u. destruct (urlparse_raises u); [reflexivity|].
    apply bool_decide_eq_true_2. reflexivity.
  - intros u v. destruct (urlparse_raises u), (urlparse_raises v); try reflexivity.
    apply bool_decide_ext. split; congruence.
  - intros u v w Huv Hvw.
    destruct (urlparse_raises u); [discriminate|].
    destruct (urlparse_raises v); [discriminate|].
    destruct (urlparse_raises w); [discriminate|].
    apply bool_decide_eq_true_1 in Huv. apply bool_decide_eq_true_1 in Hvw.
    apply bool_decide_eq_true_2. congruence.
  - rewrite Hu, Hv. reflexivity.
  - intros Hnu Hnv. rewrite Hu, Hv. apply bool_decide_eq_true_2.
    rewrite Hnu, Hnv. reflexivity.
Qed.

(** X6: the list that [deduplicate_urls] returns has no repetition and no
    empty string; it holds exactly the non-empty normalized forms of the
    input URLs, and is never longer than the input. *)
Theorem deduplicate_urls_distinct_normalized (lib : UrlLib) (urls : list string) :
  NoDup (deduplicate_urls urls) /\
  (forall x, x ∈ deduplicate_urls urls <->
             x <> "" /\ exists u, u ∈ urls /\ normalize_url u = x) /\
  (length (deduplicate_urls urls) <= length urls)%nat.
Proof.
  rewrite UtilsFacts.deduplicate_urls_spec. split; [|split].
  - apply UtilsFacts.keep_first_seen_NoDup.
  - intros x. rewrite UtilsFacts.keep_first_seen_elem. apply candidates_elem.
  - etransitivity; [apply keep_first_seen_length|].
    unfold candidates.
    etransitivity; [apply List.filter_length_le|]. rewrite length_map. reflexivity.
Qed.

(** X7: deduplicating a list that was extended at its end keeps the
    result for the shorter list as a prefix, followed by the entries of
    the extension that are new. *)
Theorem deduplicate_urls_app (lib : UrlLib) (urls more : list string) :
  deduplicate_urls (urls ++ more)
  = deduplicate_urls urls
    ++ List.filter (fun u => negb (bool_decide (u ∈ deduplicate_urls urls)))
         (deduplicate_urls more).
Proof.
  rewrite !UtilsFacts.deduplicate_urls_spec, candidates_app, keep_first_seen_app.
  f_equal. apply List.filter_ext. intros u. f_equal.
  apply bool_decide_ext. symmetry. apply UtilsFacts.keep_first_seen_elem.
Qed.

End UtilsMoreFacts.

(** ** Text cleaning and word counting *)

Module TextFacts.
Import PyStr Utils Text.

Lemma lstrip_starts_word s : lstrip s = "" \/ starts_word (lstrip s) = true.
Proof.
  induction s as [|c s IH]; [left; reflexivity|]. cbn [lstrip].
  destruct (is_space c) eqn:Hc; [exact IH|]. right. cbn [starts_word]. rewrite Hc.
  reflexivity.
Qed.

Lemma lstrip_fixed s : s = "" \/ starts_word s = true -> lstrip s = s.
Proof.
  intros [->|Hs]; [reflexivity|]. destruct s as [|c s]; [reflexivity|].
  cbn [starts_word] in Hs. cbn [lstrip]. apply negb_true_iff in Hs. rewrite Hs.
  reflexivity.
Qed.

Lemma rstrip_starts_word s : starts_word (rstrip s) = starts_word s.
Proof.
  destruct s as [|c s]; [reflexivity|]. cbn [rstrip starts_word].
  destruct (is_space c) eqn:Hc; cbn [andb negb].
  - destruct (is_empty (rstrip s)); cbn [starts_word]; [reflexivity|].
    rewrite Hc. reflexivity.
  - cbn [starts_word]. rewrite Hc. reflexivity.
Qed.

Lemma rstrip_idempotent s : rstrip (rstrip s) = rstrip s.
Proof.
  induction s as [|c s IH]; [reflexivity|]. cbn [rstrip].
  destruct (is_space c && is_empty (rstrip s)) eqn:Hcond; [reflexivity|].
  cbn [rstrip]. rewrite IH, Hcond. reflexivity.
Qed.

Lemma strip_idempotent s : strip (strip s) = strip s.
Proof.
  unfold strip. rewrite (lstrip_fixed (rstrip (lstrip s))).
  - apply rstrip_idempotent.
  - destruct (lstrip_starts_word s) as [->|Hs]; [left; reflexivity|].
    right. rewrite rstrip_starts_word. exact Hs.
Qed.

(** *** Single spacing *)

Lemma collapse_single_spaced s : forall r, single_spaced r (collapse_spaces r s) = true.
Proof.
  induction s as [|c s IH]; intros r; [reflexivity|]. cbn [collapse_spaces].
  destruct (is_space c) eqn:Hc.
  - destruct r; [apply IH|]. cbn [single_spaced]. rewrite IH. reflexivity.
  - cbn [single_spaced]. rewrite Hc. apply IH.
Qed.

Lemma single_spaced_weaken s : single_spaced true s = true -> single_spaced false s = true.
Proof.
  destruct s as [|c s]; [reflexivity|]. cbn [single_spaced].
  destruct (is_space c); [|exact id]. rewrite andb_false_r. discriminate.
Qed.

Lemma lstrip_single_spaced s r :
  single_spaced r s = true -> single_spaced true (lstrip s) = true.
Proof.
  revert r. induction s as [|c s IH]; intros r Hs; [reflexivity|].
  cbn [lstrip]. cbn [single_spaced] in Hs. destruct (is_space c) eqn:Hc.
  - apply andb_true_iff in Hs as [_ Hs]. exact (IH true Hs).
  - cbn [single_spaced]. rewrite Hc. exact Hs.
Qed.

Lemma rstrip_single_spaced s : forall r,
  single_spaced r s = true -> single_spaced r (rstrip s) = true.
Proof.
  induction s as [|c s IH]; intros r Hs; [reflexivity|].
  cbn [rstrip]. cbn [single_spaced] in Hs.
  destruct (is_space c && is_empty (rstrip s)) eqn:Hcond; [reflexivity|].
  cbn [single_spaced]. destruct (is_space c).
  - apply andb_true_iff in Hs as [Hc Hs]. rewrite Hc. exact (IH true Hs).
  - exact (IH false Hs).
Qed.

(** Collapsing changes nothing in a text that is single-spaced. *)
Lemma collapse_fixed s : forall r a,
  (r = true -> a = true) -> single_spaced a s = true -> collapse_spaces r s = s.
Proof.
  induction s as [|c s IH]; intros r a Hra Hs; [reflexivity|].
  cbn [collapse_spaces]. cbn [single_spaced] in Hs. destruct (is_space c).
  - apply andb_true_iff in Hs as [Hc Hs]. apply andb_true_iff in Hc as [Hc Ha].
    apply negb_true_iff in Ha. destruct r; [rewrite Hra in Ha; congruence|].
    apply Ascii.eqb_eq in Hc. subst c. f_equal. exact (IH true true (fun _ => eq_refl) Hs).
  - f_equal. apply (IH false false); [discriminate|exact Hs].
Qed.

Lemma clean_text_single_spaced t : single_spaced true (clean_text t) = true.
Proof.
  unfold clean_text. destruct (is_empty t); [reflexivity|]. unfold strip.
  apply rstrip_single_spaced, (lstrip_single_spaced _ false), collapse_single_spaced.
Qed.

(** *** Words *)

Lemma split_lstrip s : split (lstrip s) = split s.
Proof.
  induction s as [|c s IH]; [reflexivity|]. cbn [lstrip split].
  destruct (is_space c) eqn:Hc; [exact IH|]. cbn [split]. rewrite Hc. reflexivity.
Qed.

Lemma split_rstrip s : split (rstrip s) = split s.
Proof.
  induction s as [|c s IH]; [reflexivity|]. cbn [rstrip split].
  destruct (is_space c) eqn:Hc; cbn [andb].
  - destruct (is_empty (rstrip s)) eqn:He.
    + apply PyStrFacts.is_empty_true in He. rewrite He in IH. rewrite <- IH. reflexivity.
    + cbn [split]. rewrite Hc. exact IH.
  - cbn [split]. rewrite Hc. unfold attach. rewrite rstrip_starts_word, IH. reflexivity.
Qed.

Lemma collapse_starts_word s : starts_word (collapse_spaces false s) = starts_word s.
Proof.
  destruct s as [|c s]; [reflexivity|]. cbn [collapse_spaces starts_word].
  destruct (is_space c) eqn:Hc; cbn [starts_word]; [|rewrite Hc]; reflexivity.
Qed.

Lemma split_collapse s : forall r, split (collapse_spaces r s) = split s.
Proof.
  induction s as [|c s IH]; intros r; [reflexivity|]. cbn [collapse_spaces split].
  destruct (is_space c) eqn:Hc.
  - destruct r; [apply IH|]. cbn [split]. apply IH.
  - cbn [split]. rewrite Hc. unfold attach. rewrite collapse_starts_word, IH. reflexivity.
Qed.

Lemma split_clean_text t : split (clean_text t) = split t.
Proof.
  unfold clean_text. destruct (is_empty t) eqn:He.
  - apply PyStrFacts.is_empty_true in He. subst t. reflexivity.
  - unfold strip. rewrite split_rstrip, split_lstrip, split_collapse. reflexivity.
Qed.

Lemma count_words_split t :
  count_words t = length (List.filter (fun w => (2 <=? String.length w)%nat) (split t)).
Proof. unfold count_words. destruct t; reflexivity. Qed.

(** X8: [clean_text] is idempotent, and its result needs no further
    [strip()]: it has no whitespace at either end, and no whitespace but
    single blanks inside. *)
Theorem clean_text_idempotent (t : string) :
  clean_text (clean_text t) = clean_text t /\
  strip (clean_text t) = clean_text t /\
  single_spaced true (clean_text t) = true.
Proof.
  assert (Hstrip : strip (clean_text t) = clean_text t).
  { unfold clean_text. destruct (is_empty t); [reflexivity|]. apply strip_idempotent. }
  split; [|split; [exact Hstrip | apply clean_text_single_spaced]].
  unfold clean_text at 1. destruct (is_empty (clean_text t)) eqn:He.
  - apply PyStrFacts.is_empty_true in He. symmetry. exact He.
  - rewrite (collapse_fixed (clean_text t) false false);
      [exact Hstrip | discriminate |].
    apply single_spaced_weaken, clean_text_single_spaced.
Qed.

(** X9: cleaning a text does not change its words, so [count_words] gives
    the same count before and after [clean_text]; the count is at most
    half the length of the text. *)
Theorem count_words_after_clean_text (t : string) :
  split (clean_text t) = split t /\
  count_words (clean_text t) = count_words t /\
  (2 * count_words t <= String.length t)%nat.
Proof.
  split; [apply split_clean_text|]. split.
  - rewrite !count_words_split, split_clean_text. reflexivity.
  - rewrite count_words_split.
    assert (Hsum : forall s,
      (fold_right (fun w n => String.length w + n) 0 (split s) <= String.length s)%nat).
    { induction s as [|c s IH]; [reflexivity|]. cbn [split String.length].
      destruct (is_space c); [lia|]. unfold attach.
      destruct (starts_word s); [|cbn [fold_right String.length]; lia].
      destruct (split s) as [|w ws]; cbn [fold_right String.length] in *; lia. }
    assert (Hcount : forall ws : list string,
      (2 * length (List.filter (fun w => (2 <=? String.length w)%nat) ws)
       <= fold_right (fun w n => String.length w + n) 0 ws)%nat).
    { induction ws as [|w ws IH]; [reflexivity|]. cbn [List.filter fold_right].
      destruct (Nat.leb_spec 2 (String.length w)); cbn [length]; lia. }
    etransitivity; [apply Hcount | apply Hsum].
Qed.

End TextFacts.

(** ** What the crawl yields *)

Module CrawlMoreFacts.
Import Models Crawler CrawlSpec Examples.

Section WithEnvironment.
Context `{lib : UrlLib}.
Variable config : AuditConfig.
Variable robots_allows : string -> bool.
Variable sitemap_urls : list string.
Variable discover_from_page : nat -> string -> list string.

Lemma add_url_to_queue_admissible st url :
  queue_admissible robots_allows st ->
  queue_admissible robots_allows (add_url_to_queue robots_allows st url).
Proof.
  intros Hadm. unfold add_url_to_queue.
  destruct (negb (bool_decide (url ∈ discovered_urls st))); cbn [andb]; [|exact Hadm].
  destruct (Utils.is_valid_url url) eqn:Hvalid; [|exact Hadm].
  destruct (robots_allows url) eqn:Hrobots; [|exact Hadm].
  intros u Hu. cbn [url_queue] in Hu. apply elem_of_app in Hu as [Hu|Hu].
  - exact (Hadm u Hu).
  - apply list_elem_of_singleton in Hu. subst u. split; assumption.
Qed.

Lemma add_url_to_queue_size st url :
  (size (discovered_urls (add_url_to_queue robots_allows st url))
   <= S (size (discovered_urls st)))%nat.
Proof.
  unfold add_url_to_queue.
  destruct (bool_decide_reflect (url ∈ discovered_urls st)) as [Hin|Hnew];
    cbn [negb andb]; [lia|].
  destruct (Utils.is_valid_url url); [|lia].
  destruct (robots_allows url); [|lia].
  cbn [discovered_urls]. rewrite size_union, size_singleton; [lia|].
  apply disjoint_singleton_l. exact Hnew.
Qed.

Lemma fold_add_url_to_queue_admissible urls : forall st,
  queue_admissible robots_allows st ->
  queue_admissible robots_allows (fold_left (add_url_to_queue robots_allows) urls st).
Proof.
  induction urls as [|u urls IH]; intros st Hadm; [exact Hadm|].
  cbn [fold_left]. apply IH, add_url_to_queue_admissible, Hadm.
Qed.

Lemma fold_add_url_to_queue_size urls : forall st,
  (size (discovered_urls (fold_left (add_url_to_queue robots_allows) urls st))
   <= size (discovered_urls st) + length urls)%nat.
Proof.
  induction urls as [|u urls IH]; intros st; [simpl; lia|].
  cbn [fold_left length]. etransitivity; [apply IH|].
  pose proof (add_url_to_queue_size st u). lia.
Qed.

Lemma discover_loop_admissible urls : forall st,
  queue_admissible robots_allows st ->
  queue_admissible robots_allows (discover_loop config robots_allows st urls).
Proof.
  induction urls as [|u urls IH]; intros st Hadm; [exact Hadm|].
  cbn [discover_loop]. destruct (_ <? _)%Z; [|exact Hadm].
  apply IH, add_url_to_queue_admissible, Hadm.
Qed.

Lemma discover_loop_within_budget urls : forall st,
  within_budget config st ->
  within_budget config (discover_loop config robots_allows st urls).
Proof.
  unfold within_budget.
  induction urls as [|u urls IH]; intros st Hst; [exact Hst|].
  cbn [discover_loop].
  destruct (Z.ltb_spec (Z.of_nat (size (discovered_urls st))) (max_pages config));
    [|exact Hst].
  apply IH. pose proof (add_url_to_queue_size st u). lia.
Qed.

Lemma discover_loop_keeps urls : forall st u,
  u ∈ discovered_urls st ->
  u ∈ discovered_urls (discover_loop config robots_allows st urls).
Proof.
  induction urls as [|x urls IH]; intros st u Hu; [exact Hu|].
  cbn [discover_loop]. destruct (_ <? _)%Z; [|exact Hu]. apply IH.
  unfold add_url_to_queue. destruct (negb _ && _); [|exact Hu].
  destruct (robots_allows x); [|exact Hu].
  cbn [discovered_urls]. apply elem_of_union_r, Hu.
Qed.

Lemma slice_to_length {A} (n : Z) (l : list A) :
  (0 <= n)%Z -> (Z.of_nat (length (slice_to n l)) <= n)%Z.
Proof.
  intros Hn. unfold slice_to. destruct (Z.leb_spec 0 n); [|lia].
  rewrite length_take. lia.
Qed.

Lemma initialize_urls_admissible :
  queue_admissible robots_allows (initialize_urls config robots_allows sitemap_urls init).
Proof.
  assert (Hinit : queue_admissible robots_allows init).
  { intros u Hu. inversion Hu. }
  unfold initialize_urls. destruct (negb _).
  - apply fold_add_url_to_queue_admissible, Hinit.
  - apply add_url_to_queue_admissible, Hinit.
Qed.

Lemma initialize_urls_within_budget :
  (0 < max_pages config)%Z ->
  within_budget config (initialize_urls config robots_allows sitemap_urls init).
Proof.
  intros Hbudget. unfold within_budget, initialize_urls. destruct (negb _).
  - pose proof (fold_add_url_to_queue_size
                  (slice_to (max_pages config)
                     (Utils.filter_urls_by_domain sitemap_urls (domain config))) init)
      as Hsize.
    pose proof (slice_to_length (max_pages config)
                  (Utils.filter_urls_by_domain sitemap_urls (domain config))) as Hlen.
    change (size (discovered_urls init)) with (size (∅ : gset string)) in Hsize.
    rewrite size_empty in Hsize. lia.
  - pose proof (add_url_to_queue_size init (Utils.normalize_url (domain config))) as Hsize.
    change (size (discovered_urls init)) with (size (∅ : gset string)) in Hsize.
    rewrite size_empty in Hsize. lia.
Qed.

Lemma resume_admissible i st url :
  queue_admissible robots_allows st ->
  queue_admissible robots_allows
    (resume config robots_allows discover_from_page i st url).
Proof.
  intros Hadm. unfold resume, discover_more_urls.
  destruct (_ <? _)%Z; [|exact Hadm].
  destruct (_ <=? _)%Z; [exact Hadm|].
  apply discover_loop_admissible. exact Hadm.
Qed.

Lemma resume_within_budget i st url :
  within_budget config st ->
  within_budget config (resume config robots_allows discover_from_page i st url).
Proof.
  intros Hst. unfold resume, discover_more_urls.
  destruct (_ <? _)%Z; [|exact Hst].
  destruct (_ <=? _)%Z; [exact Hst|].
  apply discover_loop_within_budget. exact Hst.
Qed.

Lemma frontier_crawled_discovered st :
  frontier_ok st -> forall u, u ∈ crawled_urls st -> u ∈ discovered_urls st.
Proof. intros (_ & _ & Hcrawled & _). exact Hcrawled. Qed.

(** What holds of the URLs yielded from a state that satisfies the
    invariants. *)
Lemma crawl_loop_yields fuel : forall i st urls st',
  frontier_ok st -> queue_admissible robots_allows st ->
  crawl_loop config robots_allows discover_from_page fuel i st = Some (urls, st') ->
  NoDup urls /\
  (forall u, u ∈ urls ->
     u <> "" /\ Utils.is_valid_url u = true /\ robots_allows u = true /\
     (u ∉ crawled_urls st) /\ (u ∈ discovered_urls st')) /\
  (forall u, u ∈ discovered_urls st -> u ∈ discovered_urls st') /\
  (within_budget config st -> within_budget config st') /\
  (forall u, u ∈ crawled_urls st' -> u ∈ discovered_urls st').
Proof.
  induction fuel as [|fuel IH]; intros i st urls st' Hok Hadm Hrun;
    cbn [crawl_loop] in Hrun;
    destruct (get_next_url config st) as [[url|] st1] eqn:Hnext.
  - pose proof (CrawlerFacts.get_next_url_Some _ _ _ _ Hnext) as (_ & Hc & Hd & _).
    destruct (CrawlerFacts.get_next_url_ok _ _ _ _ Hok Hnext) as (Hok1 & _).
    destruct (PyStr.is_empty url); [|discriminate]. injection Hrun as <- <-.
    split; [constructor|]. split; [intros u Hu; inversion Hu|].
    split; [intros u Hu; rewrite Hd; exact Hu|].
    split; [unfold within_budget; rewrite Hd; auto|].
    apply frontier_crawled_discovered, Hok1.
  - injection Hrun as <- <-.
    assert (st1 = st) as ->.
    { unfold get_next_url in Hnext. destruct (url_queue st); [congruence|].
      destruct (_ <=? _)%Z; congruence. }
    split; [constructor|]. split; [intros u Hu; inversion Hu|].
    split; [auto|]. split; [auto|]. apply frontier_crawled_discovered, Hok.
  - pose proof (CrawlerFacts.get_next_url_Some _ _ _ _ Hnext) as (Hq & Hc & Hd & _).
    destruct (CrawlerFacts.get_next_url_ok _ _ _ _ Hok Hnext)
      as (Hok1 & Hnq & Hdisc & Hnc).
    assert (Hadm1 : queue_admissible robots_allows st1).
    { intros u Hu. apply Hadm. rewrite Hq. apply elem_of_cons. right. exact Hu. }
    destruct (PyStr.is_empty url) eqn:Hempty.
    { injection Hrun as <- <-.
      split; [constructor|]. split; [intros u Hu; inversion Hu|].
      split; [intros u Hu; rewrite Hd; exact Hu|].
      split; [unfold within_budget; rewrite Hd; auto|].
      apply frontier_crawled_discovered, Hok1. }
    destruct (crawl_loop config robots_allows discover_from_page fuel (S i)
                (resume config robots_allows discover_from_page i st1 url))
      as [[urls1 st2]|] eqn:Hrest; [|discriminate].
    injection Hrun as <- <-.
    destruct (IH _ _ _ _
                (CrawlerFacts.resume_ok config robots_allows discover_from_page i st1 url
                   Hok1 Hnq Hdisc)
                (resume_admissible i st1 url Hadm1) Hrest)
      as (Hnodup & Hall & Hmono & Hbud2 & Hsub).
    assert (Hkept : forall u, u ∈ discovered_urls st1 -> u ∈ discovered_urls st2).
    { intros u Hu. apply Hmono.
      unfold resume, discover_more_urls.
      destruct (_ <? _)%Z; [|exact Hu]. destruct (_ <=? _)%Z; [exact Hu|].
      apply discover_loop_keeps. exact Hu. }
    split; [|split; [|split; [|split; [|exact Hsub]]]].
    + constructor; [|exact Hnodup]. intros Hin.
      destruct (Hall _ Hin) as (_ & _ & _ & Hfresh & _). apply Hfresh.
      rewrite CrawlerFacts.resume_crawled.
      apply elem_of_union_l, elem_of_singleton. reflexivity.
    + intros u Hu. apply elem_of_cons in Hu as [->|Hu].
      * destruct (Hadm url) as [Hvalid Hrobots];
          [rewrite Hq; apply elem_of_cons; left; reflexivity|].
        apply PyStrFacts.is_empty_false in Hempty.
        rewrite <- Hc. repeat split; try assumption. apply Hkept, Hdisc.
      * destruct (Hall _ Hu) as (Hne & Hvalid & Hrobots & Hfresh & Hin).
        repeat split; try assumption. intros Hcr. apply Hfresh.
        rewrite CrawlerFacts.resume_crawled, Hc. apply elem_of_union_r, Hcr.
    + intros u Hu. apply Hkept. rewrite Hd. exact Hu.
    + intros Hbud. apply Hbud2, resume_within_budget.
      unfold within_budget. rewrite Hd. exact Hbud.
  - injection Hrun as <- <-.
    assert (st1 = st) as ->.
    { unfold get_next_url in Hnext. destruct (url_queue st); [congruence|].
      destruct (_ <=? _)%Z; congruence. }
    split; [constructor|]. split; [intros u Hu; inversion Hu|].
    split; [auto|]. split; [auto|]. apply frontier_crawled_discovered, Hok.
Qed.

End WithEnvironment.

(** X10: the crawl loop yields no URL twice and never yields an empty
    URL, a URL that [is_valid_url] rejects or a URL that robots.txt
    disallows. *)
Theorem crawl_yields_only_admissible_urls
    (lib : UrlLib) (config : AuditConfig) (robots_allows : string -> bool)
    (sitemap_urls : list string) (discover_from_page : nat -> string -> list string)
    (fuel : nat) (urls : list string) (st' : State) :
  crawl_urls config robots_allows sitemap_urls discover_from_page fuel = Some (urls, st') ->
  NoDup urls /\
  (forall u, u ∈ urls ->
     u <> "" /\ Utils.is_valid_url u = true /\ robots_allows u = true).
Proof.
  intros Hrun. unfold crawl_urls in Hrun.
  destruct (CrawlerFacts.initialize_urls_ok config robots_allows sitemap_urls) as [Hok _].
  pose proof (initialize_urls_admissible config robots_allows sitemap_urls) as Hadm.
  destruct (crawl_loop_yields config robots_allows discover_from_page
              fuel 0 _ urls st' Hok Hadm Hrun) as (Hnodup & Hall & _).
  split; [exact Hnodup|]. intros u Hu.
  destruct (Hall u Hu) as (Hne & Hvalid & Hrobots & _). auto.
Qed.

(** The theorem at the crawl of the small site. *)
Lemma crawl_yields_only_admissible_urls_witness :
  NoDup ["https://example.com"; "https://example.com/a"].
Proof.
  eapply (proj1 (crawl_yields_only_admissible_urls PyUrl.model small_config
                   (fun _ => true) [] three_links 2 _ _ _)).
  Unshelve. 2: vm_compute; reflexivity.
Defined.

(** X11: with a page budget [max_pages > 0] the discovered set never grows
    beyond [max_pages] URLs, and at the end of the crawl every URL yielded
    or marked as crawled is a discovered URL. *)
Theorem crawl_discovers_within_budget
    (lib : UrlLib) (config : AuditConfig) (robots_allows : string -> bool)
    (sitemap_urls : list string) (discover_from_page : nat -> string -> list string)
    (fuel : nat) (urls : list string) (st' : State) :
  (0 < max_pages config)%Z ->
  crawl_urls config robots_allows sitemap_urls discover_from_page fuel = Some (urls, st') ->
  (Z.of_nat (size (discovered_urls st')) <= max_pages config)%Z /\
  (forall u, u ∈ urls -> u ∈ discovered_urls st') /\
  (forall u, u ∈ crawled_urls st' -> u ∈ discovered_urls st').
Proof.
  intros Hbudget Hrun. unfold crawl_urls in Hrun.
  destruct (CrawlerFacts.initialize_urls_ok config robots_allows sitemap_urls) as [Hok _].
  pose proof (initialize_urls_admissible config robots_allows sitemap_urls) as Hadm.
  pose proof (initialize_urls_within_budget config robots_allows sitemap_urls Hbudget)
    as Hbud.
  destruct (crawl_loop_yields config robots_allows discover_from_page
              fuel 0 _ urls st' Hok Hadm Hrun) as (_ & Hall & _ & Hbud' & Hsub).
  split; [exact (Hbud' Hbud)|]. split; [|exact Hsub].
  intros u Hu. destruct (Hall u Hu) as (_ & _ & _ & _ & Hin). exact Hin.
Qed.

(** The theorem at the crawl of the small site: two URLs discovered for a
    budget of two. *)
Lemma crawl_discovers_within_budget_witness :
  exists st' : State,
    crawl_urls (lib := PyUrl.model) small_config (fun _ => true) [] three_links 2
    = Some (["https://example.com"; "https://example.com/a"], st') /\
    (Z.of_nat (size (discovered_urls st')) <= 2)%Z.
Proof.
  eexists. split; [vm_compute; reflexivity|].
  eapply (proj1 (crawl_discovers_within_budget PyUrl.model small_config
                   (fun _ => true) [] three_links 2 _ _ eq_refl _)).
  Unshelve. 2: vm_compute; reflexivity.
Defined.

End CrawlMoreFacts.

(** ** More on redirect chains *)

Module RedirectsMoreFacts.
Import Redirects RedirectSpec Examples.

Section WithSession.
Context `{lib : UrlLib}.
Variable session_get : nat -> string -> Response + string.
Variable urljoin_error : string -> string -> option string.
Variable urlparse_error : string -> option string.

(** The loop adds at most one issue, a stop reason, and only extends the
    chain; when it is left by an exception it has added no issue. *)
Lemma follow_issues fuel : forall n response current_url chain issues result,
  follow session_get urljoin_error fuel n response current_url chain issues = Some result ->
  chain `prefix_of` chain_of result /\
  exists extra, issues_of result = issues ++ extra /\ (length extra <= 1)%nat /\
                Forall (fun m => m ∈ stop_reasons) extra /\
                (forall c i e, result = Raised c i e -> extra = []).
Proof.
  assert (Hone : forall m c issues, m ∈ stop_reasons ->
            exists extra, issues ++ [m] = issues ++ extra /\ (length extra <= 1)%nat /\
                          Forall (fun m => m ∈ stop_reasons) extra /\
                          (forall c' i e, Ended c (issues ++ [m]) = Raised c' i e ->
                                          extra = [])).
  { intros m c issues Hm. exists [m]. split; [reflexivity|]. split; [reflexivity|].
    split; [constructor; [exact Hm|constructor]|]. discriminate. }
  assert (Hnone : forall (issues : list string) result,
            issues_of result = issues ->
            exists extra, issues_of result = issues ++ extra /\ (length extra <= 1)%nat /\
                          Forall (fun m => m ∈ stop_reasons) extra /\
                          (forall c i e, result = Raised c i e -> extra = [])).
  { intros issues result ->. exists []. rewrite app_nil_r.
    split; [reflexivity|]. split; [simpl; lia|]. split; [constructor|]. reflexivity. }
  induction fuel as [|fuel IH];
    intros n response current_url chain issues result Hrun; cbn [follow] in Hrun.
  - destruct (is_redirect (status_code response) && (length chain <? 10)%nat);
      [discriminate|]. injection Hrun as <-. split; [reflexivity|apply Hnone; reflexivity].
  - destruct (is_redirect (status_code response) && (length chain <? 10)%nat);
      [|injection Hrun as <-; split; [reflexivity|apply Hnone; reflexivity]].
    destruct (location response) as [loc|].
    2: { injection Hrun as <-. split; [reflexivity|]. cbn [issues_of]. apply Hone.
         unfold stop_reasons. rewrite !elem_of_cons. auto. }
    destruct (PyStr.is_empty loc).
    { injection Hrun as <-. split; [reflexivity|]. cbn [issues_of]. apply Hone.
      unfold stop_reasons. rewrite !elem_of_cons. auto. }
    destruct (urljoin_error current_url loc) as [e|].
    { injection Hrun as <-. split; [reflexivity|]. apply Hnone. reflexivity. }
    destruct (bool_decide (urljoin current_url loc ∈ chain)).
    { injection Hrun as <-. split; [reflexivity|]. cbn [issues_of]. apply Hone.
      unfold stop_reasons. rewrite !elem_of_cons. auto. }
    destruct (session_get n (urljoin current_url loc)) as [response'|e].
    + destruct (IH _ _ _ _ _ _ Hrun) as [Hpre Hextra].
      split; [|exact Hextra]. etransitivity; [|exact Hpre].
      apply prefix_app_r. reflexivity.
    + injection Hrun as <-. split; [apply prefix_app_r; reflexivity|].
      cbn [issues_of]. apply Hone.
      unfold stop_reasons. rewrite !elem_of_cons. auto.
Qed.

Lemma schemes_of_returns chain schemes :
  schemes_of urlparse_error chain = inl schemes ->
  schemes = List.map urlparse_scheme chain.
Proof.
  revert schemes. induction chain as [|u chain IH]; intros schemes Hs; cbn [schemes_of] in Hs.
  - injection Hs as <-. reflexivity.
  - destruct (urlparse_error u); [discriminate|].
    destruct (schemes_of urlparse_error chain) as [rest|e]; [|discriminate].
    injection Hs as <-. cbn [List.map]. rewrite (IH rest eq_refl). reflexivity.
Qed.

(** What the analysis after the loop, with the outer [except], appends. *)
Lemma analyze_chain_shape chain issues :
  caught (analyze_chain urlparse_error chain issues).1
    (analyze_chain urlparse_error chain issues).2
  = issues
    ++ (if (3 <? length chain)%nat then [msg_long (length chain)] else [])
    ++ (if (1 <? length chain)%nat
        then match schemes_of urlparse_error chain with
             | inr e => [msg_error e]
             | inl _ =>
                 if (1 <? size (list_to_set (List.map urlparse_scheme chain)
                                  : gset string))%nat
                 then [msg_mixed] else []
             end
        else []).
Proof.
  unfold analyze_chain.
  destruct (Nat.ltb_spec 1 (length chain)) as [H1|H1].
  - destruct (schemes_of urlparse_error chain) as [schemes|e] eqn:Hs.
    + rewrite (schemes_of_returns _ _ Hs).
      destruct (3 <? length chain)%nat; destruct (1 <? size _)%nat;
        cbn [fst snd caught app]; rewrite <- ?app_assoc, ?app_nil_r; reflexivity.
    + destruct (3 <? length chain)%nat;
        cbn [fst snd caught app]; rewrite <- ?app_assoc; reflexivity.
  - replace (3 <? length chain)%nat with false by (symmetry; apply Nat.ltb_ge; lia).
    cbn [fst snd caught app]. rewrite app_nil_r. reflexivity.
Qed.

Lemma msg_error_not_long e : is_long_message (msg_error e) = false.
Proof. vm_compute. reflexivity. Qed.

Lemma msg_error_not_mixed e : msg_error e <> msg_mixed.
Proof. unfold msg_error, msg_mixed. cbv [String.append]. discriminate. Qed.

Lemma msg_long_is_long n : is_long_message (msg_long n) = true.
Proof.
  apply PyStrFacts.startswith_spec. unfold msg_long. eexists (" (" +:+ _). reflexivity.
Qed.

Lemma stop_reason_not_long m : m ∈ stop_reasons -> is_long_message m = false.
Proof.
  unfold stop_reasons. rewrite !elem_of_cons.
  intros [->|[->|[->|Hnil]]]; [vm_compute; reflexivity..|inversion Hnil].
Qed.

Lemma stop_reason_not_mixed m : m ∈ stop_reasons -> m <> msg_mixed.
Proof.
  unfold stop_reasons. rewrite !elem_of_cons.
  intros [->|[->|[->|Hnil]]]; [discriminate..|inversion Hnil].
Qed.

Lemma msg_long_not_mixed n : msg_long n <> msg_mixed.
Proof. unfold msg_long, msg_mixed. cbv [String.append]. discriminate. Qed.

Lemma two_distinct (X : gset string) :
  (1 < size X)%nat <-> exists x y, x ∈ X /\ y ∈ X /\ x <> y.
Proof.
  split.
  - intros Hsize.
    destruct (size_pos_elem_of X) as [x Hx]; [lia|].
    assert (Hrest : (0 < size (X ∖ {[x]}))%nat).
    { rewrite size_difference by (apply singleton_subseteq_l; exact Hx).
      rewrite size_singleton. lia. }
    destruct (size_pos_elem_of _ Hrest) as [y Hy].
    apply elem_of_difference in Hy as [Hy Hne].
    exists x, y. split; [exact Hx|]. split; [exact Hy|].
    intros ->. apply Hne, elem_of_singleton. reflexivity.
  - intros (x & y & Hx & Hy & Hne).
    destruct (Nat.lt_ge_cases 1 (size X)) as [Hlt|Hge]; [exact Hlt|]. exfalso.
    assert (Hcase : size X = 0%nat \/ size X = 1%nat) by lia.
    destruct Hcase as [H0|H1].
    + apply size_empty_inv in H0. apply (not_elem_of_empty (C := gset string) x).
      rewrite <- H0. exact Hx.
    + apply size_1_elem_of in H1 as [z Hz].
      rewrite Hz in Hx, Hy. apply elem_of_singleton in Hx, Hy. congruence.
Qed.

Lemma existsb_app_bool {A} (f : A -> bool) l1 l2 :
  existsb f (l1 ++ l2) = existsb f l1 || existsb f l2.
Proof. apply existsb_app. Qed.

Lemma existsb_none {A} (f : A -> bool) l :
  Forall (fun x => f x = false) l -> existsb f l = false.
Proof. induction 1 as [|x l Hx _ IH]; simpl; [reflexivity|]. rewrite Hx. exact IH. Qed.

(** What [analyze_redirects] returns when the first request is answered:
    the chain of the loop, and either the error of an exception in the
    loop alone, or a stop reason of the loop, if any, followed by what the
    analysis of the chain appends. *)
Lemma analyze_redirects_shape url response chain issues :
  session_get 0 url = inl response ->
  analyze_redirects session_get urljoin_error urlparse_error url = Some (chain, issues) ->
  exists result,
    follow session_get urljoin_error 10 1 response url [url] [] = Some result
    /\ chain = chain_of result
    /\ [url] `prefix_of` chain
    /\ ((exists e, issues = [msg_error e])
        \/ exists extra,
             (length extra <= 1)%nat
             /\ Forall (fun m => m ∈ stop_reasons) extra
             /\ issues
                = extra
                  ++ (if (3 <? length chain)%nat then [msg_long (length chain)] else [])
                  ++ (if (1 <? length chain)%nat
                      then match schemes_of urlparse_error chain with
                           | inr e => [msg_error e]
                           | inl _ =>
                               if (1 <? size (list_to_set
                                                (List.map urlparse_scheme chain)
                                              : gset string))%nat
                               then [msg_mixed] else []
                           end
                      else [])).
Proof.
  intros Hfirst Hrun. unfold analyze_redirects, analyze_redirects_fuel in Hrun.
  rewrite Hfirst in Hrun.
  destruct (follow session_get urljoin_error 10 1 response url [url] [])
    as [result|] eqn:Hloop; [|discriminate].
  exists result. split; [reflexivity|].
  destruct (follow_issues _ _ _ _ _ _ _ Hloop)
    as [Hpre (extra & Hissues & Hlen & Hstop & Hraised)].
  cbn [app] in Hissues.
  destruct result as [chain0 issues0|chain0 issues0 e]; cbn [chain_of issues_of] in *.
  - pose proof (analyze_chain_shape chain0 issues0) as Hshape.
    destruct (analyze_chain urlparse_error chain0 issues0) as [issues1 e1].
    cbn [fst snd] in Hshape. injection Hrun as <- <-.
    split; [reflexivity|]. split; [exact Hpre|]. right. exists extra.
    split; [exact Hlen|]. split; [exact Hstop|]. rewrite Hshape, Hissues. reflexivity.
  - injection Hrun as <- <-. split; [reflexivity|]. split; [exact Hpre|]. left. exists e.
    rewrite Hissues, (Hraised _ _ _ eq_refl). reflexivity.
Qed.

End WithSession.

(** An exception of [urljoin] in the loop: the ring of ten URLs, with a
    [Location] of the fourth answer that [urljoin] rejects. The chain has
    four entries, and the error is the only issue. *)
Lemma urljoin_error_skips_chain_analysis :
  analyze_redirects (lib := PyUrl.model) ring
    (fun base u => if bool_decide (u = "https://example.com/r4")
                   then Some "Invalid IPv6 URL" else None)
    urlparse_returns "https://example.com/r0"
  = Some (["https://example.com/r0"; "https://example.com/r1"; "https://example.com/r2";
           "https://example.com/r3"],
          [msg_error "Invalid IPv6 URL"]).
Proof. vm_compute. reflexivity. Qed.

(** X12: [analyze_redirects] always returns. When the first request
    fails, the chain is empty and the only issue is the analysis error.
    Otherwise the chain starts with the URL analysed; a first response
    that is no redirect gives the chain of that URL alone and no issue;
    at most three issues are reported; the long-chain issue is reported
    only for a chain of more than three entries, and for every such chain
    unless an analysis error is reported (an exception of [urljoin] in
    the loop skips the analysis of the chain). *)
Theorem analyze_redirects_outcomes
    (lib : UrlLib) (session_get : nat -> string -> Response + string)
    (urljoin_error : string -> string -> option string)
    (urlparse_error : string -> option string) (url : string) :
  exists chain issues,
    analyze_redirects session_get urljoin_error urlparse_error url = Some (chain, issues) /\
    match session_get 0 url with
    | inr e => chain = [] /\ issues = [msg_error e]
    | inl response =>
        head chain = Some url /\
        (is_redirect (status_code response) = false -> chain = [url] /\ issues = []) /\
        (length issues <= 3)%nat /\
        (existsb is_long_message issues = true -> (3 < length chain)%nat) /\
        ((forall e, msg_error e ∉ issues) ->
         existsb is_long_message issues = (3 <? length chain)%nat)
    end.
Proof.
  destruct (RedirectsFacts.analyze_redirects_total session_get urljoin_error urlparse_error
              url) as (chain & issues & Hrun & _).
  exists chain, issues. split; [exact Hrun|].
  destruct (session_get 0 url) as [response|e] eqn:Hfirst.
  2: { unfold analyze_redirects, analyze_redirects_fuel in Hrun. rewrite Hfirst in Hrun.
       injection Hrun as <- <-. split; reflexivity. }
  destruct (analyze_redirects_shape session_get urljoin_error urlparse_error
              url response chain issues Hfirst Hrun)
    as (result & Hloop & Hchain & [rest Hrest] & Hissues).
  split; [rewrite Hrest; reflexivity|]. split.
  { intros Hno. cbn [follow] in Hloop. rewrite Hno in Hloop. cbn [andb] in Hloop.
    injection Hloop as <-. cbn [chain_of] in Hchain. subst chain.
    split; [reflexivity|].
    unfold analyze_redirects, analyze_redirects_fuel in Hrun. rewrite Hfirst in Hrun.
    cbn [follow] in Hrun. rewrite Hno in Hrun. cbn in Hrun. injection Hrun as <-.
    reflexivity. }
  destruct Hissues as [[e ->]|(extra & Hlen & Hstop & ->)].
  - split; [cbn [length]; lia|]. split.
    + cbn [existsb]. rewrite msg_error_not_long. discriminate.
    + intros Hnone. exfalso. apply (Hnone e), list_elem_of_here.
  - assert (Hlong : existsb is_long_message
              (extra
               ++ (if (3 <? length chain)%nat then [msg_long (length chain)] else [])
               ++ (if (1 <? length chain)%nat
                   then match schemes_of urlparse_error chain with
                        | inr e => [msg_error e]
                        | inl _ =>
                            if (1 <? size (list_to_set (List.map urlparse_scheme chain)
                                           : gset string))%nat
                            then [msg_mixed] else []
                        end
                   else []))
            = (3 <? length chain)%nat).
    { rewrite !existsb_app_bool, (existsb_none is_long_message extra).
      2: { eapply Forall_impl; [exact Hstop|]. intros m. apply stop_reason_not_long. }
      cbn [orb].
      assert (Hmixed : is_long_message msg_mixed = false) by reflexivity.
      assert (Hlast : existsb is_long_message
                (if (1 <? length chain)%nat
                 then match schemes_of urlparse_error chain with
                      | inr e => [msg_error e]
                      | inl _ =>
                          if (1 <? size (list_to_set (List.map urlparse_scheme chain)
                                         : gset string))%nat
                          then [msg_mixed] else []
                      end
                 else []) = false).
      { destruct (1 <? length chain)%nat; [|reflexivity].
        destruct (schemes_of urlparse_error chain) as [schemes|e].
        - destruct (1 <? size _)%nat; cbn [existsb]; rewrite ?Hmixed; reflexivity.
        - cbn [existsb]. rewrite msg_error_not_long. reflexivity. }
      rewrite Hlast, orb_false_r.
      destruct (3 <? length chain)%nat; cbn [existsb]; [|reflexivity].
      rewrite msg_long_is_long. reflexivity. }
    split; [|split].
    + rewrite !length_app.
      destruct (3 <? length chain)%nat; destruct (1 <? length chain)%nat;
        try destruct (schemes_of urlparse_error chain);
        try destruct (1 <? size _)%nat; cbn [length]; lia.
    + rewrite Hlong. intros Hlt. apply Nat.ltb_lt, Hlt.
    + intros _. exact Hlong.
Qed.

(** X13: the mixed-scheme issue is reported only when two URLs of the
    chain have different schemes, and whenever they have unless an
    analysis error is reported (an exception of [urljoin] or [urlparse]
    skips the check). *)
Theorem mixed_scheme_issue_iff
    (lib : UrlLib) (session_get : nat -> string -> Response + string)
    (urljoin_error : string -> string -> option string)
    (urlparse_error : string -> option string)
    (url : string) (chain issues : list string) :
  analyze_redirects session_get urljoin_error urlparse_error url = Some (chain, issues) ->
  (msg_mixed ∈ issues ->
   exists u v, u ∈ chain /\ v ∈ chain /\ urlparse_scheme u <> urlparse_scheme v)
  /\ ((forall e, msg_error e ∉ issues) ->
      (exists u v, u ∈ chain /\ v ∈ chain /\ urlparse_scheme u <> urlparse_scheme v) ->
      msg_mixed ∈ issues).
Proof.
  intros Hrun.
  assert (Hschemes : (exists u v, u ∈ chain /\ v ∈ chain
                                  /\ urlparse_scheme u <> urlparse_scheme v)
            <-> (1 < size (list_to_set (List.map urlparse_scheme chain) : gset string))%nat).
  { rewrite two_distinct. split.
    - intros (u & v & Hu & Hv & Hne).
      exists (urlparse_scheme u), (urlparse_scheme v).
      rewrite !elem_of_list_to_set, !list_elem_of_In.
      split; [apply in_map, list_elem_of_In, Hu|].
      split; [apply in_map, list_elem_of_In, Hv|exact Hne].
    - intros (x & y & Hx & Hy & Hne).
      rewrite elem_of_list_to_set, list_elem_of_In, in_map_iff in Hx, Hy.
      destruct Hx as (u & <- & Hu). destruct Hy as (v & <- & Hv).
      exists u, v. rewrite !list_elem_of_In. auto. }
  destruct (session_get 0 url) as [response|e] eqn:Hfirst.
  2: { unfold analyze_redirects, analyze_redirects_fuel in Hrun. rewrite Hfirst in Hrun.
       injection Hrun as <- <-. split.
       - intros Hin. apply list_elem_of_singleton in Hin. symmetry in Hin.
         exfalso. exact (msg_error_not_mixed _ Hin).
       - intros _ (u & _ & Hu & _). inversion Hu. }
  destruct (analyze_redirects_shape session_get urljoin_error urlparse_error
              url response chain issues Hfirst Hrun)
    as (result & _ & _ & _ & [[e ->]|(extra & _ & Hstop & ->)]).
  - split.
    + intros Hin. apply list_elem_of_singleton in Hin. symmetry in Hin.
      exfalso. exact (msg_error_not_mixed _ Hin).
    + intros Hnone. exfalso. apply (Hnone e), list_elem_of_here.
  - rewrite Hschemes. split.
    + rewrite !elem_of_app. intros [Hin|[Hin|Hin]].
      * exfalso. rewrite Forall_forall in Hstop.
        exact (stop_reason_not_mixed _ (Hstop _ Hin) eq_refl).
      * destruct (3 <? length chain)%nat; [|inversion Hin].
        apply list_elem_of_singleton in Hin. symmetry in Hin.
        exfalso. exact (msg_long_not_mixed _ Hin).
      * destruct (1 <? length chain)%nat; [|inversion Hin].
        destruct (schemes_of urlparse_error chain) as [schemes|e].
        -- destruct (Nat.ltb_spec 1 (size (list_to_set (List.map urlparse_scheme chain)
                                            : gset string))) as [Hlt|Hge]; [exact Hlt|].
           inversion Hin.
        -- apply list_elem_of_singleton in Hin. symmetry in Hin.
           exfalso. exact (msg_error_not_mixed _ Hin).
    + intros Hnone Hsize. rewrite !elem_of_app. right. right.
      assert (Hlen : (1 < length chain)%nat).
      { apply Hschemes in Hsize as (u & v & Hu & Hv & Hne).
        destruct chain as [|a [|b l]]; [inversion Hu| |simpl; lia].
        apply list_elem_of_singleton in Hu, Hv. congruence. }
      apply Nat.ltb_lt in Hlen. rewrite Hlen.
      destruct (schemes_of urlparse_error chain) as [schemes|e].
      * apply Nat.ltb_lt in Hsize. rewrite Hsize. apply list_elem_of_here.
      * exfalso. apply (Hnone e). rewrite !elem_of_app. right. right.
        rewrite Hlen. apply list_elem_of_here.
Qed.

(** The theorem at the chain from the HTTP to the HTTPS URL. *)
Lemma mixed_scheme_issue_iff_witness :
  (msg_mixed ∈ [msg_mixed] ->
   exists u v, u ∈ [http_url; https_url] /\ v ∈ [http_url; https_url]
               /\ PyUrl.scheme u <> PyUrl.scheme v)
  /\ ((forall e, msg_error e ∉ [msg_mixed]) ->
      (exists u v, u ∈ [http_url; https_url] /\ v ∈ [http_url; https_url]
                   /\ PyUrl.scheme u <> PyUrl.scheme v) ->
      msg_mixed ∈ [msg_mixed]).
Proof.
  apply (mixed_scheme_issue_iff PyUrl.model upgrade urljoin_returns urlparse_returns
           http_url [http_url; https_url] [msg_mixed]).
  vm_compute. reflexivity.
Defined.

End RedirectsMoreFacts.

(** ** The internal link graph *)

Module LinkGraphMoreFacts.
Import LinkGraph GraphSpec.

Lemma dd_get_value d k : (dd_get d k).1 = adj d k.
Proof. unfold dd_get, adj. destruct (d !! k); reflexivity. Qed.

Lemma dd_get_adj d k k' : adj (dd_get d k).2 k' = adj d k'.
Proof.
  unfold dd_get, adj. destruct (d !! k) eqn:Hk; [reflexivity|]. cbn [snd].
  destruct (decide (k' = k)) as [->|Hne].
  - rewrite lookup_insert_eq, Hk. reflexivity.
  - rewrite lookup_insert_ne by congruence. reflexivity.
Qed.

Lemma dd_add_adj d k x k' :
  adj (dd_add d k x) k' = if decide (k' = k) then {[x]} ∪ adj d k else adj d k'.
Proof.
  unfold dd_add. destruct (dd_get d k) as [v d'] eqn:Hget.
  pose proof (dd_get_value d k) as Hv. pose proof (dd_get_adj d k k') as Ha.
  rewrite Hget in Hv, Ha. cbn [fst snd] in Hv, Ha. subst v.
  unfold adj at 1. destruct (decide (k' = k)) as [->|Hne].
  - rewrite lookup_insert_eq. reflexivity.
  - rewrite lookup_insert_ne by congruence. exact Ha.
Qed.

Section WithLib.
Context `{lib : UrlLib}.

Lemma add_link_cases page_url self link :
  (links_to page_url link (Utils.normalize_url link) /\
   add_link page_url self link =
     {| link_graph := dd_add (link_graph self) page_url (Utils.normalize_url link);
        reverse_link_graph :=
          dd_add (reverse_link_graph self) (Utils.normalize_url link) page_url;
        all_urls := {[Utils.normalize_url link]} ∪ all_urls self |})
  \/ ((forall v, ~ links_to page_url link v) /\ add_link page_url self link = self).
Proof.
  unfold add_link, links_to.
  destruct (PyStr.is_empty (Utils.normalize_url link)) eqn:Hempty; cbn [negb andb].
  - right. split; [|reflexivity]. intros v (-> & Hne & _).
    destruct (Utils.normalize_url link); [congruence|discriminate].
  - destruct (Utils.is_same_domain (Utils.normalize_url link) page_url) eqn:Hsame.
    + left. split; [|reflexivity]. split; [reflexivity|]. split; [|reflexivity].
      intros Heq. rewrite Heq in Hempty. discriminate.
    + right. split; [|reflexivity]. intros v (-> & _ & Hs). congruence.
Qed.

Lemma add_link_forward page_url self link u v :
  v ∈ adj (link_graph (add_link page_url self link)) u
  <-> v ∈ adj (link_graph self) u \/ (u = page_url /\ links_to page_url link v).
Proof.
  destruct (add_link_cases page_url self link) as [[Hl ->]|[Hno ->]].
  - cbn [link_graph]. rewrite dd_add_adj. destruct (decide (u = page_url)) as [->|Hne].
    + rewrite elem_of_union, elem_of_singleton. split.
      * intros [->|Hin]; [right; split; [reflexivity|exact Hl]|left; exact Hin].
      * intros [Hin|[_ Hv]]; [right; exact Hin|]. left. destruct Hv as [-> _]. reflexivity.
    + split; [intros Hin; left; exact Hin|]. intros [Hin|[Hu _]]; [exact Hin|congruence].
  - split; [intros Hin; left; exact Hin|]. intros [Hin|[_ Hv]]; [exact Hin|].
    exfalso. exact (Hno v Hv).
Qed.

Lemma add_link_reverse page_url self link u v :
  u ∈ adj (reverse_link_graph (add_link page_url self link)) v
  <-> u ∈ adj (reverse_link_graph self) v \/ (u = page_url /\ links_to page_url link v).
Proof.
  destruct (add_link_cases page_url self link) as [[Hl ->]|[Hno ->]].
  - cbn [reverse_link_graph]. rewrite dd_add_adj.
    destruct (decide (v = Utils.normalize_url link)) as [->|Hne].
    + rewrite elem_of_union, elem_of_singleton. split.
      * intros [->|Hin]; [right; split; [reflexivity|exact Hl]|left; exact Hin].
      * intros [Hin|[-> _]]; [right; exact Hin|left; reflexivity].
    + split; [intros Hin; left; exact Hin|].
      intros [Hin|[_ [Hv _]]]; [exact Hin|congruence].
  - split; [intros Hin; left; exact Hin|]. intros [Hin|[_ Hv]]; [exact Hin|].
    exfalso. exact (Hno v Hv).
Qed.

Lemma add_link_all_urls page_url self link x :
  x ∈ all_urls (add_link page_url self link)
  <-> x ∈ all_urls self \/ links_to page_url link x.
Proof.
  destruct (add_link_cases page_url self link) as [[Hl ->]|[Hno ->]].
  - cbn [all_urls]. rewrite elem_of_union, elem_of_singleton. split.
    + intros [->|Hin]; [right; exact Hl|left; exact Hin].
    + intros [Hin|[-> _]]; [right; exact Hin|left; reflexivity].
  - split; [intros Hin; left; exact Hin|]. intros [Hin|Hv]; [exact Hin|].
    exfalso. exact (Hno x Hv).
Qed.

Lemma add_links_forward page_url links : forall self u v,
  v ∈ adj (link_graph (fold_left (add_link page_url) links self)) u
  <-> v ∈ adj (link_graph self) u
      \/ (u = page_url /\ exists link, link ∈ links /\ links_to page_url link v).
Proof.
  induction links as [|link links IH]; intros self u v; cbn [fold_left].
  - split; [intros Hin; left; exact Hin|].
    intros [Hin|(_ & link & Hin & _)]; [exact Hin|inversion Hin].
  - rewrite IH, add_link_forward. split.
    + intros [[Hin|[Hu Hl]]|(Hu & l & Hin & Hl)].
      * left; exact Hin.
      * right. split; [exact Hu|]. exists link. split; [apply list_elem_of_here|exact Hl].
      * right. split; [exact Hu|]. exists l. split; [apply list_elem_of_further, Hin|exact Hl].
    + intros [Hin|(Hu & l & Hin & Hl)]; [left; left; exact Hin|].
      apply elem_of_cons in Hin as [->|Hin].
      * left. right. split; [exact Hu|exact Hl].
      * right. split; [exact Hu|]. exists l. split; [exact Hin|exact Hl].
Qed.

Lemma add_links_reverse page_url links : forall self u v,
  u ∈ adj (reverse_link_graph (fold_left (add_link page_url) links self)) v
  <-> u ∈ adj (reverse_link_graph self) v
      \/ (u = page_url /\ exists link, link ∈ links /\ links_to page_url link v).
Proof.
  induction links as [|link links IH]; intros self u v; cbn [fold_left].
  - split; [intros Hin; left; exact Hin|].
    intros [Hin|(_ & link & Hin & _)]; [exact Hin|inversion Hin].
  - rewrite IH, add_link_reverse. split.
    + intros [[Hin|[Hu Hl]]|(Hu & l & Hin & Hl)].
      * left; exact Hin.
      * right. split; [exact Hu|]. exists link. split; [apply list_elem_of_here|exact Hl].
      * right. split; [exact Hu|]. exists l. split; [apply list_elem_of_further, Hin|exact Hl].
    + intros [Hin|(Hu & l & Hin & Hl)]; [left; left; exact Hin|].
      apply elem_of_cons in Hin as [->|Hin].
      * left. right. split; [exact Hu|exact Hl].
      * right. split; [exact Hu|]. exists l. split; [exact Hin|exact Hl].
Qed.

Lemma add_links_all_urls page_url links : forall self x,
  x ∈ all_urls (fold_left (add_link page_url) links self)
  <-> x ∈ all_urls self \/ exists link, link ∈ links /\ links_to page_url link x.
Proof.
  induction links as [|link links IH]; intros self x; cbn [fold_left].
  - split; [intros Hin; left; exact Hin|].
    intros [Hin|(link & Hin & _)]; [exact Hin|inversion Hin].
  - rewrite IH, add_link_all_urls. split.
    + intros [[Hin|Hl]|(l & Hin & Hl)].
      * left; exact Hin.
      * right. exists link. split; [apply list_elem_of_here|exact Hl].
      * right. exists l. split; [apply list_elem_of_further, Hin|exact Hl].
    + intros [Hin|(l & Hin & Hl)]; [left; left; exact Hin|].
      apply elem_of_cons in Hin as [->|Hin].
      * left. right. exact Hl.
      * right. exists l. split; [exact Hin|exact Hl].
Qed.

Lemma build_snoc pages page_url links :
  build (pages ++ [(page_url, links)]) = add_page_links (build pages) page_url links.
Proof. unfold build. rewrite fold_left_app. reflexivity. Qed.

Lemma edge_in_snoc pages page_url links u v :
  edge_in (pages ++ [(page_url, links)]) u v
  <-> edge_in pages u v \/ (u = page_url /\ exists link, link ∈ links /\ links_to page_url link v).
Proof.
  unfold edge_in. split.
  - intros (ls & l & Hin & Hl & Hto). apply elem_of_app in Hin as [Hin|Hin].
    + left. exists ls, l. auto.
    + apply list_elem_of_singleton in Hin. injection Hin as -> ->.
      right. split; [reflexivity|]. exists l. auto.
  - intros [(ls & l & Hin & Hl & Hto)|(-> & l & Hl & Hto)].
    + exists ls, l. rewrite elem_of_app. auto.
    + exists links, l. rewrite elem_of_app, list_elem_of_singleton. auto.
Qed.

Lemma build_forward pages u v :
  v ∈ adj (link_graph (build pages)) u <-> edge_in pages u v.
Proof.
  induction pages as [|[page_url links] pages IH] using rev_ind.
  - unfold build, edge_in. cbn. unfold adj. rewrite lookup_empty. cbn. split.
    + intros Hin. exfalso. exact (not_elem_of_empty _ Hin).
    + intros (ls & l & Hin & _). inversion Hin.
  - rewrite build_snoc, edge_in_snoc. unfold add_page_links.
    rewrite add_links_forward. cbn [link_graph]. rewrite IH. reflexivity.
Qed.

Lemma build_reverse pages u v :
  u ∈ adj (reverse_link_graph (build pages)) v <-> edge_in pages u v.
Proof.
  induction pages as [|[page_url links] pages IH] using rev_ind.
  - unfold build, edge_in. cbn. unfold adj. rewrite lookup_empty. cbn. split.
    + intros Hin. exfalso. exact (not_elem_of_empty _ Hin).
    + intros (ls & l & Hin & _). inversion Hin.
  - rewrite build_snoc, edge_in_snoc. unfold add_page_links.
    rewrite add_links_reverse. cbn [reverse_link_graph]. rewrite IH. reflexivity.
Qed.

Lemma build_all_urls pages x :
  x ∈ all_urls (build pages)
  <-> (exists links, (x, links) ∈ pages) \/ exists u, edge_in pages u x.
Proof.
  induction pages as [|[page_url links] pages IH] using rev_ind.
  - unfold build, edge_in. cbn. split.
    + intros Hin. exfalso. exact (not_elem_of_empty _ Hin).
    + intros [(ls & Hin)|(u & ls & l & Hin & _)]; inversion Hin.
  - rewrite build_snoc. unfold add_page_links. rewrite add_links_all_urls.
    cbn [all_urls]. rewrite elem_of_union, elem_of_singleton, IH. split.
    + intros [[->|[(ls & Hin)|(u & Hu)]]|(l & Hl & Hto)].
      * left. exists links. rewrite elem_of_app, list_elem_of_singleton. auto.
      * left. exists ls. rewrite elem_of_app. auto.
      * right. exists u. apply edge_in_snoc. auto.
      * right. exists page_url. apply edge_in_snoc. right. split; [reflexivity|].
        exists l. auto.
    + intros [(ls & Hin)|(u & Hu)].
      * apply elem_of_app in Hin as [Hin|Hin].
        -- left. right. left. exists ls. exact Hin.
        -- apply list_elem_of_singleton in Hin. injection Hin as -> ->. left. left. reflexivity.
      * apply edge_in_snoc in Hu as [Hu|(-> & l & Hl & Hto)].
        -- left. right. right. exists u. exact Hu.
        -- right. exists l. auto.
Qed.

Lemma is_orphan_spec self url :
  is_orphan self url = true <-> forall u, u ∉ adj (reverse_link_graph self) url.
Proof.
  unfold is_orphan, adj. destruct (reverse_link_graph self !! url) as [sources|]; cbn.
  - rewrite Nat.eqb_eq. split.
    + intros Hsize u. apply size_empty_inv in Hsize.
      intros Hin. apply Hsize in Hin. exact (not_elem_of_empty _ Hin).
    + intros Hno. apply size_empty_iff. intros u. split.
      * intros Hin. exfalso. exact (Hno u Hin).
      * intros Hin. exfalso. exact (not_elem_of_empty _ Hin).
  - split; [|reflexivity]. intros _ u. apply not_elem_of_empty.
Qed.

End WithLib.
End LinkGraphMoreFacts.

Module BfsFacts.
Import LinkGraph GraphSpec LinkGraphMoreFacts.

Lemma targets_adj g u v : v ∈ adj g u -> v ∈ targets g.
Proof.
  unfold adj, targets. destruct (g !! u) as [s|] eqn:Hu; cbn.
  - intros Hv. apply elem_of_union_list. exists s. split; [|exact Hv].
    apply list_elem_of_fmap. exists (u, s). split; [reflexivity|].
    apply elem_of_map_to_list. exact Hu.
  - intros Hv. exfalso. exact (not_elem_of_empty _ Hv).
Qed.

Lemma path_in_universe g start u n :
  path g start u n -> u ∈ ({[start]} ∪ targets g : gset string).
Proof.
  intros [|w v m _ Hv]; apply elem_of_union.
  - left. apply elem_of_singleton. reflexivity.
  - right. exact (targets_adj _ _ _ Hv).
Qed.

Lemma path_ext g g' start u n :
  (forall k, adj g k = adj g' k) -> path g start u n -> path g' start u n.
Proof.
  intros Hadj. induction 1 as [|u v n _ IH Hv]; [constructor|].
  apply (path_step _ _ u); [exact IH|]. rewrite <- Hadj. exact Hv.
Qed.

(** The inner loop of [find_link_depth]: the URLs of [l] without a depth
    get the depth [d + 1] and join the queue; the depths there were stay. *)
Lemma visit_fold d l : forall depths queue,
  exists depths' news,
    fold_left (visit d) l (depths, queue) = (depths', queue ++ news)
    /\ NoDup news
    /\ (forall k, k ∈ news <-> k ∈ l /\ depths !! k = None)
    /\ (forall k, depths' !! k =
                  match depths !! k with
                  | Some x => Some x
                  | None => if decide (k ∈ l) then Some (d + 1)%nat else None
                  end).
Proof.
  induction l as [|a l IH]; intros depths queue; cbn [fold_left].
  - exists depths, []. rewrite app_nil_r. split; [reflexivity|].
    split; [constructor|]. split.
    + intros k. split; [intros Hin; inversion Hin|intros [Hin _]; inversion Hin].
    + intros k. destruct (depths !! k); [reflexivity|].
      rewrite decide_False; [reflexivity|]. intros Hin; inversion Hin.
  - unfold visit at 2. destruct (depths !! a) as [x|] eqn:Ha.
    + destruct (IH depths queue) as (depths' & news & Hfold & Hnd & Hnews & Hlook).
      exists depths', news. split; [exact Hfold|]. split; [exact Hnd|]. split.
      * intros k. rewrite Hnews, elem_of_cons. split.
        -- intros [Hin Hk]. auto.
        -- intros [[->|Hin] Hk]; [congruence|auto].
      * intros k. rewrite Hlook. destruct (depths !! k) eqn:Hk; [reflexivity|].
        assert (k <> a) by congruence.
        destruct (decide (k ∈ l)) as [Hin|Hin].
        -- rewrite decide_True; [reflexivity|]. apply list_elem_of_further, Hin.
        -- rewrite decide_False; [reflexivity|]. rewrite elem_of_cons. tauto.
    + destruct (IH (<[a := (d + 1)%nat]> depths) (queue ++ [a]))
        as (depths' & news & Hfold & Hnd & Hnews & Hlook).
      exists depths', (a :: news). split.
      { rewrite Hfold, <- app_assoc. reflexivity. }
      split.
      { constructor; [|exact Hnd]. rewrite Hnews, lookup_insert_eq. intros [_ ?]. discriminate. }
      split.
      * intros k. rewrite !elem_of_cons, Hnews.
        destruct (decide (k = a)) as [->|Hne].
        -- split; [intros _; auto|intros _; left; reflexivity].
        -- rewrite lookup_insert_ne by congruence. tauto.
      * intros k. rewrite Hlook. destruct (decide (k = a)) as [->|Hne].
        -- rewrite lookup_insert_eq, Ha. rewrite decide_True; [reflexivity|].
           apply list_elem_of_here.
        -- rewrite lookup_insert_ne by congruence.
           destruct (depths !! k); [reflexivity|].
           destruct (decide (k ∈ l)) as [Hin|Hin].
           ++ rewrite decide_True; [reflexivity|]. apply list_elem_of_further, Hin.
           ++ rewrite decide_False; [reflexivity|]. rewrite elem_of_cons. tauto.
Qed.

Lemma sorted_mono (depths depths' : gmap string nat) l :
  (forall q, q ∈ l -> is_Some (depths !! q)) ->
  (forall k x, depths !! k = Some x -> depths' !! k = Some x) ->
  StronglySorted (no_deeper depths) l -> StronglySorted (no_deeper depths') l.
Proof.
  intros Hin Hold Hs. induction Hs as [|x l Hl IH Hx]; [constructor|].
  constructor.
  - apply IH. intros q Hq. apply Hin, list_elem_of_further, Hq.
  - rewrite Forall_forall in Hx |- *. intros y Hy d1 d2 Hd1 Hd2.
    destruct (Hin x (list_elem_of_here _ _)) as [e1 He1].
    destruct (Hin y (list_elem_of_further _ _ _ Hy)) as [e2 He2].
    rewrite (Hold _ _ He1) in Hd1. rewrite (Hold _ _ He2) in Hd2.
    injection Hd1 as <-. injection Hd2 as <-. exact (Hx y Hy e1 e2 He1 He2).
Qed.

Section Bfs.
Variable g0 : gmap string (gset string).
Variable start : string.

Lemma bfs_invariant_init : bfs_invariant g0 start {[start := 0%nat]} [start].
Proof.
  split.
  - apply lookup_singleton_eq.
  - intros u d Hu. apply lookup_singleton_Some in Hu as [<- <-]. constructor.
  - intros q Hq. apply list_elem_of_singleton in Hq as ->.
    rewrite lookup_singleton_eq. eexists; reflexivity.
  - intros u d w Hu Hnot. apply lookup_singleton_Some in Hu as [<- <-].
    exfalso. apply Hnot, list_elem_of_here.
  - repeat constructor.
  - intros u d q dq Hu _ _. apply lookup_singleton_Some in Hu as [<- <-]. lia.
Qed.

(** One round of the loop keeps the invariant. *)
Lemma bfs_invariant_step depths h t dh depths' news :
  bfs_invariant g0 start depths (h :: t) ->
  depths !! h = Some dh ->
  (forall k, k ∈ news <-> k ∈ elements (adj g0 h) /\ depths !! k = None) ->
  (forall k, depths' !! k =
             match depths !! k with
             | Some x => Some x
             | None => if decide (k ∈ elements (adj g0 h)) then Some (dh + 1)%nat else None
             end) ->
  bfs_invariant g0 start depths' (t ++ news).
Proof.
  intros [Hstart Hsound Hqueue Hclosed Hsorted Hbound] Hh Hnews Hlook.
  assert (Hold : forall k x, depths !! k = Some x -> depths' !! k = Some x).
  { intros k x Hk. rewrite Hlook, Hk. reflexivity. }
  assert (Hnew : forall k x, depths' !! k = Some x ->
            depths !! k = Some x \/ (k ∈ news /\ x = S dh)).
  { intros k x Hk. rewrite Hlook in Hk. destruct (depths !! k) eqn:Hk0; [left; exact Hk|].
    destruct (decide (k ∈ elements (adj g0 h))) as [Hin|]; [|discriminate].
    right. split; [apply Hnews; auto|]. injection Hk as <-. lia. }
  assert (Hfresh : forall k, k ∈ news -> depths' !! k = Some (S dh)).
  { intros k Hk. apply Hnews in Hk as [Hin Hnone]. rewrite Hlook, Hnone.
    rewrite decide_True by exact Hin. f_equal. lia. }
  assert (Hhead : forall q dq, q ∈ t -> depths !! q = Some dq -> (dh <= dq)%nat).
  { intros q dq Hq Hdq. apply StronglySorted_cons in Hsorted as [Hall _].
    rewrite Forall_forall in Hall. exact (Hall q Hq dh dq Hh Hdq). }
  assert (Hdepth_t : forall q x, q ∈ t -> depths' !! q = Some x -> depths !! q = Some x).
  { intros q x Hq Hx. destruct (Hqueue q (list_elem_of_further _ _ _ Hq)) as [y Hy].
    rewrite (Hold _ _ Hy) in Hx. congruence. }
  split.
  - apply Hold, Hstart.
  - intros u d Hu. apply Hnew in Hu as [Hu|[Hin ->]]; [exact (Hsound _ _ Hu)|].
    apply Hnews in Hin as [Hin _]. apply elem_of_elements in Hin.
    exact (path_step _ _ h u dh (Hsound _ _ Hh) Hin).
  - intros q Hq. apply elem_of_app in Hq as [Hq|Hq].
    + destruct (Hqueue q (list_elem_of_further _ _ _ Hq)) as [y Hy].
      exists y. exact (Hold _ _ Hy).
    + exists (S dh). exact (Hfresh _ Hq).
  - intros u d w Hu Hnot Hw. rewrite elem_of_app in Hnot.
    destruct (decide (u = h)) as [->|Hne].
    + rewrite (Hold _ _ Hh) in Hu. injection Hu as <-.
      destruct (depths !! w) as [d'|] eqn:Hdw.
      * exists d'. split; [exact (Hold _ _ Hdw)|].
        exact (Hbound w d' h dh Hdw (list_elem_of_here _ _) Hh).
      * exists (S dh). split; [|lia]. apply Hfresh, Hnews.
        split; [apply elem_of_elements, Hw|exact Hdw].
    + apply Hnew in Hu as [Hu|[Hin _]]; [|tauto].
      destruct (Hclosed u d w Hu) as (d' & Hd' & Hle); [|exact Hw|].
      * rewrite elem_of_cons. tauto.
      * exists d'. split; [exact (Hold _ _ Hd')|exact Hle].
  - apply StronglySorted_app. split; [|split].
    + intros x1 x2 H1 H2 d1 d2 Hd1 Hd2.
      rewrite (Hfresh _ H2) in Hd2. injection Hd2 as <-.
      apply (Hdepth_t _ _ H1) in Hd1.
      exact (Hbound x1 d1 h dh Hd1 (list_elem_of_here _ _) Hh).
    + apply StronglySorted_cons in Hsorted as [_ Ht].
      apply (sorted_mono depths); [|exact Hold|exact Ht].
      intros q Hq. apply Hqueue, list_elem_of_further, Hq.
    + assert (Hall : Forall (fun k => depths' !! k = Some (S dh)) news).
      { apply Forall_forall. exact Hfresh. }
      clear -Hall. induction Hall as [|x l Hx Hl IH]; constructor; [exact IH|].
      apply Forall_forall. intros y Hy d1 d2 Hd1 Hd2. rewrite Forall_forall in Hl.
      rewrite Hx in Hd1. rewrite (Hl y Hy) in Hd2. injection Hd1 as <-. injection Hd2 as <-. lia.
  - intros u d q dq Hu Hq Hdq. apply elem_of_app in Hq as [Hq|Hq].
    + apply (Hdepth_t _ _ Hq) in Hdq. apply Hnew in Hu as [Hu|[_ ->]].
      * exact (Hbound u d q dq Hu (list_elem_of_further _ _ _ Hq) Hdq).
      * pose proof (Hhead q dq Hq Hdq). lia.
    + rewrite (Hfresh _ Hq) in Hdq. injection Hdq as <-.
      apply Hnew in Hu as [Hu|[_ ->]]; [|lia].
      pose proof (Hbound u d h dh Hu (list_elem_of_here _ _) Hh). lia.
Qed.

Lemma bfs_runs fuel : forall graph depths queue,
  (forall k, adj graph k = adj g0 k) ->
  bfs_invariant g0 start depths queue ->
  (length queue + size (({[start]} ∪ targets g0) ∖ dom depths) <= fuel)%nat ->
  exists depths' graph',
    bfs fuel graph depths queue = Some (depths', graph')
    /\ (forall k, adj graph' k = adj g0 k)
    /\ bfs_invariant g0 start depths' [].
Proof.
  induction fuel as [|fuel IH]; intros graph depths queue Hadj Hinv Hfuel.
  - destruct queue as [|h t]; [|cbn in Hfuel; lia].
    exists depths, graph. split; [reflexivity|]. split; [exact Hadj|exact Hinv].
  - destruct queue as [|h t].
    { exists depths, graph. split; [reflexivity|]. split; [exact Hadj|exact Hinv]. }
    cbn [bfs]. destruct (inv_queue _ _ _ _ Hinv h (list_elem_of_here _ _)) as [dh Hh].
    rewrite Hh.
    pose proof (dd_get_value graph h) as Hv. pose proof (dd_get_adj graph h) as Ha.
    destruct (dd_get graph h) as [links graph1]. cbn [fst snd] in Hv, Ha.
    rewrite Hadj in Hv. subst links.
    destruct (visit_fold dh (elements (adj g0 h)) depths t)
      as (depths1 & news & Hfold & Hnd & Hnews & Hlook).
    rewrite Hfold. apply IH.
    + intros k. rewrite Ha. apply Hadj.
    + exact (bfs_invariant_step depths h t dh depths1 news Hinv Hh Hnews Hlook).
    + cbn [length] in Hfuel. rewrite length_app.
      assert (Hsub : ({[start]} ∪ targets g0) ∖ dom depths1
                     ⊆ (({[start]} ∪ targets g0) ∖ dom depths) ∖ list_to_set news).
      { intros k Hk. apply elem_of_difference in Hk as [HU Hk].
        apply elem_of_difference. split.
        - apply elem_of_difference. split; [exact HU|]. intros Hd. apply Hk.
          apply elem_of_dom in Hd as [x Hx]. apply elem_of_dom. exists x.
          rewrite Hlook, Hx. reflexivity.
        - intros Hn. apply elem_of_list_to_set in Hn. apply Hk.
          apply Hnews in Hn as [Hin Hnone]. apply elem_of_dom. exists (dh + 1)%nat.
          rewrite Hlook, Hnone. rewrite decide_True by exact Hin. reflexivity. }
      assert (Hn : (list_to_set news : gset string) ⊆ ({[start]} ∪ targets g0) ∖ dom depths).
      { intros k Hk. apply elem_of_list_to_set in Hk. apply Hnews in Hk as [Hin Hnone].
        apply elem_of_difference. split.
        - apply elem_of_union. right. apply elem_of_elements in Hin.
          exact (targets_adj _ _ _ Hin).
        - apply not_elem_of_dom. exact Hnone. }
      apply subseteq_size in Hsub. pose proof (size_difference _ _ Hn) as Hdiff.
      apply subseteq_size in Hn. rewrite size_list_to_set in Hdiff, Hn by exact Hnd.
      lia.
Qed.

(** When the queue is empty the depths are the shortest distances. *)
Lemma bfs_invariant_final depths u d :
  bfs_invariant g0 start depths [] ->
  depths !! u = Some d <-> shortest g0 start u d.
Proof.
  intros [Hstart Hsound _ Hclosed _ _].
  assert (Hcomplete : forall n, path g0 start u n ->
            exists d', depths !! u = Some d' /\ (d' <= n)%nat).
  { intros n Hp. induction Hp as [|v w n _ IH Hw].
    - exists 0%nat. split; [exact Hstart|lia].
    - destruct IH as (dv & Hdv & Hle).
      destruct (Hclosed v dv w Hdv) as (dw & Hdw & Hle'); [|exact Hw|].
      + intros Hin. inversion Hin.
      + exists dw. split; [exact Hdw|lia]. }
  split.
  - intros Hu. split; [exact (Hsound _ _ Hu)|].
    intros n Hp. destruct (Hcomplete n Hp) as (d' & Hd' & Hle). congruence.
  - intros [Hp Hmin]. destruct (Hcomplete d Hp) as (d' & Hd' & Hle).
    pose proof (Hmin d' (Hsound _ _ Hd')). replace d with d' by lia. exact Hd'.
Qed.

End Bfs.
End BfsFacts.

Module LinkMetricsFacts.
Import LinkGraph LinkMetrics GraphSpec LinkGraphMoreFacts BfsFacts.

Lemma same_edges_refl self : same_edges self self.
Proof. repeat split. Qed.

Lemma same_edges_trans a b c : same_edges a b -> same_edges b c -> same_edges a c.
Proof.
  intros (H1 & H2 & H3) (H1' & H2' & H3'). split; [|split].
  - intros k. rewrite H1'. apply H1.
  - intros k. rewrite H2'. apply H2.
  - rewrite H3'. exact H3.
Qed.

Lemma metrics_of_same_edges self self' url :
  same_edges self self' -> metrics_of self' url = metrics_of self url.
Proof. intros (H1 & H2 & _). unfold metrics_of. rewrite H1, H2. reflexivity. Qed.

Lemma metrics_for_step metrics self url :
  exists self', metrics_for (metrics, self) url = (<[url := metrics_of self url]> metrics, self')
                /\ same_edges self self'.
Proof.
  unfold metrics_for, calculate_authority_score. cbn [reverse_link_graph link_graph all_urls].
  pose proof (dd_get_value (reverse_link_graph self) url) as Hv1.
  pose proof (dd_get_adj (reverse_link_graph self) url) as Ha1.
  destruct (dd_get (reverse_link_graph self) url) as [sources reverse]. cbn [fst snd] in Hv1, Ha1.
  pose proof (dd_get_value (link_graph self) url) as Hv2.
  pose proof (dd_get_adj (link_graph self) url) as Ha2.
  destruct (dd_get (link_graph self) url) as [targets graph]. cbn [fst snd] in Hv2, Ha2.
  pose proof (dd_get_value reverse url) as Hv3.
  pose proof (dd_get_adj reverse url) as Ha3.
  destruct (dd_get reverse url) as [sources' reverse']. cbn [fst snd] in Hv3, Ha3.
  eexists. split.
  - f_equal. f_equal. unfold metrics_of. rewrite Hv1, Hv2, Hv3, Ha1. reflexivity.
  - split; [|split]; cbn.
    + exact Ha2.
    + intros k. rewrite Ha3. apply Ha1.
    + reflexivity.
Qed.

Lemma metrics_fold l : forall metrics self,
  exists metrics' self',
    fold_left metrics_for l (metrics, self) = (metrics', self')
    /\ same_edges self self'
    /\ forall url, metrics' !! url =
                   if decide (url ∈ l) then Some (metrics_of self url) else metrics !! url.
Proof.
  induction l as [|a l IH]; intros metrics self; cbn [fold_left].
  - exists metrics, self. split; [reflexivity|]. split; [apply same_edges_refl|].
    intros url. rewrite decide_False; [reflexivity|]. intros Hin; inversion Hin.
  - destruct (metrics_for_step metrics self a) as (self1 & -> & Hsame).
    destruct (IH (<[a := metrics_of self a]> metrics) self1)
      as (metrics' & self' & Hfold & Hsame' & Hlook).
    exists metrics', self'. split; [exact Hfold|].
    split; [exact (same_edges_trans _ _ _ Hsame Hsame')|].
    intros url. rewrite Hlook, (metrics_of_same_edges _ _ _ Hsame).
    destruct (decide (url ∈ l)) as [Hin|Hin].
    + rewrite decide_True; [reflexivity|]. apply list_elem_of_further, Hin.
    + destruct (decide (url = a)) as [->|Hne].
      * rewrite lookup_insert_eq, decide_True; [reflexivity|]. apply list_elem_of_here.
      * rewrite lookup_insert_ne by congruence. rewrite decide_False; [reflexivity|].
        rewrite elem_of_cons. tauto.
Qed.

Lemma metrics_lookup self url :
  (get_page_authority_metrics self).1 !! url
  = if decide (url ∈ all_urls self) then Some (metrics_of self url) else None.
Proof.
  unfold get_page_authority_metrics.
  destruct (metrics_fold (elements (all_urls self)) ∅ self)
    as (metrics' & self' & -> & _ & Hlook). cbn [fst].
  rewrite Hlook, lookup_empty.
  destruct (decide (url ∈ all_urls self)) as [Hin|Hin].
  - rewrite decide_True; [reflexivity|]. apply elem_of_elements, Hin.
  - rewrite decide_False; [reflexivity|]. rewrite elem_of_elements. exact Hin.
Qed.

Lemma metrics_same_edges self : same_edges self (get_page_authority_metrics self).2.
Proof.
  unfold get_page_authority_metrics.
  destruct (metrics_fold (elements (all_urls self)) ∅ self)
    as (metrics' & self' & -> & Hsame & _). exact Hsame.
Qed.

Lemma total_sum field (metrics : gmap string Metrics) :
  total field metrics = sum_list_with (fun p => field p.2) (map_to_list metrics).
Proof.
  unfold total. rewrite map_fold_foldr.
  induction (map_to_list metrics) as [|[k m] l IH]; [reflexivity|].
  cbn. rewrite IH. reflexivity.
Qed.

Lemma sum_fmap {A B} (f : A -> B) (g : B -> nat) l :
  sum_list_with g (f <$> l) = sum_list_with (fun x => g (f x)) l.
Proof. induction l as [|x l IH]; [reflexivity|]. cbn. rewrite IH. reflexivity. Qed.

Lemma total_over_urls field self :
  total field (get_page_authority_metrics self).1
  = sum_list_with (fun u => field (metrics_of self u)) (elements (all_urls self)).
Proof.
  rewrite total_sum.
  rewrite <- (sum_fmap (fun u => (u, metrics_of self u)) (fun p => field p.2)).
  apply sum_list_with_Permutation_proper. apply NoDup_Permutation.
  - apply NoDup_map_to_list.
  - apply NoDup_fmap_2_strong; [|apply NoDup_elements].
    intros x y _ _ Heq. injection Heq as ->. reflexivity.
  - intros [k m]. rewrite elem_of_map_to_list, metrics_lookup, list_elem_of_fmap. split.
    + destruct (decide (k ∈ all_urls self)) as [Hin|]; [|discriminate].
      intros Hm. injection Hm as <-. exists k. split; [reflexivity|].
      apply elem_of_elements, Hin.
    + intros (u & Heq & Hin). injection Heq as -> ->.
      rewrite decide_True; [reflexivity|]. apply elem_of_elements, Hin.
Qed.

Lemma length_bind_sum {A B} (f : A -> list B) l :
  length (l ≫= f) = sum_list_with (fun x => length (f x)) l.
Proof.
  induction l as [|x l IH]; [reflexivity|]. cbn. rewrite length_app, IH. reflexivity.
Qed.

(** Counting the edges by their sources and by their targets gives the
    same number. *)
Lemma edges_counted_twice (fwd rev : gmap string (gset string)) (all : gset string) :
  (forall u v, v ∈ adj fwd u <-> u ∈ adj rev v) ->
  (forall u v, v ∈ adj fwd u -> u ∈ all /\ v ∈ all) ->
  sum_list_with (fun u => size (adj fwd u)) (elements all)
  = sum_list_with (fun v => size (adj rev v)) (elements all).
Proof.
  intros Htr Hcov.
  pose (F := fun u => (fun v => (u, v)) <$> elements (adj fwd u)).
  pose (G := fun v => (fun u => (u, v)) <$> elements (adj rev v)).
  assert (HF : forall u, length (F u) = size (adj fwd u)).
  { intros u. unfold F. rewrite length_fmap. reflexivity. }
  assert (HG : forall v, length (G v) = size (adj rev v)).
  { intros v. unfold G. rewrite length_fmap. reflexivity. }
  transitivity (length (elements all ≫= F)).
  { rewrite length_bind_sum. induction (elements all) as [|x l IH]; [reflexivity|].
    cbn. rewrite HF, IH. reflexivity. }
  transitivity (length (elements all ≫= G)).
  2: { rewrite length_bind_sum. induction (elements all) as [|x l IH]; [reflexivity|].
       cbn. rewrite HG, IH. reflexivity. }
  apply Permutation_length. apply NoDup_Permutation.
  - apply NoDup_bind; [| |apply NoDup_elements].
    + intros x1 x2 [a b] _ _ H1 H2. unfold F in H1, H2.
      apply list_elem_of_fmap in H1 as (v1 & Heq1 & _).
      apply list_elem_of_fmap in H2 as (v2 & Heq2 & _). congruence.
    + intros x _. unfold F. apply NoDup_fmap_2_strong; [|apply NoDup_elements].
      intros a b _ _ Heq. congruence.
  - apply NoDup_bind; [| |apply NoDup_elements].
    + intros x1 x2 [a b] _ _ H1 H2. unfold G in H1, H2.
      apply list_elem_of_fmap in H1 as (v1 & Heq1 & _).
      apply list_elem_of_fmap in H2 as (v2 & Heq2 & _). congruence.
    + intros x _. unfold G. apply NoDup_fmap_2_strong; [|apply NoDup_elements].
      intros a b _ _ Heq. congruence.
  - intros [u v]. rewrite !list_elem_of_bind. unfold F, G. split.
    + intros (x & Hin & Hx). apply list_elem_of_fmap in Hin as (y & Heq & Hy).
      injection Heq as -> ->. apply elem_of_elements in Hy.
      exists y. split.
      * apply list_elem_of_fmap. exists x. split; [reflexivity|].
        apply elem_of_elements, Htr, Hy.
      * apply elem_of_elements. exact (proj2 (Hcov _ _ Hy)).
    + intros (y & Hin & Hy). apply list_elem_of_fmap in Hin as (x & Heq & Hx).
      injection Heq as -> ->. apply elem_of_elements, Htr in Hx.
      exists x. split.
      * apply list_elem_of_fmap. exists y. split; [reflexivity|].
        apply elem_of_elements, Hx.
      * apply elem_of_elements. exact (proj1 (Hcov _ _ Hx)).
Qed.

End LinkMetricsFacts.

Module LinkGraphExtra.
Import LinkGraph LinkMetrics GraphSpec LinkGraphMoreFacts BfsFacts LinkMetricsFacts Examples.

Lemma bfs_keeps_adj fuel : forall graph depths queue depths' graph',
  bfs fuel graph depths queue = Some (depths', graph') ->
  forall k, adj graph' k = adj graph k.
Proof.
  induction fuel as [|fuel IH]; intros graph depths queue depths' graph' Hrun k.
  - destruct queue; [|discriminate]. injection Hrun as _ <-. reflexivity.
  - destruct queue as [|h t]; [injection Hrun as _ <-; reflexivity|].
    cbn [bfs] in Hrun. destruct (depths !! h) as [dh|]; [|discriminate].
    pose proof (dd_get_adj graph h k) as Ha.
    destruct (dd_get graph h) as [links graph1]. cbn [snd] in Ha.
    destruct (fold_left (visit dh) (elements links) (depths, t)) as [depths1 queue1].
    rewrite (IH _ _ _ _ _ Hrun). exact Ha.
Qed.

(** X14: [add_page_links] adds to [link_graph] exactly the edges from
    [page_url] to the links that normalise to a non-empty URL of the same
    domain, adds the same edges reversed to [reverse_link_graph], adds
    [page_url] and those targets to [all_urls], and keeps what was there. *)
Theorem add_page_links_edges (lib : UrlLib) (self : Analyzer) (page_url : string)
    (links : list string) :
  (forall u v,
     v ∈ adj (link_graph (add_page_links self page_url links)) u
     <-> v ∈ adj (link_graph self) u
         \/ (u = page_url /\ exists link, link ∈ links /\ links_to page_url link v))
  /\ (forall u v,
        u ∈ adj (reverse_link_graph (add_page_links self page_url links)) v
        <-> u ∈ adj (reverse_link_graph self) v
            \/ (u = page_url /\ exists link, link ∈ links /\ links_to page_url link v))
  /\ (forall x,
        x ∈ all_urls (add_page_links self page_url links)
        <-> x ∈ all_urls self \/ x = page_url
            \/ exists link, link ∈ links /\ links_to page_url link x).
Proof.
  unfold add_page_links. split; [|split].
  - intros u v. rewrite add_links_forward. reflexivity.
  - intros u v. rewrite add_links_reverse. reflexivity.
  - intros x. rewrite add_links_all_urls. cbn [all_urls].
    rewrite elem_of_union, elem_of_singleton. tauto.
Qed.

(** X15: after any sequence of [add_page_links] calls on a fresh analyzer,
    [reverse_link_graph] is the transpose of [link_graph]: both hold
    exactly the edges that the calls gave, and both ends of every edge
    are in [all_urls]. *)
Theorem built_reverse_graph_is_transpose (lib : UrlLib)
    (pages : list (string * list string)) (u v : string) :
  (v ∈ adj (link_graph (build pages)) u <-> edge_in pages u v)
  /\ (u ∈ adj (reverse_link_graph (build pages)) v <-> edge_in pages u v)
  /\ (edge_in pages u v -> u ∈ all_urls (build pages) /\ v ∈ all_urls (build pages)).
Proof.
  split; [apply build_forward|]. split; [apply build_reverse|].
  intros Hedge. rewrite !build_all_urls. split.
  - destruct Hedge as (ls & l & Hin & _). left. exists ls. exact Hin.
  - right. exists u. exact Hedge.
Qed.

(** X16: on an analyzer built by [add_page_links] calls, the orphaned
    pages are the sitemap URLs that no page links to. *)
Theorem built_orphans_have_no_inbound_edge (lib : UrlLib)
    (pages : list (string * list string)) (sitemap_urls : gset string) (url : string) :
  url ∈ find_orphaned_pages (build pages) sitemap_urls
  <-> url ∈ sitemap_urls /\ forall u, ~ edge_in pages u url.
Proof.
  unfold find_orphaned_pages. rewrite elem_of_filter, is_orphan_spec. split.
  - intros [Hno Hin]. split; [exact Hin|]. intros u Hedge.
    apply (Hno u), build_reverse, Hedge.
  - intros [Hin Hno]. split; [|exact Hin]. intros u Hu.
    apply (Hno u), build_reverse, Hu.
Qed.

(** X17: [find_link_depth] returns once the fuel exceeds the number of
    link targets of the graph, and the dictionary it returns holds, for
    exactly the URLs reachable from [start_url] along [link_graph], the
    least number of links of a walk from [start_url]. *)
Theorem find_link_depth_shortest_walks (self : Analyzer) (start_url : string) (extra : nat) :
  exists depths self',
    find_link_depth (S (size (targets (link_graph self))) + extra) self start_url
    = Some (depths, self')
    /\ forall u d, depths !! u = Some d <-> shortest (link_graph self) start_url u d.
Proof.
  destruct (bfs_runs (link_graph self) start_url
              (S (size (targets (link_graph self))) + extra)
              (link_graph self) {[start_url := 0%nat]} [start_url])
    as (depths & graph' & Hrun & _ & Hinv).
  - reflexivity.
  - apply bfs_invariant_init.
  - cbn [length].
    assert (Hsub : ({[start_url]} ∪ targets (link_graph self))
                     ∖ dom ({[start_url := 0%nat]} : gmap string nat)
                   ⊆ targets (link_graph self)).
    { intros k Hk. apply elem_of_difference in Hk as [Hk Hnot].
      apply elem_of_union in Hk as [Hk|Hk]; [|exact Hk].
      exfalso. apply Hnot. rewrite dom_singleton_L. exact Hk. }
    apply subseteq_size in Hsub. lia.
  - unfold find_link_depth. rewrite Hrun. eexists _, _. split; [reflexivity|].
    intros u d. apply bfs_invariant_final. exact Hinv.
Qed.

(** X18: [find_link_depth] changes no edge: afterwards both graphs have
    the same edges and [all_urls] is the same (reading the
    [defaultdict] only adds keys that hold the empty set), so the
    orphaned pages are what they were. *)
Theorem find_link_depth_keeps_edges (fuel : nat) (self self' : Analyzer)
    (start_url : string) (depths : gmap string nat) :
  find_link_depth fuel self start_url = Some (depths, self') ->
  same_edges self self'
  /\ forall sitemap_urls,
       find_orphaned_pages self' sitemap_urls = find_orphaned_pages self sitemap_urls.
Proof.
  unfold find_link_depth. intros Hrun.
  destruct (bfs fuel (link_graph self) {[start_url := 0%nat]} [start_url])
    as [[depths0 graph]|] eqn:Hbfs; [|discriminate].
  injection Hrun as _ <-. split.
  - split; [|split]; cbn; [|reflexivity|reflexivity].
    exact (bfs_keeps_adj _ _ _ _ _ _ Hbfs).
  - intros sitemap_urls. reflexivity.
Qed.

(** The theorem at a fresh analyzer, where the start URL becomes a key. *)
Lemma find_link_depth_keeps_edges_witness :
  same_edges new {| link_graph := {[home := ∅]}; reverse_link_graph := ∅; all_urls := ∅ |}
  /\ forall sitemap_urls,
       find_orphaned_pages
         {| link_graph := {[home := ∅]}; reverse_link_graph := ∅; all_urls := ∅ |}
         sitemap_urls
       = find_orphaned_pages new sitemap_urls.
Proof.
  apply (find_link_depth_keeps_edges 1 new _ home {[home := 0%nat]}).
  vm_compute. reflexivity.
Defined.

(** X19: [get_page_authority_metrics] has one entry for each URL of
    [all_urls] and no other: the number of pages that link to it, the
    number of pages it links to, and an authority score equal to the
    former. It changes no edge, so the orphaned pages stay what they
    were. *)
Theorem authority_metrics_count_links (self : Analyzer) :
  (forall url,
     (get_page_authority_metrics self).1 !! url
     = if decide (url ∈ all_urls self) then Some (metrics_of self url) else None)
  /\ same_edges self (get_page_authority_metrics self).2
  /\ forall sitemap_urls,
       find_orphaned_pages (get_page_authority_metrics self).2 sitemap_urls
       = find_orphaned_pages self sitemap_urls.
Proof.
  split; [apply metrics_lookup|]. split; [apply metrics_same_edges|].
  intros sitemap_urls. destruct (metrics_same_edges self) as (_ & Hrev & _).
  apply set_eq. intros url. unfold find_orphaned_pages.
  rewrite !elem_of_filter, !is_orphan_spec.
  split; intros [Hno Hin]; (split; [|exact Hin]); intros u.
  - rewrite <- Hrev. apply Hno.
  - rewrite Hrev. apply Hno.
Qed.

(** X20: on an analyzer built by [add_page_links] calls, the inbound
    links of all pages and the outbound links of all pages add up to the
    same number, so the two averages of the link report are equal. *)
Theorem built_inbound_total_is_outbound_total (lib : UrlLib)
    (pages : list (string * list string)) :
  total inbound_links (get_page_authority_metrics (build pages)).1
  = total outbound_links (get_page_authority_metrics (build pages)).1.
Proof.
  rewrite !total_over_urls. cbn [metrics_of inbound_links outbound_links].
  symmetry. apply edges_counted_twice.
  - intros u v. rewrite build_forward, build_reverse. reflexivity.
  - intros u v Hedge. apply build_forward in Hedge. rewrite !build_all_urls. split.
    + destruct Hedge as (ls & l & Hin & _). left. exists ls. exact Hin.
    + right. exists u. exact Hedge.
Qed.

End LinkGraphExtra.

(** ** The audit loop *)

Module AuditFacts.
Import Models Crawler Audit Examples.

Section WithEnvironment.
Context `{lib : UrlLib}.
Variable config : AuditConfig.
Variable robots_allows : string -> bool.
Variable sitemap_urls : list string.
Variable discover_from_page : nat -> string -> list string.
Variable analyze_page : nat -> string -> PageResult.
Variable analyze_redirects : nat -> string -> list string * list string.

Lemma analyze_url i u :
  url (analyze config analyze_page analyze_redirects i u) = url (analyze_page i u).
Proof.
  unfold analyze. destruct (follow_redirects config); [|reflexivity].
  destruct (analyze_redirects i u). reflexivity.
Qed.

Lemma add_results_snoc s rs r : add_results s (rs ++ [r]) = add_result (add_results s rs) r.
Proof. unfold add_results. rewrite fold_left_app. reflexivity. Qed.

Lemma get_next_url_keeps st st' :
  get_next_url config st = (None, st') -> st' = st.
Proof.
  unfold get_next_url. destruct (url_queue st); [congruence|].
  destruct (_ <=? _)%Z; congruence.
Qed.

Lemma audit_loop_eq fuel i self :
  audit_loop config robots_allows discover_from_page analyze_page analyze_redirects fuel i self
  = match get_next_url config (crawler self) with
    | (None, st) =>
        Some {| results := results self; summary := summary self; crawler := st |}
    | (Some u, st) =>
        if PyStr.is_empty u
        then Some {| results := results self; summary := summary self; crawler := st |}
        else
          let result := analyze config analyze_page analyze_redirects i u in
          if (max_pages config <=? Z.of_nat (length (results self ++ [result])))%Z
          then Some {| results := results self ++ [result];
                       summary := add_result (summary self) result; crawler := st |}
          else
            match fuel with
            | O => None
            | S fuel' =>
                audit_loop config robots_allows discover_from_page analyze_page
                  analyze_redirects fuel' (S i)
                  {| results := results self ++ [result];
                     summary := add_result (summary self) result;
                     crawler := resume config robots_allows discover_from_page i st u |}
            end
    end.
Proof. destruct fuel; reflexivity. Qed.

(** The loop ends without a new result: the queue is empty or gives an
    empty URL. *)
Lemma audit_stops_idle self st :
  audit_invariant config analyze_page self ->
  crawled_urls st = crawled_urls (crawler self) ->
  audit_outcome config analyze_page
    {| results := results self; summary := summary self; crawler := st |}.
Proof.
  intros (Hok & Hsize & Hbudget & Hsum & Hurls) Hst.
  unfold audit_outcome. cbn [results summary crawler].
  split; [destruct Hbudget as [->|]; cbn [length]; lia|].
  split; [exact Hsum|]. intros Hu. split; [exact (proj2 (Hurls Hu))|].
  split; [intros _; rewrite Hst; exact Hsize|].
  intros Hne Heq. destruct Hbudget as [?|?]; [contradiction|lia].
Qed.

(** The URL that the generator yields is not among those of the results. *)
Lemma audit_fresh_url self u st i :
  audit_invariant config analyze_page self ->
  get_next_url config (crawler self) = (Some u, st) ->
  (forall i u, url (analyze_page i u) = u) ->
  NoDup (List.map url (results self ++ [analyze config analyze_page analyze_redirects i u])).
Proof.
  intros (Hok & Hsize & Hbudget & Hsum & Hurls) Hnext Hu.
  destruct (CrawlerFacts.get_next_url_Some config _ _ _ Hnext) as (_ & Hc & _ & _).
  destruct (CrawlerFacts.get_next_url_ok config _ _ _ Hok Hnext) as (_ & _ & _ & Hfresh).
  rewrite map_app. apply NoDup_app. split; [exact (proj2 (Hurls Hu))|].
  split; [|repeat constructor; inversion 1].
  intros x Hx Hx'. apply list_elem_of_singleton in Hx'. subst x.
  rewrite analyze_url, Hu in Hx.
  apply list_elem_of_In, in_map_iff in Hx as (r & Hr & Hin).
  apply Hfresh. rewrite Hc, <- Hr. apply (proj1 (Hurls Hu)), list_elem_of_In, Hin.
Qed.

(** The loop ends at its [break]: the generator is not resumed. *)
Lemma audit_stops_full self u st i :
  audit_invariant config analyze_page self ->
  get_next_url config (crawler self) = (Some u, st) ->
  (max_pages config
   <= Z.of_nat (length (results self ++ [analyze config analyze_page analyze_redirects i u])))%Z ->
  audit_outcome config analyze_page
    {| results := results self ++ [analyze config analyze_page analyze_redirects i u];
       summary := add_result (summary self) (analyze config analyze_page analyze_redirects i u);
       crawler := st |}.
Proof.
  intros Hinv Hnext Hfull. pose proof (audit_fresh_url self u st i Hinv Hnext) as Hnodup.
  destruct Hinv as (Hok & Hsize & Hbudget & Hsum & Hurls).
  destruct (CrawlerFacts.get_next_url_Some config _ _ _ Hnext) as (_ & Hc & _ & Hlt).
  rewrite Hsize in Hlt. rewrite length_app in Hfull. cbn [length] in Hfull.
  unfold audit_outcome. cbn [results summary crawler]. rewrite length_app. cbn [length].
  split; [lia|]. split; [rewrite add_results_snoc, Hsum; reflexivity|].
  intros Hu. split; [exact (Hnodup Hu)|]. split.
  - intros [Hnil|Hlt']; [destruct (results self); discriminate|lia].
  - intros _ _. rewrite Hc, Hsize. lia.
Qed.

(** The loop goes on: the generator is resumed, and the invariant holds
    again. *)
Lemma audit_goes_on self u st i :
  audit_invariant config analyze_page self ->
  get_next_url config (crawler self) = (Some u, st) ->
  (Z.of_nat (length (results self ++ [analyze config analyze_page analyze_redirects i u]))
   < max_pages config)%Z ->
  audit_invariant config analyze_page
    {| results := results self ++ [analyze config analyze_page analyze_redirects i u];
       summary := add_result (summary self) (analyze config analyze_page analyze_redirects i u);
       crawler := resume config robots_allows discover_from_page i st u |}.
Proof.
  intros Hinv Hnext Hroom. pose proof (audit_fresh_url self u st i Hinv Hnext) as Hnodup.
  destruct Hinv as (Hok & Hsize & Hbudget & Hsum & Hurls).
  destruct (CrawlerFacts.get_next_url_Some config _ _ _ Hnext) as (_ & Hc & _ & _).
  destruct (CrawlerFacts.get_next_url_ok config _ _ _ Hok Hnext)
    as (Hok' & Hnotq & Hdisc & Hfresh).
  unfold audit_invariant. cbn [results summary crawler].
  split; [|split; [|split; [|split]]].
  - apply CrawlerFacts.resume_ok; assumption.
  - rewrite CrawlerFacts.resume_crawled, size_union, size_singleton, length_app, Hc, Hsize.
    + cbn [length]. lia.
    + intros x Hx Hx'. apply elem_of_singleton in Hx. subst x. exact (Hfresh Hx').
  - right. exact Hroom.
  - rewrite add_results_snoc, Hsum. reflexivity.
  - intros Hu. split; [|exact (Hnodup Hu)].
    intros r Hr. rewrite CrawlerFacts.resume_crawled, elem_of_union, elem_of_singleton.
    apply elem_of_app in Hr as [Hr|Hr].
    + right. rewrite Hc. exact (proj1 (Hurls Hu) r Hr).
    + apply list_elem_of_singleton in Hr. subst r. left. rewrite analyze_url. apply Hu.
Qed.

(** The loop of [run_audit] ends within the rounds that the budget
    leaves. *)
Lemma audit_loop_runs fuel : forall i self,
  audit_invariant config analyze_page self ->
  (max_pages config <= Z.of_nat (length (results self)) + Z.of_nat fuel + 1)%Z ->
  exists self',
    audit_loop config robots_allows discover_from_page analyze_page analyze_redirects
      fuel i self = Some self'
    /\ audit_outcome config analyze_page self'.
Proof.
  induction fuel as [|fuel IH]; intros i self Hinv Hfuel; rewrite audit_loop_eq.
  all: destruct (get_next_url config (crawler self)) as [[u|] st] eqn:Hnext.
  all: try (eexists; split; [reflexivity|]; apply audit_stops_idle; [exact Hinv|];
            rewrite (get_next_url_keeps _ _ Hnext); reflexivity).
  all: destruct (CrawlerFacts.get_next_url_Some config _ _ _ Hnext) as (_ & Hc & _ & _).
  all: destruct (PyStr.is_empty u);
    [eexists; split; [reflexivity|]; apply audit_stops_idle; assumption|].
  all: cbv zeta.
  all: destruct (Z.leb_spec (max_pages config)
         (Z.of_nat (length (results self
                            ++ [analyze config analyze_page analyze_redirects i u]))))
         as [Hfull|Hroom];
    [eexists; split; [reflexivity|]; apply audit_stops_full; assumption|].
  - rewrite length_app in Hroom. cbn [length] in Hroom. lia.
  - apply IH; [apply audit_goes_on; assumption|].
    cbn [results]. rewrite length_app. cbn [length]. lia.
Qed.

Lemma audit_invariant_init :
  audit_invariant config analyze_page
    {| results := []; summary := new_AuditSummary;
       crawler := initialize_urls config robots_allows sitemap_urls init |}.
Proof.
  destruct (CrawlerFacts.initialize_urls_ok config robots_allows sitemap_urls) as [Hok Hnone].
  unfold audit_invariant. cbn [results summary crawler].
  split; [exact Hok|]. split; [rewrite Hnone; reflexivity|].
  split; [left; reflexivity|]. split; [reflexivity|].
  intros _. split; [intros r Hr; inversion Hr|constructor].
Qed.

End WithEnvironment.

(** X21: [run_audit] ends within [max_pages] rounds of its loop. It
    returns at most [max_pages] results, none when [max_pages] is not
    positive, and the summary of the engine is the summary of exactly
    these results, added in order. *)
Theorem run_audit_within_budget (lib : UrlLib) (config : AuditConfig)
    (robots_allows : string -> bool) (sitemap_urls : list string)
    (discover_from_page : nat -> string -> list string)
    (analyze_page : nat -> string -> PageResult)
    (analyze_redirects : nat -> string -> list string * list string) :
  exists self,
    run_audit config robots_allows sitemap_urls discover_from_page analyze_page
      analyze_redirects (Z.to_nat (max_pages config)) = Some self
    /\ (Z.of_nat (length (results self)) <= Z.max 0 (max_pages config))%Z
    /\ summary self = add_results new_AuditSummary (results self)
    /\ total_pages (summary self) = length (results self).
Proof.
  destruct (audit_loop_runs config robots_allows discover_from_page analyze_page
              analyze_redirects (Z.to_nat (max_pages config)) 0
              {| results := []; summary := new_AuditSummary;
                 crawler := initialize_urls config robots_allows sitemap_urls init |})
    as (self & Hrun & Hlen & Hsum & _).
  - apply audit_invariant_init.
  - cbn [results length]. lia.
  - exists self. split; [exact Hrun|]. split; [exact Hlen|]. split; [exact Hsum|].
    rewrite Hsum. apply ModelsFacts.add_results_total_pages.
Qed.

(** X22: when [analyze_page] returns its result for the URL it was given,
    the results of [run_audit] are for distinct URLs. If the loop ended
    before the budget was reached, the crawler has marked as crawled as
    many URLs as there are results; if it ended because the budget was
    reached, the generator was not resumed after the last URL, and the
    crawler counts one crawled URL less than there are results. *)
Theorem run_audit_leaves_last_url_unmarked (lib : UrlLib) (config : AuditConfig)
    (robots_allows : string -> bool) (sitemap_urls : list string)
    (discover_from_page : nat -> string -> list string)
    (analyze_page : nat -> string -> PageResult)
    (analyze_redirects : nat -> string -> list string * list string) :
  (forall i u, url (analyze_page i u) = u) ->
  exists self,
    run_audit config robots_allows sitemap_urls discover_from_page analyze_page
      analyze_redirects (Z.to_nat (max_pages config)) = Some self
    /\ NoDup (List.map url (results self))
    /\ (results self = [] \/ (Z.of_nat (length (results self)) < max_pages config)%Z ->
        size (crawled_urls (crawler self)) = length (results self))
    /\ (results self <> [] ->
        Z.of_nat (length (results self)) = max_pages config ->
        length (results self) = S (size (crawled_urls (crawler self)))).
Proof.
  intros Hu.
  destruct (audit_loop_runs config robots_allows discover_from_page analyze_page
              analyze_redirects (Z.to_nat (max_pages config)) 0
              {| results := []; summary := new_AuditSummary;
                 crawler := initialize_urls config robots_allows sitemap_urls init |})
    as (self & Hrun & _ & _ & Hrest).
  - apply audit_invariant_init.
  - cbn [results length]. lia.
  - exists self. split; [exact Hrun|]. exact (Hrest Hu).
Qed.

(** The theorem at a crawl with budget 2 whose pages all link to the same
    three pages. *)
Lemma run_audit_leaves_last_url_unmarked_witness :
  exists self,
    run_audit (lib := PyUrl.model) small_config (fun _ => true) [] three_links
      (fun _ u => new_PageResult u) (fun _ u => ([u], [])) 2 = Some self
    /\ NoDup (List.map url (results self))
    /\ (results self = []
        \/ (Z.of_nat (length (results self)) < max_pages small_config)%Z ->
        size (crawled_urls (crawler self)) = length (results self))
    /\ (results self <> [] ->
        Z.of_nat (length (results self)) = max_pages small_config ->
        length (results self) = S (size (crawled_urls (crawler self)))).
Proof.
  apply (run_audit_leaves_last_url_unmarked PyUrl.model small_config (fun _ => true) []
           three_links (fun _ u => new_PageResult u) (fun _ u => ([u], []))).
  intros i u. reflexivity.
Defined.

End AuditFacts.

(** ** Indexability *)

Module IndexabilityFacts.
Import Models Indexability Counting.

Lemma http_status_issue_other status issue :
  issue ∈ ["meta_robots_noindex"; "missing_canonical"; "canonical_not_accessible";
           "redirect_chain"] ->
  http_status_issue status <> issue.
Proof.
  intros Hin Heq. subst issue. unfold http_status_issue in Hin. cbv [String.append] in Hin.
  repeat (apply elem_of_cons in Hin as [Hin|Hin]; [discriminate|]).
  inversion Hin.
Qed.

Lemma signals_none_iff p : check_indexability_signals p = [] <-> is_indexable p = true.
Proof.
  unfold check_indexability_signals, is_indexable.
  destruct (noindex p), (bool_decide (status (result p) = Some 200%Z)), (no_canonical p),
    (canonical_ok p), (Nat.ltb_spec 1 (length (redirect_chain (result p))));
    cbn [negb andb app];
    try (split; [discriminate|discriminate]);
    try (split; [intros _|intros _; reflexivity]; apply Nat.leb_le; lia);
    split; try discriminate; intros Hle; apply Nat.leb_le in Hle; lia.
Qed.

Lemma signals_distinct p : NoDup (check_indexability_signals p).
Proof.
  unfold check_indexability_signals.
  pose proof (http_status_issue_other (status (result p))) as Hh.
  assert (H1 : http_status_issue (status (result p)) <> "meta_robots_noindex")
    by (apply Hh; rewrite !elem_of_cons; tauto).
  assert (H2 : http_status_issue (status (result p)) <> "missing_canonical")
    by (apply Hh; rewrite !elem_of_cons; tauto).
  assert (H3 : http_status_issue (status (result p)) <> "canonical_not_accessible")
    by (apply Hh; rewrite !elem_of_cons; tauto).
  assert (H4 : http_status_issue (status (result p)) <> "redirect_chain")
    by (apply Hh; rewrite !elem_of_cons; tauto).
  clear Hh. generalize dependent (http_status_issue (status (result p))). intros h H1 H2 H3 H4.
  destruct (noindex p), (negb (bool_decide (status (result p) = Some 200%Z))),
    (no_canonical p), (negb (canonical_ok p)), (1 <? length (redirect_chain (result p)))%nat;
    cbn [app];
    repeat (constructor;
            [rewrite ?elem_of_cons, ?elem_of_nil; intuition (congruence || discriminate)|]);
    constructor.
Qed.

Lemma signals_length p : (length (check_indexability_signals p) <= 4)%nat.
Proof.
  unfold check_indexability_signals.
  destruct (noindex p), (negb (bool_decide (status (result p) = Some 200%Z))),
    (no_canonical p), (negb (canonical_ok p)), (1 <? length (redirect_chain (result p)))%nat;
    cbn [app length]; lia.
Qed.

Lemma analyze_indexability_fold results : forall report,
  let report' := fold_left analyze_result results report in
  total_pages report' = total_pages report
  /\ indexable_pages report'
     = (indexable_pages report + length (List.filter is_indexable results))%nat
  /\ non_indexable_pages report'
     = (non_indexable_pages report
        + length (List.filter (fun p => negb (is_indexable p)) results))%nat
  /\ conflicting_signals report'
     = conflicting_signals report
       ++ List.map (fun p => (url (result p), check_indexability_signals p))
            (List.filter (fun p => (1 <? length (check_indexability_signals p))%nat) results)
  /\ indexability_issues report'
     = fold_left bump (concat (List.map check_indexability_signals results))
         (indexability_issues report).
Proof.
  induction results as [|p results IH]; intros report; cbn zeta.
  - cbn. rewrite !Nat.add_0_r, app_nil_r. auto.
  - cbn [fold_left]. destruct (IH (analyze_result report p)) as (H1 & H2 & H3 & H4 & H5).
    rewrite H1, H2, H3, H4, H5. clear IH H1 H2 H3 H4 H5.
    cbn [List.filter List.map concat]. rewrite fold_left_app.
    unfold analyze_result.
    pose proof (signals_none_iff p) as Hnone.
    destruct (bool_decide_reflect (check_indexability_signals p = [])) as [Hnil|Hsome];
      cbn [negb total_pages indexable_pages non_indexable_pages conflicting_signals
           indexability_issues].
    + rewrite (proj1 Hnone Hnil). rewrite Hnil. cbn [length Nat.ltb Nat.leb negb fold_left].
      split; [reflexivity|]. split; [cbn [length]; lia|]. auto.
    + destruct (is_indexable p) eqn:Hix; [exfalso; apply Hsome, Hnone; reflexivity|].
      cbn [negb length]. split; [reflexivity|]. split; [reflexivity|]. split; [lia|].
      split; [|reflexivity].
      destruct (1 <? length (check_indexability_signals p))%nat; cbn [List.map].
      * rewrite <- app_assoc. reflexivity.
      * reflexivity.
Qed.

Lemma filter_partition {A} (f : A -> bool) l :
  (length (List.filter f l) + length (List.filter (fun x => negb (f x)) l))%nat = length l.
Proof.
  induction l as [|x l IH]; [reflexivity|]. cbn [List.filter].
  destruct (f x); cbn [negb length]; lia.
Qed.

Lemma filter_length_le {A} (f g : A -> bool) l :
  (forall x, f x = true -> g x = true) ->
  (length (List.filter f l) <= length (List.filter g l))%nat.
Proof.
  intros Himp. induction l as [|x l IH]; [reflexivity|]. cbn [List.filter].
  destruct (f x) eqn:Hf.
  - rewrite (Himp x Hf). cbn [length]. lia.
  - destruct (g x); cbn [length]; lia.
Qed.

(** In a concatenation of lists without repetitions, a value occurs as
    often as there are lists that hold it. *)
Lemma occurrences_concat {A B} `{EqDecision B} (f : A -> list B) (x : B) l :
  (forall a, NoDup (f a)) ->
  occurrences x (concat (List.map f l))
  = length (List.filter (fun a => bool_decide (x ∈ f a)) l).
Proof.
  intros Hnd. induction l as [|a l IH]; [reflexivity|].
  cbn [List.map concat List.filter]. rewrite SummaryFacts.occurrences_app, IH.
  assert (Hone : occurrences x (f a) = if bool_decide (x ∈ f a) then 1%nat else 0%nat).
  { specialize (Hnd a). unfold occurrences.
    induction (f a) as [|y k IHk]; [reflexivity|]. cbn [List.filter].
    apply NoDup_cons in Hnd as [Hy Hk]. specialize (IHk Hk).
    destruct (bool_decide_reflect (y = x)) as [->|Hne].
    - cbn [length]. rewrite IHk. rewrite (bool_decide_eq_false_2 _ Hy).
      rewrite bool_decide_eq_true_2 by apply list_elem_of_here. reflexivity.
    - rewrite IHk. destruct (bool_decide_reflect (x ∈ k)) as [Hin|Hout].
      + rewrite bool_decide_eq_true_2 by apply list_elem_of_further, Hin. reflexivity.
      + rewrite bool_decide_eq_false_2; [reflexivity|].
        rewrite elem_of_cons. intros [?|?]; [congruence|contradiction]. }
  rewrite Hone. destruct (bool_decide (x ∈ f a)); cbn [length]; lia.
Qed.

(** X23: [analyze_indexability] counts every page once, as indexable or
    not: the two counts add up to [total_pages], the number of results.
    The indexable pages are those with no [noindex], status 200, a
    non-empty canonical URL that answered 200 and no redirect chain, and
    the pages with conflicting signals are among those not indexable. *)
Theorem indexability_counts_partition (results : list Page) :
  let report := analyze_indexability results in
  total_pages report = length results
  /\ (indexable_pages report + non_indexable_pages report)%nat = total_pages report
  /\ indexable_pages report = length (List.filter is_indexable results)
  /\ (length (conflicting_signals report) <= non_indexable_pages report)%nat.
Proof.
  cbn zeta. unfold analyze_indexability.
  destruct (analyze_indexability_fold results
              {| total_pages := length results; indexable_pages := 0;
                 non_indexable_pages := 0; conflicting_signals := [];
                 indexability_issues := ∅ |}) as (H1 & H2 & H3 & H4 & _).
  cbn zeta in H1, H2, H3, H4. rewrite H1, H2, H3, H4.
  cbn [total_pages indexable_pages non_indexable_pages conflicting_signals app].
  split; [reflexivity|]. split; [apply filter_partition|]. split; [reflexivity|].
  rewrite length_map. apply filter_length_le. intros p Hp.
  destruct (is_indexable p) eqn:Hix; [|reflexivity].
  apply signals_none_iff in Hix. rewrite Hix in Hp. discriminate.
Qed.

(** X24: a page shows each signal at most once, and at most four signals.
    So [indexability_issues] holds, for each signal, the number of pages
    that show it (and no entry for a signal that no page shows), and no
    count exceeds [non_indexable_pages]. *)
Theorem indexability_issue_counts_pages (results : list Page) (issue : string) :
  let report := analyze_indexability results in
  indexability_issues report !! issue = counter_entry (length (pages_with issue results))
  /\ (length (pages_with issue results) <= non_indexable_pages report)%nat
  /\ Forall (fun p => NoDup (check_indexability_signals p)
                      /\ (length (check_indexability_signals p) <= 4)%nat) results.
Proof.
  cbn zeta. unfold analyze_indexability.
  destruct (analyze_indexability_fold results
              {| total_pages := length results; indexable_pages := 0;
                 non_indexable_pages := 0; conflicting_signals := [];
                 indexability_issues := ∅ |}) as (_ & _ & H3 & _ & H5).
  cbn zeta in H3, H5. rewrite H3, H5.
  cbn [non_indexable_pages indexability_issues]. split; [|split].
  - rewrite SummaryFacts.fold_bump_lookup, lookup_empty.
    rewrite (occurrences_concat check_indexability_signals issue results signals_distinct).
    unfold counter_entry, pages_with. cbn [default]. reflexivity.
  - unfold pages_with. apply filter_length_le. intros p Hp.
    destruct (is_indexable p) eqn:Hix; [|reflexivity].
    apply signals_none_iff in Hix. rewrite Hix in Hp.
    apply bool_decide_eq_true_1 in Hp. inversion Hp.
  - apply Forall_forall. intros p _. split; [apply signals_distinct|apply signals_length].
Qed.

End IndexabilityFacts.

(** ** Hreflang *)

Module HreflangFacts.
Import Hreflang.

Lemma dict_get_set {V} (d : Dict V) k v k' :
  dict_get (dict_set d k v) k' = if bool_decide (k = k') then Some v else dict_get d k'.
Proof.
  induction d as [|[k0 v0] d IH]; cbn [dict_set dict_get].
  - reflexivity.
  - destruct (bool_decide_reflect (k0 = k)) as [->|Hne]; cbn [dict_get].
    + destruct (bool_decide (k = k')); reflexivity.
    + rewrite IH. destruct (bool_decide_reflect (k0 = k')) as [->|Hne'].
      * rewrite bool_decide_eq_false_2 by congruence. reflexivity.
      * reflexivity.
Qed.

Lemma keys_dict_set {V} (d : Dict V) k v :
  keys (dict_set d k v) = if bool_decide (k ∈ keys d) then keys d else keys d ++ [k].
Proof.
  induction d as [|[k0 v0] d IH]; cbn [dict_set keys List.map fst].
  - reflexivity.
  - destruct (bool_decide_reflect (k0 = k)) as [->|Hne]; cbn [keys List.map fst].
    + rewrite bool_decide_eq_true_2 by apply list_elem_of_here. reflexivity.
    + change (List.map fst (dict_set d k v)) with (keys (dict_set d k v)). rewrite IH.
      change (List.map fst d) with (keys d).
      destruct (bool_decide_reflect (k ∈ keys d)) as [Hin|Hout].
      * rewrite bool_decide_eq_true_2 by apply list_elem_of_further, Hin. reflexivity.
      * rewrite bool_decide_eq_false_2; [reflexivity|].
        rewrite elem_of_cons. intros [?|?]; [congruence|contradiction].
Qed.

Lemma dict_set_ok {V} (d : Dict V) k v : dict_ok d -> dict_ok (dict_set d k v).
Proof.
  unfold dict_ok. intros Hok. rewrite keys_dict_set.
  destruct (bool_decide_reflect (k ∈ keys d)) as [Hin|Hout]; [exact Hok|].
  apply NoDup_app. split; [exact Hok|]. split; [|repeat constructor; inversion 1].
  intros x Hx Hx'. apply list_elem_of_singleton in Hx'. subst x. contradiction.
Qed.

Lemma collect_ok calls : dict_ok (collect calls).
Proof.
  unfold collect. induction calls as [|[u l] calls IH] using rev_ind.
  - constructor.
  - rewrite fold_left_app. cbn [fold_left]. apply dict_set_ok, IH.
Qed.

(** Distinct keys are never seen twice. *)
Lemma check_duplicate_fold url l : forall seen duplicates,
  NoDup l -> (forall k, k ∈ l -> k ∉ seen) ->
  (fold_left (check_duplicate url) l (seen, duplicates)).2 = duplicates.
Proof.
  induction l as [|k l IH]; intros seen duplicates Hnd Hfresh; [reflexivity|].
  cbn [fold_left check_duplicate]. apply NoDup_cons in Hnd as [Hk Hl].
  rewrite bool_decide_eq_false_2 by (apply Hfresh, list_elem_of_here).
  apply IH; [exact Hl|]. intros x Hx. rewrite elem_of_union, elem_of_singleton.
  intros [->|Hin]; [contradiction|]. exact (Hfresh x (list_elem_of_further _ _ _ Hx) Hin).
Qed.

Section WithPath.
Variable urlparse_path : string -> string.

Lemma analyze_item_fields data analysis url links :
  dict_ok links ->
  let analysis' := analyze_item urlparse_path data analysis (url, links) in
  total_pages_with_hreflang analysis' = total_pages_with_hreflang analysis
  /\ missing_x_default analysis'
     = missing_x_default analysis ++ without_x_default [(url, links)]
  /\ duplicate_languages analysis' = duplicate_languages analysis
  /\ invalid_language_codes analysis' = invalid_language_codes analysis.
Proof.
  intros Hok. cbn zeta. unfold analyze_item.
  pose proof (check_duplicate_fold url (keys links) ∅ (duplicate_languages analysis) Hok)
    as Hdup.
  destruct (fold_left (check_duplicate url) (keys links) (∅, duplicate_languages analysis))
    as [seen duplicates].
  cbn [snd] in Hdup. rewrite Hdup by (intros k _; apply not_elem_of_empty).
  cbn [total_pages_with_hreflang missing_x_default duplicate_languages
       invalid_language_codes].
  split; [reflexivity|]. split; [|split; reflexivity].
  unfold without_x_default. cbn [List.filter snd].
  destruct (dict_get links "x-default") as [v|].
  - rewrite bool_decide_eq_true_2 by (eexists; reflexivity). cbn. rewrite app_nil_r.
    reflexivity.
  - rewrite bool_decide_eq_false_2 by (intros [? ?]; discriminate). reflexivity.
Qed.

Lemma analyze_hreflang_fold data items : forall analysis,
  Forall (fun item => dict_ok item.2) items ->
  let analysis' := fold_left (analyze_item urlparse_path data) items analysis in
  total_pages_with_hreflang analysis' = total_pages_with_hreflang analysis
  /\ missing_x_default analysis' = missing_x_default analysis ++ without_x_default items
  /\ duplicate_languages analysis' = duplicate_languages analysis
  /\ invalid_language_codes analysis' = invalid_language_codes analysis.
Proof.
  induction items as [|[url links] items IH]; intros analysis Hok; cbn zeta.
  - cbn. rewrite app_nil_r. auto.
  - apply Forall_cons in Hok as [Hlinks Hrest]. cbn [fold_left].
    destruct (IH (analyze_item urlparse_path data analysis (url, links)) Hrest)
      as (H1 & H2 & H3 & H4).
    destruct (analyze_item_fields data analysis url links Hlinks) as (G1 & G2 & G3 & G4).
    cbn zeta in H1, H2, H3, H4, G1, G2, G3, G4.
    rewrite H1, H2, H3, H4, G1, G2, G3, G4. split; [reflexivity|].
    split; [|split; reflexivity].
    rewrite <- app_assoc. f_equal. unfold without_x_default, keys.
    rewrite <- map_app. f_equal. cbn [List.filter].
    destruct (negb _); reflexivity.
Qed.

End WithPath.

(** X25: when the link dictionaries hold each language code once, as
    every Python [dict] does, [analyze_hreflang_consistency] never reports
    a duplicate language and never an invalid language code;
    [missing_x_default] lists, in order, the URLs whose links have no
    [x-default] entry, and [total_pages_with_hreflang] is the number of
    URLs. *)
Theorem hreflang_reports_no_duplicate_language
    (urlparse_path : string -> string) (hreflang_data : Dict (Dict string)) :
  Forall (fun item => dict_ok item.2) hreflang_data ->
  let analysis := analyze_hreflang_consistency urlparse_path hreflang_data in
  duplicate_languages analysis = []
  /\ invalid_language_codes analysis = []
  /\ missing_x_default analysis = without_x_default hreflang_data
  /\ total_pages_with_hreflang analysis = length hreflang_data.
Proof.
  intros Hok. cbn zeta. unfold analyze_hreflang_consistency.
  destruct (analyze_hreflang_fold urlparse_path hreflang_data hreflang_data
              {| total_pages_with_hreflang := length hreflang_data;
                 reciprocal_issues := []; missing_x_default := [];
                 duplicate_languages := []; invalid_language_codes := [] |} Hok)
    as (H1 & H2 & H3 & H4).
  cbn zeta in H1, H2, H3, H4. rewrite H1, H2, H3, H4. auto.
Qed.

(** The theorem at two pages that point to each other, one of them with
    an [x-default] entry. *)
Lemma hreflang_reports_no_duplicate_language_witness :
  let data :=
    collect [("https://example.com/en/", [("fr", "https://example.com/fr/")]);
             ("https://example.com/fr/",
              [("en", "https://example.com/en/"); ("x-default", "https://example.com/en/")])] in
  let analysis := analyze_hreflang_consistency (fun u => PyStr.drop 19 u) data in
  duplicate_languages analysis = []
  /\ invalid_language_codes analysis = []
  /\ missing_x_default analysis = without_x_default data
  /\ total_pages_with_hreflang analysis = length data.
Proof.
  apply (hreflang_reports_no_duplicate_language (fun u => PyStr.drop 19 u)).
  repeat constructor; cbn; rewrite ?elem_of_cons, ?elem_of_nil; intuition discriminate.
Defined.

(** X26: [add_hreflang_data] keeps one entry for each URL: after any
    sequence of calls the dictionary holds each URL once, a lookup gives
    the links of the last call for that URL, and a URL that was never
    added has no entry. *)
Theorem add_hreflang_data_last_call_wins (calls : list (string * Dict string))
    (url : string) (links : Dict string) (other : string) :
  dict_ok (collect (calls ++ [(url, links)]))
  /\ dict_get (collect (calls ++ [(url, links)])) other
     = (if bool_decide (url = other) then Some links else dict_get (collect calls) other)
  /\ dict_get (collect []) other = (None : option (Dict string)).
Proof.
  split; [apply collect_ok|]. split; [|reflexivity].
  unfold collect. rewrite fold_left_app. cbn [fold_left fst snd].
  apply dict_get_set.
Qed.

End HreflangFacts.

(** ** The links of a page *)

Module LinksFacts.
Import Models Links Examples.

Section WithLib.
Context `{lib : UrlLib}.
Variable config : AuditConfig.

Lemma extract_loop_raises base_url hrefs : forall urls,
  extract_loop config base_url hrefs urls = None <-> None ∈ hrefs.
Proof.
  induction hrefs as [|[href|] hrefs IH]; intros urls; cbn [extract_loop].
  - split; [discriminate|intros Hin; inversion Hin].
  - rewrite elem_of_cons.
    destruct (followable (PyStr.strip href));
      [destruct (Utils.is_same_domain _ _)|]; rewrite IH;
      (split; [intros Hin; right; exact Hin|intros [?|Hin]; [discriminate|exact Hin]]).
  - split; [intros _; apply list_elem_of_here|reflexivity].
Qed.

Lemma extract_loop_returns base_url hrefs : forall urls urls',
  extract_loop config base_url hrefs urls = Some urls' ->
  urls' = urls ++ List.map (fun href => Utils.normalize_url (urljoin base_url href))
                    (List.filter (fun href => Utils.is_same_domain (urljoin base_url href)
                                                (domain config))
                       (followed (before_none hrefs))).
Proof.
  unfold followed.
  induction hrefs as [|[href|] hrefs IH]; intros urls urls' Hrun; cbn [extract_loop] in Hrun.
  - injection Hrun as <-. cbn. rewrite app_nil_r. reflexivity.
  - cbn [before_none List.map List.filter].
    destruct (followable (PyStr.strip href)); cbn [List.filter].
    + destruct (Utils.is_same_domain (urljoin base_url (PyStr.strip href)) (domain config));
        cbn [List.map]; rewrite (IH _ _ Hrun); [rewrite <- app_assoc|]; reflexivity.
    + exact (IH _ _ Hrun).
  - discriminate.
Qed.

Lemma analyze_links_closed url hrefs : forall links_internal links_external,
  analyze_links hrefs url links_internal links_external
  = ((links_internal
      + length (List.filter (fun href => is_internal_link href url)
                  (followed (before_none hrefs))))%nat,
     (links_external
      + length (List.filter (fun href => negb (is_internal_link href url))
                  (followed (before_none hrefs))))%nat,
     bool_decide (None ∈ hrefs)).
Proof.
  unfold followed.
  induction hrefs as [|[href|] hrefs IH]; intros links_internal links_external;
    cbn [analyze_links before_none List.map List.filter].
  - cbn [length]. rewrite !Nat.add_0_r.
    rewrite bool_decide_eq_false_2 by (intros Hin; inversion Hin). reflexivity.
  - assert (Hnone : bool_decide (None ∈ Some href :: hrefs) = bool_decide (None ∈ hrefs)).
    { apply bool_decide_ext. rewrite elem_of_cons. split; [intros [?|?]; [discriminate|assumption]|auto]. }
    rewrite Hnone.
    destruct (followable (PyStr.strip href)); cbn [negb List.filter]; [|apply IH].
    destruct (is_internal_link (PyStr.strip href) url); cbn [negb length]; rewrite IH;
      f_equal; f_equal; lia.
  - cbn [length]. rewrite !Nat.add_0_r.
    rewrite bool_decide_eq_true_2 by apply list_elem_of_here. reflexivity.
Qed.

Lemma before_none_all hrefs : None ∉ hrefs -> Some <$> before_none hrefs = hrefs.
Proof.
  induction hrefs as [|[href|] hrefs IH]; intros Hno; cbn [before_none fmap list_fmap].
  - reflexivity.
  - cbn. f_equal. apply IH. intros Hin. apply Hno, list_elem_of_further, Hin.
  - exfalso. apply Hno, list_elem_of_here.
Qed.

End WithLib.

(** X27: when some link has an [href] without a value,
    [_extract_links_from_html] raises and [discover_from_page] returns no
    URL at all. Whenever [_extract_links_from_html] returns, the list has
    no repetition and holds exactly the non-empty, twice normalised
    absolute URLs of the links that are followed (not empty, not a
    script, mail, phone or fragment link) and lead to the domain of the
    audit. *)
Theorem extracted_links_are_distinct_and_internal (lib : UrlLib) (config : AuditConfig)
    (hrefs : list (option string)) (base_url : string) :
  (None ∈ hrefs ->
   extract_links_from_html config hrefs base_url = None
   /\ forall status_code content_type,
        discover_from_page config
          (Some {| status_code := status_code; content_type := content_type;
                   hrefs := hrefs |})
          base_url = [])
  /\ (forall urls,
       extract_links_from_html config hrefs base_url = Some urls ->
       NoDup urls
       /\ forall u, u ∈ urls <->
            u <> ""
            /\ exists href, href ∈ followed (before_none hrefs)
                 /\ Utils.is_same_domain (urljoin base_url href) (domain config) = true
                 /\ u = Utils.normalize_url (Utils.normalize_url (urljoin base_url href))).
Proof.
  unfold extract_links_from_html. split.
  - intros Hnone. apply (extract_loop_raises config base_url hrefs []) in Hnone.
    rewrite Hnone. split; [reflexivity|].
    intros status_code content_type. unfold discover_from_page, extract_links_from_html.
    cbn [Links.status_code Links.content_type Links.hrefs]. rewrite Hnone.
    destruct (_ && _); reflexivity.
  - intros urls Hrun.
    destruct (extract_loop config base_url hrefs []) as [urls0|] eqn:Hloop; [|discriminate].
    injection Hrun as <-.
    apply extract_loop_returns in Hloop. cbn [app] in Hloop. subst urls0.
    rewrite UtilsFacts.deduplicate_urls_spec.
    split; [apply UtilsFacts.keep_first_seen_NoDup|].
    intros u. rewrite UtilsFacts.keep_first_seen_elem, UtilsMoreFacts.candidates_elem.
    split.
    + intros [Hne (x & Hx & Hu)]. split; [exact Hne|].
      apply list_elem_of_In, in_map_iff in Hx as (href & Hhref & Hin).
      apply filter_In in Hin as [Hin Hsame].
      exists href. split; [apply list_elem_of_In, Hin|]. split; [exact Hsame|].
      rewrite <- Hu, <- Hhref. reflexivity.
    + intros [Hne (href & Hin & Hsame & Hu)]. split; [exact Hne|].
      exists (Utils.normalize_url (urljoin base_url href)). split; [|symmetry; exact Hu].
      apply list_elem_of_In, in_map_iff. exists href. split; [reflexivity|].
      apply filter_In. split; [apply list_elem_of_In, Hin|exact Hsame].
Qed.

(** X28: [_analyze_links] counts each followed link once, as internal or
    as external, up to the first [href] without a value, where it raises;
    the links it skips are the ones that link extraction skips. So on a
    page of the audited domain, [discover_from_page] never returns more
    URLs than the page has internal links. *)
Theorem analyze_links_counts_followed_links (lib : UrlLib) (config : AuditConfig)
    (hrefs : list (option string)) (url : string) :
  exists links_internal links_external,
    analyze_links hrefs url 0 0
    = (links_internal, links_external, bool_decide (None ∈ hrefs))
    /\ (links_internal + links_external)%nat = length (followed (before_none hrefs))
    /\ links_internal
       = length (List.filter (fun href => is_internal_link href url)
                   (followed (before_none hrefs)))
    /\ (Utils.is_same_domain url (domain config) = true ->
        forall status_code content_type,
          (length (discover_from_page config
                     (Some {| status_code := status_code; content_type := content_type;
                              hrefs := hrefs |}) url)
           <= links_internal)%nat).
Proof.
  eexists _, _. rewrite analyze_links_closed. cbn [Nat.add].
  split; [reflexivity|]. split; [apply IndexabilityFacts.filter_partition|]. split; [reflexivity|].
  intros Hsame status_code content_type.
  unfold discover_from_page. cbn [Links.status_code Links.content_type Links.hrefs].
  destruct (_ && _); [|cbn [length]; lia].
  unfold extract_links_from_html.
  destruct (extract_loop config url hrefs []) as [urls|] eqn:Hloop; [|cbn [length]; lia].
  apply extract_loop_returns in Hloop. cbn [app] in Hloop. subst urls.
  rewrite UtilsFacts.deduplicate_urls_spec.
  etransitivity; [apply UtilsMoreFacts.keep_first_seen_length|].
  unfold Utils.candidates.
  etransitivity; [apply List.filter_length_le|]. rewrite !length_map.
  apply Nat.eq_le_incl. f_equal. apply List.filter_ext. intros href.
  unfold is_internal_link, Utils.is_same_domain in *.
  apply bool_decide_eq_true_1 in Hsame. rewrite Hsame. reflexivity.
Qed.

End LinksFacts.

(** ** The crawl and the audit together *)

Module CrawlStatsFacts.
Import Models Crawler CrawlStats Audit Examples.

Lemma frontier_counts st :
  frontier_ok st ->
  (size (crawled_urls st) + length (url_queue st) <= size (discovered_urls st))%nat.
Proof.
  intros (Hnodup & Hqueue & Hcrawled & Hfresh).
  rewrite <- (size_list_to_set (C := gset string) (url_queue st)) by exact Hnodup.
  rewrite <- size_union.
  - apply subseteq_size. intros u Hu. apply elem_of_union in Hu as [Hu|Hu].
    + apply Hcrawled, Hu.
    + apply elem_of_list_to_set in Hu. apply Hqueue, Hu.
  - intros u Hc Hq. apply elem_of_list_to_set in Hq. exact (Hfresh u Hq Hc).
Qed.

Section WithEnvironment.
Context `{lib : UrlLib}.
Variable config : AuditConfig.
Variable robots_allows : string -> bool.
Variable sitemap_urls : list string.
Variable discover_from_page : nat -> string -> list string.

Lemma crawl_loop_counts fuel : forall i st urls st',
  frontier_ok st ->
  crawl_loop config robots_allows discover_from_page fuel i st = Some (urls, st') ->
  frontier_ok st'
  /\ size (crawled_urls st') = (size (crawled_urls st) + length urls)%nat.
Proof.
  induction fuel as [|fuel IH]; intros i st urls st' Hok Hrun;
    cbn [crawl_loop] in Hrun;
    destruct (get_next_url config st) as [[u|] st1] eqn:Hnext.
  - destruct (CrawlerFacts.get_next_url_Some config _ _ _ Hnext) as (_ & Hc & _ & _).
    destruct (CrawlerFacts.get_next_url_ok config _ _ _ Hok Hnext) as (Hok1 & _).
    destruct (PyStr.is_empty u); [|discriminate]. injection Hrun as <- <-.
    split; [exact Hok1|]. rewrite Hc. cbn [length]. lia.
  - injection Hrun as <- <-. rewrite (AuditFacts.get_next_url_keeps config _ _ Hnext).
    split; [exact Hok|]. cbn [length]. lia.
  - destruct (CrawlerFacts.get_next_url_Some config _ _ _ Hnext) as (_ & Hc & _ & _).
    destruct (CrawlerFacts.get_next_url_ok config _ _ _ Hok Hnext)
      as (Hok1 & Hnotq & Hdisc & Hfresh).
    destruct (PyStr.is_empty u).
    { injection Hrun as <- <-. split; [exact Hok1|]. rewrite Hc. cbn [length]. lia. }
    destruct (crawl_loop config robots_allows discover_from_page fuel (S i)
                (resume config robots_allows discover_from_page i st1 u))
      as [[urls1 st2]|] eqn:Hrest; [|discriminate].
    injection Hrun as <- <-.
    destruct (IH _ _ _ _ (CrawlerFacts.resume_ok config robots_allows discover_from_page
                            i st1 u Hok1 Hnotq Hdisc) Hrest) as [Hok2 Hsize].
    split; [exact Hok2|]. rewrite Hsize, CrawlerFacts.resume_crawled, size_union.
    + rewrite size_singleton, Hc. cbn [length]. lia.
    + intros x Hx Hx'. apply elem_of_singleton in Hx. subst x. exact (Hfresh Hx').
  - injection Hrun as <- <-. rewrite (AuditFacts.get_next_url_keeps config _ _ Hnext).
    split; [exact Hok|]. cbn [length]. lia.
Qed.

Variable analyze_page : nat -> string -> PageResult.
Variable analyze_redirects : nat -> string -> list string * list string.

Lemma crawl_loop_S fuel i st :
  crawl_loop config robots_allows discover_from_page (S fuel) i st
  = match get_next_url config st with
    | (None, st) => Some ([], st)
    | (Some u, st) =>
        if PyStr.is_empty u then Some ([], st)
        else
          match crawl_loop config robots_allows discover_from_page fuel (S i)
                  (resume config robots_allows discover_from_page i st u) with
          | Some (urls, st') => Some (u :: urls, st')
          | None => None
          end
    end.
Proof. reflexivity. Qed.

(** Once the budget is reached the generator yields nothing more. *)
Lemma crawl_loop_done fuel i st :
  (max_pages config <= Z.of_nat (size (crawled_urls st)))%Z ->
  crawl_loop config robots_allows discover_from_page fuel i st = Some ([], st).
Proof.
  intros Hfull.
  assert (Hnone : get_next_url config st = (None, st)).
  { destruct (get_next_url config st) as [[v|] st2] eqn:Hnext.
    - destruct (CrawlerFacts.get_next_url_Some config _ _ _ Hnext) as (_ & _ & _ & Hlt). lia.
    - rewrite (AuditFacts.get_next_url_keeps config _ _ Hnext). reflexivity. }
  destruct fuel; cbn [crawl_loop]; rewrite Hnone; reflexivity.
Qed.

(** The loop of [run_audit] analyses the URLs that the generator yields
    when it is consumed to its end. *)
Lemma audit_loop_follows_crawl fuel : forall i self self',
  (forall i u, url (analyze_page i u) = u) ->
  frontier_ok (crawler self) ->
  size (crawled_urls (crawler self)) = length (results self) ->
  audit_loop config robots_allows discover_from_page analyze_page analyze_redirects
    fuel i self = Some self' ->
  exists new st',
    results self' = results self ++ new
    /\ crawl_loop config robots_allows discover_from_page (S fuel) i (crawler self)
       = Some (List.map url new, st').
Proof.
  induction fuel as [|fuel IH]; intros i self self' Hu Hok Hsize Hrun;
    rewrite AuditFacts.audit_loop_eq in Hrun;
    rewrite crawl_loop_S;
    destruct (get_next_url config (crawler self)) as [[u|] st] eqn:Hnext.
  all: try (injection Hrun as <-; exists [], st; cbn [results List.map];
            rewrite app_nil_r; split; reflexivity).
  all: destruct (CrawlerFacts.get_next_url_Some config _ _ _ Hnext) as (_ & Hc & _ & _);
    destruct (CrawlerFacts.get_next_url_ok config _ _ _ Hok Hnext)
      as (Hok1 & Hnotq & Hdisc & Hfresh);
    destruct (PyStr.is_empty u);
    [injection Hrun as <-; exists [], st; cbn [results List.map];
     rewrite app_nil_r; split; reflexivity|].
  all: cbv zeta in Hrun;
    assert (Hgrown : size (crawled_urls (resume config robots_allows discover_from_page
                                           i st u))
                     = length (results self
                               ++ [analyze config analyze_page analyze_redirects i u]))
      by (rewrite CrawlerFacts.resume_crawled, size_union, size_singleton, length_app, Hc,
            Hsize; [cbn [length]; lia|];
          intros x Hx Hx'; apply elem_of_singleton in Hx; subst x; exact (Hfresh Hx'));
    destruct (Z.leb_spec (max_pages config)
         (Z.of_nat (length (results self
                            ++ [analyze config analyze_page analyze_redirects i u]))))
         as [Hfull|Hroom].
  1,3: injection Hrun as <-;
    exists [analyze config analyze_page analyze_redirects i u],
           (resume config robots_allows discover_from_page i st u);
    cbn [results List.map]; split; [reflexivity|];
    rewrite AuditFacts.analyze_url, Hu;
    rewrite crawl_loop_done by (rewrite Hgrown; exact Hfull); reflexivity.
  - discriminate.
  - apply IH in Hrun as (new & st' & Hres & Hcrawl);
      [|exact Hu
       |cbn [crawler]; apply CrawlerFacts.resume_ok; assumption
       |cbn [crawler results]; exact Hgrown].
    cbn [results crawler] in Hres, Hcrawl.
    exists (analyze config analyze_page analyze_redirects i u :: new), st'.
    split; [rewrite Hres, <- app_assoc; reflexivity|].
    rewrite Hcrawl. cbn [List.map]. rewrite AuditFacts.analyze_url, Hu. reflexivity.
Qed.

End WithEnvironment.

(** X29: when the generator of [crawl_urls] has run to its end, the
    ['crawled_urls'] count of [get_stats] is the number of URLs that were
    yielded, and the crawled and the remaining URLs together are no more
    than the discovered ones. *)
Theorem crawl_stats_are_consistent
    (lib : UrlLib) (config : AuditConfig) (robots_allows : string -> bool)
    (sitemap_urls : list string) (discover_from_page : nat -> string -> list string)
    (fuel : nat) (urls : list string) (st' : State) :
  crawl_urls config robots_allows sitemap_urls discover_from_page fuel = Some (urls, st') ->
  crawled (get_stats st') = length urls
  /\ (crawled (get_stats st') + remaining (get_stats st') <= discovered (get_stats st'))%nat.
Proof.
  intros Hrun. unfold crawl_urls in Hrun.
  destruct (CrawlerFacts.initialize_urls_ok config robots_allows sitemap_urls) as [Hok Hnone].
  destruct (crawl_loop_counts config robots_allows discover_from_page fuel 0 _ urls st'
              Hok Hrun) as [Hok' Hsize].
  unfold get_stats. cbn [crawled remaining discovered]. split.
  - rewrite Hsize, Hnone, size_empty. reflexivity.
  - apply frontier_counts, Hok'.
Qed.

(** The theorem at the crawl of the small site. *)
Lemma crawl_stats_are_consistent_witness :
  exists st' : State,
    crawl_urls (lib := PyUrl.model) small_config (fun _ => true) [] three_links 2
    = Some (["https://example.com"; "https://example.com/a"], st')
    /\ crawled (get_stats st') = length ["https://example.com"; "https://example.com/a"]
    /\ (crawled (get_stats st') + remaining (get_stats st') <= discovered (get_stats st'))%nat.
Proof.
  assert (Hrun : exists st' : State,
            crawl_urls (lib := PyUrl.model) small_config (fun _ => true) [] three_links 2
            = Some (["https://example.com"; "https://example.com/a"], st'))
    by (eexists; vm_compute; reflexivity).
  destruct Hrun as [st' Hrun]. exists st'. split; [exact Hrun|].
  exact (crawl_stats_are_consistent PyUrl.model small_config (fun _ => true) []
           three_links 2 _ st' Hrun).
Defined.

(** X30: when [analyze_page] returns its result for the URL it was given,
    the results of [run_audit] are, in order, for exactly the URLs that
    the generator of [crawl_urls] yields when it is consumed to its end:
    leaving the loop at the budget loses no URL. *)
Theorem run_audit_analyses_the_crawled_urls (lib : UrlLib) (config : AuditConfig)
    (robots_allows : string -> bool) (sitemap_urls : list string)
    (discover_from_page : nat -> string -> list string)
    (analyze_page : nat -> string -> PageResult)
    (analyze_redirects : nat -> string -> list string * list string) :
  (forall i u, url (analyze_page i u) = u) ->
  exists self st',
    run_audit config robots_allows sitemap_urls discover_from_page analyze_page
      analyze_redirects (Z.to_nat (max_pages config)) = Some self
    /\ crawl_urls config robots_allows sitemap_urls discover_from_page
         (S (Z.to_nat (max_pages config)))
       = Some (List.map url (results self), st').
Proof.
  intros Hu.
  destruct (AuditFacts.audit_loop_runs config robots_allows discover_from_page analyze_page
              analyze_redirects (Z.to_nat (max_pages config)) 0
              {| results := []; summary := new_AuditSummary;
                 crawler := initialize_urls config robots_allows sitemap_urls init |})
    as (self & Hrun & _).
  - apply AuditFacts.audit_invariant_init.
  - cbn [results length]. lia.
  - destruct (CrawlerFacts.initialize_urls_ok config robots_allows sitemap_urls)
      as [Hok Hnone].
    pose proof Hrun as Hcrawl.
    apply audit_loop_follows_crawl in Hcrawl as (new & st' & Hres & Hcrawl);
      [|exact Hu|exact Hok|cbn [crawler results length]; rewrite Hnone; apply size_empty].
    cbn [results crawler app] in Hres, Hcrawl. subst new.
    exists self, st'. split; [exact Hrun|exact Hcrawl].
Qed.

(** The theorem at the crawl of the small site. *)
Lemma run_audit_analyses_the_crawled_urls_witness :
  exists self st',
    run_audit (lib := PyUrl.model) small_config (fun _ => true) [] three_links
      (fun _ u => new_PageResult u) (fun _ u => ([u], [])) 2 = Some self
    /\ crawl_urls (lib := PyUrl.model) small_config (fun _ => true) [] three_links 3
       = Some (List.map url (results self), st').
Proof.
  apply (run_audit_analyses_the_crawled_urls PyUrl.model small_config (fun _ => true) []
           three_links (fun _ u => new_PageResult u) (fun _ u => ([u], []))).
  intros i u. reflexivity.
Defined.

End CrawlStatsFacts.
